(** * The Gemini scene service: JSON repair, image client, staged workflow

    A shallow embedding of [services/geminiService.ts] (the multi-stage
    version with the three-attempt repair ladder) and of the platform
    primitives it calls: the string methods, the four regular-expression
    replacements and [JSON.parse].

    Conventions.
    - A JavaScript string is a [string]: a sequence of code units below 256.
      Texts holding wider code units are outside the model.
    - A JSON number is its exact decimal value [m * 10^e]; the rounding to
      IEEE-754 doubles done by the engine is not modelled.
    - A string value built by [JSON.parse] is a list of 16-bit code units
      ([list N]), because an escape [\uXXXX] can denote any of them. *)

From Stdlib Require Import String Ascii List ZArith NArith Arith Bool Lia.
From Stdlib Require Import DecimalString.
Import ListNotations.
Local Open Scope list_scope.
Local Open Scope string_scope.

(** ** JavaScript string primitives *)

Module JsString.

(** The class [\s] of regular expressions, which is also what
    [String.prototype.trim] removes: TAB, LF, VT, FF, CR, SP, NBSP. *)
Definition is_space (c : ascii) : bool :=
  let n := nat_of_ascii c in
  (((9 <=? n) && (n <=? 13)) || (n =? 32) || (n =? 160))%nat.

Fixpoint skip_space (s : string) : string :=
  match s with
  | String c r => if is_space c then skip_space r else s
  | EmptyString => EmptyString
  end.

Fixpoint all_space (s : string) : bool :=
  match s with
  | String c r => is_space c && all_space r
  | EmptyString => true
  end.

Fixpoint trim_end (s : string) : string :=
  match s with
  | String c r => if all_space s then EmptyString else String c (trim_end r)
  | EmptyString => EmptyString
  end.

(** [s.trim()] *)
Definition trim (s : string) : string := trim_end (skip_space s).

(** [s.indexOf(c)] for a one-character needle; [None] stands for [-1]. *)
Fixpoint indexOf (c : ascii) (s : string) : option nat :=
  match s with
  | EmptyString => None
  | String a r =>
      if Ascii.eqb a c then Some 0
      else match indexOf c r with
           | Some i => Some (S i)
           | None => None
           end
  end.

(** [s.lastIndexOf(c)] for a one-character needle. *)
Fixpoint lastIndexOf (c : ascii) (s : string) : option nat :=
  match s with
  | EmptyString => None
  | String a r =>
      match lastIndexOf c r with
      | Some i => Some (S i)
      | None => if Ascii.eqb a c then Some 0 else None
      end
  end.

(** [s.substring(n)] *)
Fixpoint substring_from (n : nat) (s : string) : string :=
  match n, s with
  | S n', String _ r => substring_from n' r
  | _, _ => s
  end.

(** [s.substring(0, n)] *)
Fixpoint substring_to (n : nat) (s : string) : string :=
  match n, s with
  | S n', String c r => String c (substring_to n' r)
  | _, _ => EmptyString
  end.

(** [(s.match(/c/g) || []).length] for a one-character pattern. *)
Fixpoint count_char (c : ascii) (s : string) : nat :=
  match s with
  | EmptyString => 0
  | String a r => (if Ascii.eqb a c then 1 else 0) + count_char c r
  end.

(** [c.repeat(n)], the result of a loop [suffix += c] run [n] times. *)
Fixpoint repeat_char (c : ascii) (n : nat) : string :=
  match n with
  | 0 => EmptyString
  | S n' => String c (repeat_char c n')
  end.

(** [strip_prefix p s] is what follows [p] when [s] starts with [p]. *)
Fixpoint strip_prefix (p s : string) : option string :=
  match p, s with
  | EmptyString, _ => Some s
  | String a p', String b s' =>
      if Ascii.eqb a b then strip_prefix p' s' else None
  | String _ _, EmptyString => None
  end.

(** A pattern is given by its matcher at one position: the text left
    after the match, when the pattern matches there. *)
Definition matcher := string -> option string.

(** [s.replace(/re/g, by)]: the leftmost match is replaced and the scan
    resumes after it; a character where nothing matches is copied.  All
    the patterns of the service consume at least one character, so a
    budget of [length s] steps is never used up. *)
Fixpoint replace_go (m : matcher) (by_ : string) (budget : nat) (s : string)
  : string :=
  match budget with
  | 0 => s
  | S b =>
      match s with
      | EmptyString => EmptyString
      | String c r =>
          match m s with
          | Some rest => by_ ++ replace_go m by_ b rest
          | None => String c (replace_go m by_ b r)
          end
      end
  end.

Definition replace_all (m : matcher) (by_ : string) (s : string) : string :=
  replace_go m by_ (String.length s) s.

(** [/```json\s*|\s*```/]: the first alternative is tried first; in the
    second the greedy [\s*] takes the whole run of spaces, and giving
    some back cannot help since a backtick is not a space. *)
Definition re_fence : matcher := fun s =>
  match strip_prefix "```json" s with
  | Some r => Some (skip_space r)
  | None => strip_prefix "```" (skip_space s)
  end.

(** [/a\s*b/] for two characters [a] and [b]. *)
Definition re_gap (a b : ascii) : matcher := fun s =>
  match s with
  | String c r =>
      if Ascii.eqb c a then
        match skip_space r with
        | String d r' => if Ascii.eqb d b then Some r' else None
        | EmptyString => None
        end
      else None
  | EmptyString => None
  end.

End JsString.

(** ** JSON values and [JSON.parse] *)

Module Json.

(** A property key or a string value: 16-bit code units. *)
Definition jstr := list N.

(** The code units of a literal of the service. *)
Definition units (s : string) : jstr :=
  map N_of_ascii (list_ascii_of_string s).

(** What [JSON.parse] can return.  [JNumber m e] is [m * 10^e], with [m]
    not a multiple of ten, or [m = 0] and [e = 0].  An object keeps its
    members in the order in which their keys were first defined (the
    engine's reordering of integer-like keys is not modelled). *)
#[warnings="-register-all"]
Inductive json : Type :=
| JNull
| JBool (b : bool)
| JNumber (m e : Z)
| JString (u : jstr)
| JArray (elems : list json)
| JObject (members : list (jstr * json)).

Definition jstr_eqb (a b : jstr) : bool :=
  if list_eq_dec N.eq_dec a b then true else false.

(** [o[k]] on own properties; [None] is [undefined]. *)
Fixpoint obj_get (k : jstr) (ms : list (jstr * json)) : option json :=
  match ms with
  | [] => None
  | (k', v) :: r => if jstr_eqb k k' then Some v else obj_get k r
  end.

(** [o[k] = v]: an existing member is overwritten in place, a new one
    is added last. *)
Fixpoint obj_set (k : jstr) (v : json) (ms : list (jstr * json))
  : list (jstr * json) :=
  match ms with
  | [] => [(k, v)]
  | (k', v') :: r =>
      if jstr_eqb k k' then (k', v) :: r else (k', v') :: obj_set k v r
  end.

(** *** Tokens *)

Inductive token : Type :=
| TLBrace | TRBrace | TLBracket | TRBracket | TColon | TComma
| TString (u : jstr)
| TNumber (m e : Z)
| TTrue | TFalse | TNull.

Definition is_json_ws (c : ascii) : bool :=
  let n := nat_of_ascii c in
  ((n =? 9) || (n =? 10) || (n =? 13) || (n =? 32))%nat.

Definition digit_of (c : ascii) : option nat :=
  let n := nat_of_ascii c in
  if ((48 <=? n) && (n <=? 57))%nat then Some (n - 48) else None.

Definition hex_of (c : ascii) : option N :=
  let n := nat_of_ascii c in
  if ((48 <=? n) && (n <=? 57))%nat then Some (N.of_nat (n - 48))
  else if ((65 <=? n) && (n <=? 70))%nat then Some (N.of_nat (n - 55))
  else if ((97 <=? n) && (n <=? 102))%nat then Some (N.of_nat (n - 87))
  else None.

(** The characters a number lexeme is made of. *)
Definition is_number_char (c : ascii) : bool :=
  match digit_of c with
  | Some _ => true
  | None =>
      Ascii.eqb c "+" || Ascii.eqb c "-" || Ascii.eqb c "."
      || Ascii.eqb c "e" || Ascii.eqb c "E"
  end.

Fixpoint take_digits (s : string) : list nat * string :=
  match s with
  | String c r =>
      match digit_of c with
      | Some d => let (ds, r') := take_digits r in (d :: ds, r')
      | None => ([], s)
      end
  | EmptyString => ([], s)
  end.

Definition Z_of_digits (ds : list nat) : Z :=
  fold_left (fun acc d => (10 * acc + Z.of_nat d)%Z) ds 0%Z.

Fixpoint drop_zeros (ds : list nat) : nat * list nat :=
  match ds with
  | 0 :: r => let (n, r') := drop_zeros r in (S n, r')
  | _ => (0, ds)
  end.

(** The decimal value of the digits [ds] scaled by [10^e], in normal form. *)
Definition normalise (neg : bool) (ds : list nat) (e : Z) : Z * Z :=
  let (z, kept) := drop_zeros (rev ds) in
  let m := Z_of_digits (rev kept) in
  if (m =? 0)%Z then (0%Z, 0%Z)
  else ((if neg then - m else m)%Z, (e + Z.of_nat z)%Z).

(** The exponent part [[eE][+-]?[0-9]+] or nothing, up to the end. *)
Definition exponent_of (s : string) : option Z :=
  match s with
  | EmptyString => Some 0%Z
  | String c r =>
      if Ascii.eqb c "e" || Ascii.eqb c "E" then
        let '(neg, r1) :=
          match r with
          | String sg r' =>
              if Ascii.eqb sg "-" then (true, r')
              else if Ascii.eqb sg "+" then (false, r')
              else (false, r)
          | EmptyString => (false, r)
          end in
        match take_digits r1 with
        | ([], _) => None
        | (ds, EmptyString) =>
            Some (if neg then - Z_of_digits ds else Z_of_digits ds)%Z
        | (_, String _ _) => None
        end
      else None
  end.

(** The JSON number grammar applied to a whole lexeme: an optional
    minus sign; an integer part, one zero or digits not starting with
    zero; an optional fraction, a dot and one digit or more; an optional
    exponent. *)
Definition number_of_lexeme (s : string) : option (Z * Z) :=
  let '(neg, s1) :=
    match s with
    | String c r => if Ascii.eqb c "-" then (true, r) else (false, s)
    | EmptyString => (false, s)
    end in
  match take_digits s1 with
  | ([], _) => None
  | (0 :: _ :: _, _) => None
  | (ip, s2) =>
      let frac :=
        match s2 with
        | String c r =>
            if Ascii.eqb c "." then
              match take_digits r with
              | ([], _) => None
              | (fp, s3) => Some (fp, s3)
              end
            else Some ([], s2)
        | EmptyString => Some ([], s2)
        end in
      match frac with
      | None => None
      | Some (fp, s3) =>
          match exponent_of s3 with
          | None => None
          | Some ex =>
              Some (normalise neg (ip ++ fp)%list (ex - Z.of_nat (List.length fp))%Z)
          end
      end
  end.

(** *** The lexer, one character at a time *)

Inductive mode : Type :=
| Idle
| InStr (acc : jstr)
| InEsc (acc : jstr)
| InHex (acc : jstr) (todo : nat) (v : N)
| InNum (lexeme : string)
| InLit (rest : string) (t : token).

Definition idle_step (c : ascii) : option (list token * mode) :=
  if is_json_ws c then Some ([], Idle)
  else if Ascii.eqb c "{" then Some ([TLBrace], Idle)
  else if Ascii.eqb c "}" then Some ([TRBrace], Idle)
  else if Ascii.eqb c "[" then Some ([TLBracket], Idle)
  else if Ascii.eqb c "]" then Some ([TRBracket], Idle)
  else if Ascii.eqb c ":" then Some ([TColon], Idle)
  else if Ascii.eqb c "," then Some ([TComma], Idle)
  else if Ascii.eqb c "034" then Some ([], InStr [])
  else if Ascii.eqb c "t" then Some ([], InLit "rue" TTrue)
  else if Ascii.eqb c "f" then Some ([], InLit "alse" TFalse)
  else if Ascii.eqb c "n" then Some ([], InLit "ull" TNull)
  else if Ascii.eqb c "-" then Some ([], InNum (String c EmptyString))
  else match digit_of c with
       | Some _ => Some ([], InNum (String c EmptyString))
       | None => None
       end.

Definition escape_of (c : ascii) : option N :=
  if Ascii.eqb c "034" then Some 34%N
  else if Ascii.eqb c "\" then Some 92%N
  else if Ascii.eqb c "/" then Some 47%N
  else if Ascii.eqb c "b" then Some 8%N
  else if Ascii.eqb c "f" then Some 12%N
  else if Ascii.eqb c "n" then Some 10%N
  else if Ascii.eqb c "r" then Some 13%N
  else if Ascii.eqb c "t" then Some 9%N
  else None.

Definition number_token (lexeme : string) : option token :=
  match number_of_lexeme lexeme with
  | Some (m, e) => Some (TNumber m e)
  | None => None
  end.

Definition lex_step (m : mode) (c : ascii) : option (list token * mode) :=
  match m with
  | Idle => idle_step c
  | InStr acc =>
      if Ascii.eqb c "034" then Some ([TString (rev acc)], Idle)
      else if Ascii.eqb c "\" then Some ([], InEsc acc)
      else if (nat_of_ascii c <? 32)%nat then None
      else Some ([], InStr (N_of_ascii c :: acc))
  | InEsc acc =>
      if Ascii.eqb c "u" then Some ([], InHex acc 4 0%N)
      else match escape_of c with
           | Some u => Some ([], InStr (u :: acc))
           | None => None
           end
  | InHex acc todo v =>
      match hex_of c with
      | Some d =>
          let v' := (16 * v + d)%N in
          match todo with
          | S (S l) => Some ([], InHex acc (S l) v')
          | _ => Some ([], InStr (v' :: acc))
          end
      | None => None
      end
  | InNum lexeme =>
      if is_number_char c then Some ([], InNum (lexeme ++ String c EmptyString))
      else
        match number_token lexeme, idle_step c with
        | Some t, Some (ts, m') => Some (t :: ts, m')
        | _, _ => None
        end
  | InLit rest t =>
      match rest with
      | String e rest' =>
          if Ascii.eqb c e then
            match rest' with
            | EmptyString => Some ([t], Idle)
            | _ => Some ([], InLit rest' t)
            end
          else None
      | EmptyString => None
      end
  end.

(** What is left to emit when the text ends in mode [m]. *)
Definition lex_end (m : mode) : option (list token) :=
  match m with
  | Idle => Some []
  | InNum lexeme =>
      match number_token lexeme with
      | Some t => Some [t]
      | None => None
      end
  | _ => None
  end.

Fixpoint lex (m : mode) (s : string) : option (list token) :=
  match s with
  | EmptyString => lex_end m
  | String c r =>
      match lex_step m c with
      | Some (ts, m') =>
          match lex m' r with
          | Some ts' => Some (ts ++ ts')%list
          | None => None
          end
      | None => None
      end
  end.

(** *** The parser, one token at a time *)

Inductive frame : Type :=
| FArr (rev_elems : list json)
| FObj (members : list (jstr * json)) (pending : option jstr).

Inductive expect : Type :=
| EValue | EValueOrClose | EKeyOrClose | EKey | EColon | ECommaOrClose
| EDone (v : json).

Definition pstate : Type := list frame * expect.

(** A value is complete: it is the result, or goes into the open
    container.  A repeated key overwrites, as in the engine. *)
Definition push_value (v : json) (st : list frame) : option pstate :=
  match st with
  | [] => Some ([], EDone v)
  | FArr es :: st' => Some (FArr (v :: es) :: st', ECommaOrClose)
  | FObj ms (Some k) :: st' =>
      Some (FObj (obj_set k v ms) None :: st', ECommaOrClose)
  | FObj _ None :: _ => None
  end.

Definition wants_value (ex : expect) : bool :=
  match ex with EValue | EValueOrClose => true | _ => false end.

Definition parse_step (ps : pstate) (t : token) : option pstate :=
  let (st, ex) := ps in
  match t with
  | TLBrace =>
      if wants_value ex then Some (FObj [] None :: st, EKeyOrClose) else None
  | TLBracket =>
      if wants_value ex then Some (FArr [] :: st, EValueOrClose) else None
  | TNumber m e => if wants_value ex then push_value (JNumber m e) st else None
  | TTrue => if wants_value ex then push_value (JBool true) st else None
  | TFalse => if wants_value ex then push_value (JBool false) st else None
  | TNull => if wants_value ex then push_value JNull st else None
  | TString u =>
      match ex, st with
      | (EValue | EValueOrClose), _ => push_value (JString u) st
      | (EKeyOrClose | EKey), FObj ms None :: st' =>
          Some (FObj ms (Some u) :: st', EColon)
      | _, _ => None
      end
  | TRBracket =>
      match ex, st with
      | (EValueOrClose | ECommaOrClose), FArr es :: st' =>
          push_value (JArray (rev es)) st'
      | _, _ => None
      end
  | TRBrace =>
      match ex, st with
      | (EKeyOrClose | ECommaOrClose), FObj ms None :: st' =>
          push_value (JObject ms) st'
      | _, _ => None
      end
  | TColon =>
      match ex with
      | EColon => Some (st, EValue)
      | _ => None
      end
  | TComma =>
      match ex, st with
      | ECommaOrClose, FArr _ :: _ => Some (st, EValue)
      | ECommaOrClose, FObj _ None :: _ => Some (st, EKey)
      | _, _ => None
      end
  end.

Fixpoint parse_tokens (ps : pstate) (ts : list token) : option json :=
  match ts with
  | [] =>
      match ps with
      | ([], EDone v) => Some v
      | _ => None
      end
  | t :: r =>
      match parse_step ps t with
      | Some ps' => parse_tokens ps' r
      | None => None
      end
  end.

(** [JSON.parse(text)]; [None] is a [SyntaxError]. *)
Definition parse (text : string) : option json :=
  match lex Idle text with
  | Some ts => parse_tokens ([], EValue) ts
  | None => None
  end.

(** ToBoolean on a parsed value. *)
Definition truthy (v : json) : bool :=
  match v with
  | JNull => false
  | JBool b => b
  | JNumber m _ => negb (m =? 0)%Z
  | JString u => match u with [] => false | _ => true end
  | JArray _ | JObject _ => true
  end.

End Json.


(** ** The service *)

Module GeminiService.
Import JsString Json.

(** The double quote, and texts written line by line. *)
Definition dq : string := String "034" EmptyString.
Definition nl : string := String "010" EmptyString.

Fixpoint unlines (ls : list string) : string :=
  match ls with
  | [] => EmptyString
  | [l] => l
  | l :: r => l ++ nl ++ unlines r
  end.

(** A non-negative integer in a template literal. *)
Definition string_of_nat (n : nat) : string :=
  NilEmpty.string_of_uint (Nat.to_uint n).

(** *** Errors and results *)

(** What the service throws: [new Error(message)], or a [TypeError]
    raised by the engine when a property of [undefined] or [null] is
    read (its message is engine-specific and the service never reads
    it). *)
Inductive JsError : Type :=
| Error (message : string)
| TypeError.

Inductive Result (A : Type) : Type :=
| Ok (a : A)
| Err (e : JsError).
Arguments Ok {A} a.
Arguments Err {A} e.

(** *** The generative-model client *)

(** A part of a request or of a response: inline data or text. *)
Inductive Part : Type :=
| InlineData (mimeType data : string)
| Text (text : string).

#[warnings="-register-all"]
Inductive Schema : Type :=
| SString
| SEnum (values : list string)
| SNumber
| SArray (items : Schema)
| SObject (properties : list (string * Schema)) (required : list string).

Record Config : Type := mkConfig {
  systemInstruction : string;
  maxOutputTokens : N;
  thinkingBudget : N;
  responseMimeType : string;
  responseSchema : Schema
}.

Record Request : Type := mkRequest {
  model : string;
  contents : list Part;
  config : option Config
}.

Record Content : Type := mkContent { parts : option (list Part) }.
Record Candidate : Type := mkCandidate { content : option Content }.

(** A response: the candidates, and the [text] accessor of the client
    library ([None] is [undefined]). *)
Record Response : Type := mkResponse {
  candidates : option (list Candidate);
  text : option string
}.

(** How [ai.models.generateContent] settles: it resolves with a
    response or rejects with an [Error] carrying a message. *)
Inductive Outcome : Type :=
| Resolved (response : Response)
| Rejected (message : string).

(** *** Progress events *)

Record ProgressEvent : Type := mkEvent {
  stageId : nat;
  logs : list string;
  sceneConfig : option json
}.

Record ReferenceImages : Type := mkImages {
  front : string;
  back : string;
  left : string;
  right : string
}.

(** *** Asynchronous code

    An async function or async generator is the tree of what it awaits
    and yields: console output is left out. *)
Inductive Prog (A : Type) : Type :=
| Ret (a : A)
| Throw (e : JsError)
| GenerateContent (req : Request) (k : Outcome -> Prog A)
| Delay (ms : nat) (k : Prog A)
| Yield (ev : ProgressEvent) (k : Prog A).
Arguments Ret {A} a.
Arguments Throw {A} e.
Arguments GenerateContent {A} req k.
Arguments Delay {A} ms k.
Arguments Yield {A} ev k.

(** *** Constants *)

Definition SYSTEM_INSTRUCTION : string :=
  unlines
    [ "";
      "You are an expert 3D Geometric Modeler specializing in **High-Fidelity Blockouts** and **Voxel Approximation**.";
      "Your task is to reconstruct complex 2D reference images into a 3D Scene using **MANY** basic geometric primitives.";
      "";
      "### CRITICAL MODELING STRATEGY: **DENSITY & CLUSTERING**";
      "1. **DO NOT** use single large shapes to represent complex parts.";
      "   - *BAD*: 1 large cylinder for an arm.";
      "   - *GOOD*: 6 overlapping spheres/cylinders of varying sizes to sculpt the arm's muscle definition.";
      "2. **VOXELIZATION**: Think of this as sculpting with clay or assembling a high-res Lego model. Use small shapes to smooth out curves.";
      "3. **GREEBLING**: Add small boxes/cones to surface areas to represent mechanical details, texture, or features seen in the image.";
      "4. **QUANTITY**: You should aim to generate **30 to 60 shapes** to capture the silhouette properly.";
      "";
      "### SPATIAL RULES:";
      "1. **Global Origin (0,0,0)**: Center the mass at (0,0,0).";
      "2. **Ground Plane (Y=0)**: The object must rest ON the floor.";
      "3. **Symmetry**: If organic/mechanical, enforce strict X-axis symmetry.";
      "4. **Connectivity**: Shapes MUST intersect. No floating parts.";
      "";
      "### SHAPE PALETTE:";
      "- **BOX**: Hard surface, armor, buildings.";
      "- **SPHERE**: Muscles, joints, organic volumes, heads.";
      "- **CYLINDER**: Limbs, wheels, barrels.";
      "- **CONE**: Spikes, noses, aerodynamic tips.";
      "- **SCALE**: Use non-uniform scaling (e.g., [1, 0.2, 1]) to create plates, discs, and planks.";
      "";
      "### OUTPUT:";
      "Return ONLY valid JSON. Ensure strictly standard JSON formatting.";
      "" ].

Definition IMAGE_STYLE_PROMPT : string :=
  "high-quality 3D render, photorealistic asset, detailed textures and materials, soft studio lighting, even illumination, clean solid white background, isolated subject, single view only, no split screen, no collage, no composite image, centered full shot, neutral camera angle, entire object visible, consistent camera distance, fixed focal length".

(** *** generateSingleView *)

(** ToBoolean on an optional string argument. *)
Definition provided (referenceImage : option string) : option string :=
  match referenceImage with
  | Some EmptyString | None => None
  | Some data => Some data
  end.

Definition fullPrompt (prompt view : string) (referenceImage : option string)
  : string :=
  match provided referenceImage with
  | Some _ =>
  unlines
    [ "";
      "    Generate the " ++ view ++ " of the EXACT SAME object shown in the provided reference image.";
      "    ";
      "    CRITICAL CONSISTENCY RULES:";
      "    1. **Fixed Camera Distance**: You MUST use the same camera distance as the reference image. The object scale relative to the frame boundaries must be consistent.";
      "    2. **No Auto-Zoom**: Do not zoom in to fill the empty space. Do not zoom out.";
      "    3. **Alignment**: The object should be centered.";
      "    4. **Identity**: Colors, geometry, materials, and details must be identical.";
      "    5. **Background**: Pure white background.";
      "    6. **Single View Only**: The image MUST contain ONLY the " ++ view ++ ". Do not generate a character sheet, split screen, or multiple angles. ONE object, ONE angle.";
      "    ";
      "    This is the " ++ view ++ " of the object. " ++ IMAGE_STYLE_PROMPT ]
  | None =>
  unlines
    [ "";
      "    Generate a single " ++ view ++ " of " ++ prompt ++ ".";
      "    ";
      "    CRITICAL RULES:";
      "    1. **Single View Only**: Generate EXACTLY ONE view. Do not create a character sheet, split screen, or show multiple angles (e.g. no side-by-side views).";
      "    2. **Composition**: The object must be isolated and centered on a white background.";
      "    ";
      "    " ++ IMAGE_STYLE_PROMPT ]
  end.

Definition view_parts (prompt view : string) (referenceImage : option string)
  : list Part :=
  (match provided referenceImage with
   | Some data => [InlineData "image/png" data]
   | None => []
   end ++ [Text (fullPrompt prompt view referenceImage)])%list.

Definition view_request (prompt view : string)
  (referenceImage : option string) : Request :=
  mkRequest "gemini-2.5-flash-image"
            (view_parts prompt view referenceImage) None.

(** The first part with non-empty inline data. *)
Fixpoint first_inline_data (ps : list Part) : option string :=
  match ps with
  | [] => None
  | InlineData _ (String _ _ as data) :: _ => Some data
  | _ :: r => first_inline_data r
  end.

Definition image_of (response : Response) : option string :=
  match candidates response with
  | Some (c :: _) =>
      match content c with
      | Some ct =>
          match parts ct with
          | Some ps => first_inline_data ps
          | None => None
          end
      | None => None
      end
  | _ => None
  end.

Definition waitTime (attempt : nat) : nat := 1000 * 2 ^ (attempt - 1).

(** The loop [for (attempt = 1; attempt <= retries; attempt++)], with
    [todo = retries + 1 - attempt] iterations still to run. *)
Fixpoint attempt_loop (prompt view : string) (referenceImage : option string)
  (retries todo attempt : nat) (lastError : option string) : Prog string :=
  match todo with
  | 0 =>
      let lastMessage :=
        match lastError with Some m => m | None => "undefined" end in
      Throw (Error ("Failed to generate " ++ view ++ " after " ++ string_of_nat retries ++ " attempts. Last error: " ++ lastMessage))
  | S todo' =>
      let caught (error : string) : Prog string :=
        let next :=
          attempt_loop prompt view referenceImage retries todo' (S attempt)
            (Some error) in
        if Nat.ltb attempt retries then Delay (waitTime attempt) next
        else next in
      GenerateContent (view_request prompt view referenceImage)
        (fun o =>
           match o with
           | Resolved response =>
               match image_of response with
               | Some data => Ret data
               | None => caught ("Model returned no image data for " ++ view)
               end
           | Rejected message => caught message
           end)
  end.

Definition generateSingleView (prompt view : string)
  (referenceImage : option string) (retries : nat) : Prog string :=
  attempt_loop prompt view referenceImage retries retries 1 None.

Definition default_retries : nat := 3.

(** *** generateReferenceImages

    The front view is awaited alone, then [delay(200)], then
    [Promise.all] over the three other views.  The three tasks run
    concurrently: the builder is a state of the event loop, and one step
    delivers the completion (response or timer) one task is waiting for.
    A task is the [Prog] it still has to run; its head is the operation
    in flight. *)

Definition views_front : string := "Front view".
Definition views_back : string := "Back view".
Definition views_left : string := "Left side profile view".
Definition views_right : string := "Right side profile view".

Inductive Label : Type :=
| LRequest (view : string) (req : Request)
| LSettle (view : string) (o : Outcome)
| LDelay (ms : nat)
| LReturn (images : ReferenceImages)
| LThrow (e : JsError).

(** What a task does on reaching its next await. *)
Definition announce (view : string) (t : Prog string) : list Label :=
  match t with
  | GenerateContent req _ => [LRequest view req]
  | Delay ms _ => [LDelay ms]
  | _ => []
  end.

(** The operation at the head of [t] completes, with [o] if it is a
    request; the task runs on to its next await. *)
Definition resume (view : string) (t : Prog string) (o : Outcome)
  : Prog string * list Label :=
  match t with
  | GenerateContent _ k => (k o, LSettle view o :: announce view (k o))
  | Delay _ k => (k, announce view k)
  | Yield _ k => (k, announce view k)
  | Ret _ | Throw _ => (t, [])
  end.

Definition tasks := list (string * Prog string).

Inductive Builder : Type :=
| AwaitFront (t : Prog string)
| AwaitPause (front : string)
| AwaitAll (front : string) (ts : tasks)
| Finished (r : Result ReferenceImages) (ts : tasks).

Fixpoint first_thrown (ts : tasks) : option JsError :=
  match ts with
  | [] => None
  | (_, Throw e) :: _ => Some e
  | _ :: r => first_thrown r
  end.

Fixpoint all_returned (ts : tasks) : option (list string) :=
  match ts with
  | [] => Some []
  | (_, Ret d) :: r =>
      match all_returned r with
      | Some ds => Some (d :: ds)
      | None => None
      end
  | _ :: _ => None
  end.

(** [await Promise.all(...)]: rejected as soon as one task has thrown
    (the [catch] of the builder rethrows the error), fulfilled once all
    have returned. *)
Definition join (front : string) (ts : tasks) : Builder * list Label :=
  match first_thrown ts with
  | Some e => (Finished (Err e) ts, [LThrow e])
  | None =>
      match all_returned ts with
      | Some [back; left; right] =>
          let images := mkImages front back left right in
          (Finished (Ok images) ts, [LReturn images])
      | _ => (AwaitAll front ts, [])
      end
  end.

Fixpoint resume_nth (i : nat) (o : Outcome) (ts : tasks)
  : tasks * list Label :=
  match ts, i with
  | [], _ => ([], [])
  | (view, t) :: r, 0 =>
      let (t', ls) := resume view t o in ((view, t') :: r, ls)
  | vt :: r, S i' =>
      let (r', ls) := resume_nth i' o r in (vt :: r', ls)
  end.

Definition conditioned (prompt front : string) : tasks :=
  [ (views_back,
     generateSingleView prompt views_back (Some front) default_retries);
    (views_left,
     generateSingleView prompt views_left (Some front) default_retries);
    (views_right,
     generateSingleView prompt views_right (Some front) default_retries) ].

Definition announce_all (ts : tasks) : list Label :=
  flat_map (fun vt => announce (fst vt) (snd vt)) ts.

(** One turn of the event loop: the completion of the operation task
    [i] waits for.  While the builder awaits the front view or the pause
    there is one thing in flight and [i] is not looked at. *)
Definition step (prompt : string) (b : Builder) (i : nat) (o : Outcome)
  : Builder * list Label :=
  match b with
  | AwaitFront t =>
      let (t', ls) := resume views_front t o in
      match t' with
      | Ret front => (AwaitPause front, ls ++ [LDelay 200])%list
      | Throw e => (Finished (Err e) [], ls ++ [LThrow e])%list
      | _ => (AwaitFront t', ls)
      end
  | AwaitPause front =>
      let ts := conditioned prompt front in
      let (b', ls) := join front ts in
      (b', announce_all ts ++ ls)%list
  | AwaitAll front ts =>
      let (ts', ls) := resume_nth i o ts in
      let (b', ls') := join front ts' in
      (b', ls ++ ls')%list
  | Finished r ts =>
      let (ts', ls) := resume_nth i o ts in (Finished r ts', ls)
  end.

Fixpoint steps (prompt : string) (b : Builder)
  (schedule : list (nat * Outcome)) : Builder * list Label :=
  match schedule with
  | [] => (b, [])
  | (i, o) :: r =>
      let (b', ls) := step prompt b i o in
      let (b'', ls') := steps prompt b' r in
      (b'', ls ++ ls')%list
  end.

(** The call [generateReferenceImages(prompt)] followed by the
    completions of [schedule]: the state reached and what was observed. *)
Definition generateReferenceImages (prompt : string)
  (schedule : list (nat * Outcome)) : Builder * list Label :=
  let t := generateSingleView prompt views_front None default_retries in
  let (b, ls) := steps prompt (AwaitFront t) schedule in
  (b, announce views_front t ++ ls)%list.

(** *** cleanAndParseJSON *)

Definition unrecoverable : JsError :=
  Error "Failed to parse geometric data. The generation may have been interrupted or malformed.".

(** The text the three attempts start from: fences removed, trimmed,
    cut at the first opening brace. *)
Definition cleanText (text : string) : string :=
  let cleanText := trim (replace_all re_fence "" text) in
  match indexOf "{" cleanText with
  | Some firstBrace => substring_from firstBrace cleanText
  | None => cleanText
  end.

Definition repairedText (cleanText : string) : string :=
  replace_all (re_gap "," "]") "]"
    (replace_all (re_gap "," "}") "}"
       (replace_all (re_gap "}" "{") "}, {" cleanText)).

(** The text of the third attempt, when there is a closing brace. *)
Definition closedText (repairedText : string) : option string :=
  match lastIndexOf "}" repairedText with
  | Some lastClosingBrace =>
      let truncatedText := substring_to (lastClosingBrace + 1) repairedText in
      let openBraces := count_char "{" truncatedText in
      let closeBraces := count_char "}" truncatedText in
      let openBrackets := count_char "[" truncatedText in
      let closeBrackets := count_char "]" truncatedText in
      let suffix :=
        repeat_char "]" (openBrackets - closeBrackets)
        ++ repeat_char "}" (openBraces - closeBraces) in
      Some (truncatedText ++ suffix)
  | None => None
  end.

Definition cleanAndParseJSON (text : string) : Result json :=
  let cleanText := cleanText text in
  match parse cleanText with
  | Some v => Ok v
  | None =>
      let repairedText := repairedText cleanText in
      match parse repairedText with
      | Some v => Ok v
      | None =>
          match closedText repairedText with
          | Some closed =>
              match parse closed with
              | Some v => Ok v
              | None => Err unrecoverable
              end
          | None => Err unrecoverable
          end
      end
  end.

(** *** generateSceneWorkflow *)

Definition analysisPrompt (prompt : string) : string :=
  unlines
    [ "Analyze these 4 views of a '" ++ prompt ++ "'. Provide a technical breakdown for a 3D artist.";
      "  ";
      "  MANDATORY REQUIREMENTS:";
      "  1. Main geometric shapes & structure.";
      "  2. Key materials & surface properties.";
      "  3. Estimated Polygon Count: You MUST specify a requirement of " ++ dq ++ "at least 100,000 polygons" ++ dq ++ " (100k+) for high fidelity.";
      "  4. Optimal Topology: Evaluate Triangle vs Quad. You MUST recommend " ++ dq ++ "Quad-dominant" ++ dq ++ " topology for subdivision smoothing.";
      "  ";
      "  Format as a concise technical report." ].

Definition analysis_fallback : string :=
  "Visual analysis completed successfully. Requirement: 100k Polys, Quad-dominant Topology.".

Definition analysis_request (prompt : string) (referenceImages : ReferenceImages)
  : Request :=
  mkRequest "gemini-2.5-flash"
    [ InlineData "image/png" (front referenceImages);
      Text (analysisPrompt prompt) ]
    None.

(** [analysisResponse.text || "Analysis complete."], or the fallback of
    the [catch]. *)
Definition analysisText_of (o : Outcome) : string :=
  match o with
  | Resolved response =>
      match text response with
      | Some (String _ _ as t) => t
      | _ => "Analysis complete."
      end
  | Rejected _ => analysis_fallback
  end.

Definition model_text (prompt analysisText : string) : string :=
  unlines
    [ "Reconstruct the object '" ++ prompt ++ "' using a HIGH DENSITY of primitive shapes to approximate the reference images.";
      "    ";
      "    PRE-PRODUCTION ANALYSIS CONTEXT: ";
      "    " ++ analysisText;
      "    ";
      "    STRICT MODELING CONSTRAINTS:";
      "    1. **High Fidelity Blockout**: The analysis requested 100k+ polygons. Since we are using primitives, you must simulate this by using **MANY small shapes** (Cluster/Voxel approach) instead of few large ones.";
      "    2. **Silhouette Accuracy**: Use multiple spheres/cylinders to capture curves. Do not use a single block for a complex torso.";
      "    3. **Detailing**: Add smaller shapes for eyes, handles, buttons, or textures (Greebling).";
      "    4. **Count**: Generate at least 30-50 individual shapes to properly define the volume.";
      "    5. **Colors**: Sample the dominant colors from the reference images for each part.";
      "    6. **Format**: VALID JSON ONLY. Ensure commas between all array items.";
      "    ";
      "    Return the SceneConfig JSON with 'shapes' array.";
      "    " ].

Definition ShapeType_values : list string :=
  ["BOX"; "SPHERE"; "CYLINDER"; "CONE"; "TORUS"; "DODECAHEDRON";
   "ICOSAHEDRON"].

Definition responseSchema_scene : Schema :=
  SObject
    [ ("backgroundColor", SString);
      ("ambientLightColor", SString);
      ("ambientLightIntensity", SNumber);
      ("shapes",
       SArray
         (SObject
            [ ("id", SString);
              ("type", SEnum ShapeType_values);
              ("position", SArray SNumber);
              ("rotation", SArray SNumber);
              ("scale", SArray SNumber);
              ("color", SString);
              ("metalness", SNumber);
              ("roughness", SNumber);
              ("opacity", SNumber) ]
            ["id"; "type"; "position"; "rotation"; "scale"; "color"])) ]
    ["backgroundColor"; "shapes"].

Definition model_request (prompt : string) (referenceImages : ReferenceImages)
  (analysisText : string) : Request :=
  mkRequest "gemini-2.5-flash"
    [ InlineData "image/png" (front referenceImages);
      Text "Front View Reference";
      InlineData "image/png" (left referenceImages);
      Text "Side View Reference";
      Text (model_text prompt analysisText) ]
    (Some (mkConfig SYSTEM_INSTRUCTION 8192%N 1024%N "application/json"
             responseSchema_scene)).

Definition key_shapes : jstr := units "shapes".
Definition key_length : jstr := units "length".
Definition key_ambientLightIntensity : jstr := units "ambientLightIntensity".
Definition key_backgroundColor : jstr := units "backgroundColor".
Definition key_ambientLightColor : jstr := units "ambientLightColor".

(** The number literal [0.7]. *)
Definition brighter : json := JNumber 7 (-1).

Section Workflow.

(** The conversion of a value to a string in a template literal, [None]
    when it throws: an object whose own [toString] and [valueOf] give no
    primitive cannot be converted, and the engine raises a [TypeError].
    It is only reached when [shapes] is an object with a member
    [length]. *)
Variable ToString : json -> option string.

(** The text of [sceneData.shapes.length] in the template literal, or
    the [TypeError] of reading a property of [undefined] or [null], or of
    a [length] that cannot be converted to a string. *)
Definition shapes_length (sceneData : json) : Result string :=
  match sceneData with
  | JObject members =>
      match obj_get key_shapes members with
      | Some (JArray elems) => Ok (string_of_nat (List.length elems))
      | Some (JString u) => Ok (string_of_nat (List.length u))
      | Some (JObject ms) =>
          match obj_get key_length ms with
          | Some v =>
              match ToString v with
              | Some s => Ok s
              | None => Err TypeError
              end
          | None => Ok "undefined"
          end
      | Some (JNumber _ _) | Some (JBool _) => Ok "undefined"
      | Some JNull | None => Err TypeError
      end
  | _ => Err TypeError
  end.

(** [{ ...sceneData }] then [ambientLightIntensity = 0.7].  Only an
    object gets here: for any other value [shapes_length] has thrown. *)
Definition finalSceneData (sceneData : json) : json :=
  match sceneData with
  | JObject members =>
      JObject (obj_set key_ambientLightIntensity brighter members)
  | _ => JObject [(key_ambientLightIntensity, brighter)]
  end.

Definition stage1_start : ProgressEvent :=
  mkEvent 1
    [ "Initializing visual cortex...";
      "Loading reference images into context..." ]
    None.

Definition stage1_done : ProgressEvent :=
  mkEvent 1
    [ "Visual decomposition complete.";
      "Analysis Result: Recommended Poly Count > 100k";
      "Analysis Result: Topology = Quad-dominant (Subdivision Ready)";
      "Material classification done." ]
    None.

Definition stage2_start : ProgressEvent :=
  mkEvent 2
    [ "Converting 100k+ poly target to Voxel Grid...";
      "Initializing high-density primitive clustering...";
      "Approximating Quad-topology with micro-structures...";
      "Sculpting primary volumes..." ]
    None.

Definition stage2_done (n : string) (sceneData : json) : ProgressEvent :=
  mkEvent 2
    [ "Generated " ++ n ++ " geometric clusters (Simulated High-Poly).";
      "Topology Optimization: Voxel Approximation applied.";
      "Silhouette matched to reference." ]
    (Some sceneData).

Definition stage3_start : ProgressEvent :=
  mkEvent 3
    [ "Unwrapping UVs..."; "Generating material maps...";
      "Applying PBR surface details..." ]
    None.

Definition stage3_done (sceneData : json) : ProgressEvent :=
  mkEvent 3
    [ "Baking ambient occlusion...";
      "Applying roughness & metalness maps...";
      "Texture compilation complete." ]
    (Some sceneData).

Definition stage4_start : ProgressEvent :=
  mkEvent 4
    [ "Setting up virtual studio...";
      "Calculating global illumination...";
      "Finalizing render pass..." ]
    None.

Definition stage4_done (finalSceneData : json) : ProgressEvent :=
  mkEvent 4
    [ "Post-processing complete."; "Render finished." ]
    (Some finalSceneData).

(** Stages 2 to 4 once the model request has settled. *)
Definition after_model (o : Outcome) : Prog unit :=
  match o with
  | Rejected message => Throw (Error message)
  | Resolved modelResponse =>
      match
        match text modelResponse with
        | Some t => cleanAndParseJSON t
        | None => Err TypeError
        end
      with
      | Err e => Throw e
      | Ok sceneData =>
          match shapes_length sceneData with
          | Err e => Throw e
          | Ok n =>
              Yield (stage2_done n sceneData)
                (Delay 800
                   (Yield stage3_start
                      (Delay 1200
                         (Yield (stage3_done sceneData)
                            (Delay 800
                               (Yield stage4_start
                                  (Delay 1000
                                     (Yield
                                        (stage4_done
                                           (finalSceneData sceneData))
                                        (Ret tt)))))))))
          end
      end
  end.

Definition generateSceneWorkflow (prompt : string)
  (referenceImages : ReferenceImages) : Prog unit :=
  Yield stage1_start
    (Delay 800
       (GenerateContent (analysis_request prompt referenceImages)
          (fun o =>
             let analysisText := analysisText_of o in
             Yield stage1_done
               (Delay 500
                  (Yield stage2_start
                     (GenerateContent
                        (model_request prompt referenceImages analysisText)
                        after_model)))))).

(** *** generateSceneFromPrompt *)

(** The loop [for await (const update of ...)] keeping the last truthy
    [sceneConfig], and what follows it. *)
Fixpoint collect (workflow : Prog unit) (finalConfig : option json)
  : Prog json :=
  match workflow with
  | Ret _ =>
      match finalConfig with
      | Some c => Ret c
      | None => Throw (Error "Failed to generate scene")
      end
  | Throw e => Throw e
  | GenerateContent req k =>
      GenerateContent req (fun o => collect (k o) finalConfig)
  | Delay ms k => Delay ms (collect k finalConfig)
  | Yield update k =>
      collect k
        match sceneConfig update with
        | Some c => if truthy c then Some c else finalConfig
        | None => finalConfig
        end
  end.

Definition generateSceneFromPrompt (prompt : string)
  (referenceImages : option ReferenceImages) : Prog json :=
  match referenceImages with
  | None => Throw (Error "Reference images required")
  | Some images => collect (generateSceneWorkflow prompt images) None
  end.

End Workflow.

(** *** Running asynchronous code alone

    The environment gives the outcome of the [n]-th request; a run is
    what was observed, in order, and how the code settled. *)
Definition Env : Type := nat -> Request -> Outcome.

Inductive Action : Type :=
| Emit (ev : ProgressEvent)
| Sleep (ms : nat)
| Call (req : Request) (o : Outcome).

Fixpoint run {A : Type} (env : Env) (n : nat) (p : Prog A)
  : list Action * Result A :=
  match p with
  | Ret a => ([], Ok a)
  | Throw e => ([], Err e)
  | GenerateContent req k =>
      let o := env n req in
      let (tr, r) := run env (S n) (k o) in
      (Call req o :: tr, r)
  | Delay ms k =>
      let (tr, r) := run env n k in (Sleep ms :: tr, r)
  | Yield ev k =>
      let (tr, r) := run env n k in (Emit ev :: tr, r)
  end.

(** The progress events of a run. *)
Fixpoint events (tr : list Action) : list ProgressEvent :=
  match tr with
  | [] => []
  | Emit ev :: r => ev :: events r
  | _ :: r => events r
  end.

(** The requests of a run. *)
Fixpoint requests (tr : list Action) : list Request :=
  match tr with
  | [] => []
  | Call req _ :: r => req :: requests r
  | _ :: r => requests r
  end.

(** The delays of a run. *)
Fixpoint sleeps (tr : list Action) : list nat :=
  match tr with
  | [] => []
  | Sleep ms :: r => ms :: sleeps r
  | _ :: r => sleeps r
  end.

End GeminiService.

(** ** The image panel

    [components/ImagePanel.tsx]: the view shown in the overlay, and how
    the keyboard moves it. *)

Module ImagePanel.

(** The keys ['front'], ['left'], ['right'] and ['back'] of a reference
    set. *)
Inductive ViewKey : Type := KFront | KLeft | KRight | KBack.

Definition ViewKey_eqb (a b : ViewKey) : bool :=
  match a, b with
  | KFront, KFront | KLeft, KLeft | KRight, KRight | KBack, KBack => true
  | _, _ => false
  end.

Definition VIEW_ORDER : list ViewKey := [KFront; KLeft; KRight; KBack].

(** [Array.prototype.indexOf]: the first index, or [-1]. *)
Fixpoint indexOf (k : ViewKey) (l : list ViewKey) : Z :=
  match l with
  | [] => -1
  | x :: r =>
      if ViewKey_eqb x k then 0
      else let i := indexOf k r in if (i <? 0)%Z then -1 else (i + 1)%Z
  end.

(** [l[i]] for an integer [i]: [undefined] out of range. *)
Definition at_index (l : list ViewKey) (i : Z) : option ViewKey :=
  if (i <? 0)%Z then None else nth_error l (Z.to_nat i).

(** The updater [navigate(direction)] passes to [setSelectedViewKey];
    [%] is the remainder of the truncated division. *)
Definition navigate (direction : Z) (currentKey : option ViewKey)
  : option ViewKey :=
  match currentKey with
  | None => None
  | Some k =>
      let currentIndex := indexOf k VIEW_ORDER in
      let length := Z.of_nat (List.length VIEW_ORDER) in
      let newIndex := Z.rem (currentIndex + direction + length) length in
      at_index VIEW_ORDER newIndex
  end.

(** [handleKeyDown], which listens only while a view is selected. *)
Definition handleKeyDown (key : string) (selectedViewKey : option ViewKey)
  : option ViewKey :=
  match selectedViewKey with
  | None => None
  | Some _ =>
      if String.eqb key "Escape" then None
      else if String.eqb key "ArrowLeft" then navigate (-1) selectedViewKey
      else if String.eqb key "ArrowRight" then navigate 1 selectedViewKey
      else selectedViewKey
  end.

End ImagePanel.

(** ** The control panel

    [components/ControlPanel.tsx]: the prompt passed to [onGenerate] when
    the form is submitted, if any. *)

Module ControlPanel.
Import JsString.

Definition handleSubmit (prompt : string) : option string :=
  match trim prompt with
  | EmptyString => None
  | String _ _ => Some prompt
  end.

End ControlPanel.

(** ** The application

    [App.tsx]: the state of the application and what [handleGenerate]
    makes of the progress events. *)

Module App.
Import JsString Json GeminiService.

Inductive StageStatus : Type := pending | processing | completed.

Record ProcessStage : Type := mkStage {
  id : nat;
  name : string;
  description : string;
  logs : list string;
  status : StageStatus
}.

(** The text of [error.message]: of an [Error] its message, of a
    [TypeError] what the engine words. *)
Inductive ErrorText : Type :=
| Message (m : string)
| EngineMessage.

Record GenerationState : Type := mkGeneration {
  isGenerating : bool;
  error : option ErrorText;
  statusMessage : string
}.

Record AppState : Type := mkApp {
  sceneConfig : json;
  referenceImages : option ReferenceImages;
  stages : list ProcessStage;
  generationState : GenerationState
}.

Definition INITIAL_SCENE : json :=
  JObject
    [ (units "backgroundColor", JString (units "#0f172a"));
      (units "ambientLightColor", JString (units "#ffffff"));
      (units "ambientLightIntensity", JNumber 5 (-1));
      (units "shapes", JArray []) ].

Definition INITIAL_STAGES : list ProcessStage :=
  [ mkStage 1 "Analysis" "Pre-production & Geometry Breakdown" [] pending;
    mkStage 2 "Modeling" "CSG Construction & Topology" [] pending;
    mkStage 3 "Texturing" "Baking, Shading & UVs" [] pending;
    mkStage 4 "Rendering" "Lighting, VFX & Post-processing" [] pending ].

(** [s.includes(sub)]. *)
Fixpoint str_includes (s sub : string) : bool :=
  match strip_prefix sub s with
  | Some _ => true
  | None =>
      match s with
      | String _ r => str_includes r sub
      | EmptyString => false
      end
  end.

(** [logs[logs.length - 1]]. *)
Fixpoint last_log (ls : list string) : option string :=
  match ls with
  | [] => None
  | [l] => Some l
  | _ :: r => last_log r
  end.

(** The status of the stage an update is for: the optional chain is
    [undefined] when there is no log. *)
Definition status_of (ls : list string) : StageStatus :=
  match last_log ls with
  | Some l =>
      if str_includes l "complete" || str_includes l "finished"
      then completed else processing
  | None => processing
  end.

(** The function mapped over the stages for one update. *)
Definition update_stage (update : ProgressEvent) (stage : ProcessStage)
  : ProcessStage :=
  if Nat.eqb (id stage) (stageId update) then
    mkStage (id stage) (name stage) (description stage)
      (GeminiService.logs update) (status_of (GeminiService.logs update))
  else if Nat.ltb (id stage) (stageId update) then
    mkStage (id stage) (name stage) (description stage) (logs stage) completed
  else stage.

(** The body of the loop over the generator. *)
Definition on_update (st : AppState) (update : ProgressEvent) : AppState :=
  mkApp
    match GeminiService.sceneConfig update with
    | Some c => if truthy c then c else sceneConfig st
    | None => sceneConfig st
    end
    (referenceImages st)
    (map (update_stage update) (stages st))
    (generationState st).

(** What follows the loop. *)
Definition finish (st : AppState) : AppState :=
  mkApp (sceneConfig st) (referenceImages st)
    (map (fun s =>
            if Nat.eqb (id s) 4
            then mkStage (id s) (name s) (description s) (logs s) completed
            else s)
       (stages st))
    (mkGeneration false (error (generationState st)) "Done!").

(** [error.message || "Pipeline failed."]. *)
Definition shown (e : JsError) : ErrorText :=
  match e with
  | Error EmptyString => Message "Pipeline failed."
  | Error m => Message m
  | TypeError => EngineMessage
  end.

(** The [catch] clause. *)
Definition caught (e : JsError) (st : AppState) : AppState :=
  mkApp (sceneConfig st) (referenceImages st) (stages st)
    (mkGeneration false (Some (shown e)) "").

(** The loop [for await (const update of generator)] inside the [try],
    with what follows it and the [catch]. *)
Fixpoint consume (generator : Prog unit) (st : AppState) : Prog AppState :=
  match generator with
  | Ret _ => Ret (finish st)
  | Throw e => Ret (caught e st)
  | GenerateContent req k =>
      GenerateContent req (fun o => consume (k o) st)
  | Delay ms k => Delay ms (consume k st)
  | Yield update k => consume k (on_update st update)
  end.

Section HandleGenerate.

Variable ToString : json -> option string.

(** [handleGenerate(prompt)] from the state [st]; [built] is how
    [await generateReferenceImages(prompt)] settles. *)
Definition handleGenerate (prompt : string)
  (built : Result ReferenceImages) (st : AppState) : Prog AppState :=
  let reset :=
    mkApp (sceneConfig st) (referenceImages st)
      (map (fun s => mkStage (id s) (name s) (description s) [] pending)
         INITIAL_STAGES)
      (mkGeneration true None "Generating reference blueprints...") in
  match built with
  | Err e => Ret (caught e reset)
  | Ok images =>
      consume (generateSceneWorkflow ToString prompt images)
        (mkApp (sceneConfig reset) (Some images) (stages reset)
           (generationState reset))
  end.

End HandleGenerate.

Definition handleClear (st : AppState) : AppState :=
  mkApp INITIAL_SCENE None INITIAL_STAGES (generationState st).

End App.

(** ** The process panel

    [components/ProcessPanel.tsx]: the stage the panel expands when the
    stages change. *)

Module ProcessPanel.
Import App.

Definition is_processing (s : ProcessStage) : bool :=
  match status s with processing => true | _ => false end.

Definition is_completed (s : ProcessStage) : bool :=
  match status s with completed => true | _ => false end.

(** The effect on [expandedStageId] ([None] is [null]). *)
Definition expand (stages : list ProcessStage) (expandedStageId : option nat)
  : option nat :=
  match find is_processing stages with
  | Some activeStage => Some (id activeStage)
  | None =>
      if forallb is_completed stages then Some 4 else expandedStageId
  end.

End ProcessPanel.

(** * Properties of the service *)

Import JsString Json GeminiService.

(** ** Sample data *)

(** A text written with an apostrophe wherever it has a double quote. *)
Definition quoted (s : string) : string :=
  string_of_list_ascii
    (map (fun c => if Ascii.eqb c "'" then "034"%char else c)
       (list_ascii_of_string s)).

(** A response made of text only: no image. *)
Definition text_response (t : string) : Outcome :=
  Resolved
    (mkResponse (Some [mkCandidate (Some (mkContent (Some [Text t])))])
       (Some t)).

(** A response carrying the image [data]. *)
Definition image_response (data : string) : Outcome :=
  Resolved
    (mkResponse
       (Some [mkCandidate (Some (mkContent (Some [InlineData "image/png" data])))])
       None).

Definition sample_images : ReferenceImages := mkImages "F" "B" "L" "R".

(** A conversion to a string that always succeeds, for the runs that do
    not depend on it. *)
Definition blank_text : json -> option string := fun _ => Some EmptyString.

(** ** The image client *)

(** The attempt answered by [o] got an image. *)
Definition yields_image (o : Outcome) : bool :=
  match o with
  | Resolved response =>
      match image_of response with
      | Some _ => true
      | None => false
      end
  | Rejected _ => false
  end.

(** The message of the error a failed attempt catches. *)
Definition caught_message (view : string) (o : Outcome) : string :=
  match o with
  | Resolved _ => "Model returned no image data for " ++ view
  | Rejected message => message
  end.

Lemma run_attempt_fails (env : Env) (n : nat) (prompt view : string)
  (ref : option string) (retries todo attempt : nat) (last : option string) :
  let req := view_request prompt view ref in
  yields_image (env n req) = false ->
  run env n (attempt_loop prompt view ref retries (S todo) attempt last) =
  let next :=
    run env (S n)
      (attempt_loop prompt view ref retries todo (S attempt)
         (Some (caught_message view (env n req)))) in
  (Call req (env n req)
     :: (if Nat.ltb attempt retries then Sleep (waitTime attempt) :: fst next
         else fst next),
   snd next).
Proof.
  intros req Hfail. cbn [attempt_loop run]. fold req.
  unfold yields_image in Hfail. unfold caught_message.
  destruct (env n req) as [response | message].
  - destruct (image_of response); [discriminate |].
    destruct (Nat.ltb attempt retries); cbn [run];
      destruct (run env (S n) _); reflexivity.
  - destruct (Nat.ltb attempt retries); cbn [run];
      destruct (run env (S n) _); reflexivity.
Qed.

Lemma waitTime_doubles (attempt : nat) :
  1 <= attempt -> waitTime (S attempt) = 2 * waitTime attempt.
Proof.
  intros H. unfold waitTime. destruct attempt as [| a]; [lia |].
  replace (S (S a) - 1) with (S a) by lia. replace (S a - 1) with a by lia.
  rewrite Nat.pow_succ_r'. lia.
Qed.

(** Whatever the number of retries, a call whose attempts all fail issues
    that many requests and sleeps between them only, for [waitTime 1],
    [waitTime 2], and so on. *)
Lemma attempt_loop_all_fail (env : Env) (prompt view : string)
  (ref : option string) (retries : nat) :
  (forall k req, yields_image (env k req) = false) ->
  forall todo attempt n last,
    attempt + todo = retries + 1 ->
    let r := run env n (attempt_loop prompt view ref retries todo attempt last) in
    sleeps (fst r) = map waitTime (seq attempt (todo - 1)) /\
    List.length (requests (fst r)) = todo /\
    exists message, snd r = Err (Error message).
Proof.
  intros Hfail. induction todo as [| todo IH]; intros attempt n last Hsum r.
  - subst r. cbn. repeat split. eexists. reflexivity.
  - subst r. rewrite run_attempt_fails by apply Hfail. cbv zeta.
    specialize (IH (S attempt) (S n)
                  (Some (caught_message view
                           (env n (view_request prompt view ref))))
                  ltac:(lia)).
    cbv zeta in IH. destruct IH as (Hs & Hr & Hm).
    cbn [fst snd]. split; [| split; [| exact Hm]].
    + destruct (Nat.ltb_spec attempt retries) as [Hlt | Hge].
      * cbn [sleeps]. rewrite Hs.
        destruct todo as [| todo']; [lia |].
        replace (S (S todo') - 1) with (S todo') by lia.
        replace (S todo' - 1) with todo' by lia. reflexivity.
      * cbn [sleeps]. rewrite Hs. assert (todo = 0) by lia. subst todo.
        reflexivity.
    + destruct (Nat.ltb attempt retries); cbn [requests List.length];
        now rewrite Hr.
Qed.

(** C3. When every attempt fails, generateSingleView (with its default of
    three retries) issues exactly three requests, sleeps 1000 ms after the
    first and 2000 ms after the second and not after the third, and then
    throws an error whose message holds the view label and the message of
    the last error caught. *)
Theorem generateSingleView_all_attempts_fail
  (env : Env) (n : nat) (prompt view : string) (ref : option string) :
  (forall k req, yields_image (env k req) = false) ->
  let req := view_request prompt view ref in
  let last := caught_message view (env (n + 2) req) in
  run env n (generateSingleView prompt view ref default_retries) =
  ([ Call req (env n req); Sleep 1000;
     Call req (env (n + 1) req); Sleep 2000;
     Call req (env (n + 2) req) ],
   Err (Error ("Failed to generate " ++ view ++ " after 3 attempts. Last error: "
               ++ last))).
Proof.
  intros Hfail req last. unfold generateSingleView, default_retries.
  rewrite run_attempt_fails by apply Hfail.
  rewrite run_attempt_fails by apply Hfail.
  rewrite run_attempt_fails by apply Hfail.
  replace (S n) with (n + 1) by lia. replace (S (n + 1)) with (n + 2) by lia.
  reflexivity.
Qed.

Lemma generateSingleView_all_attempts_fail_witness :
  run (fun _ _ => text_response "no") 0
    (generateSingleView "a cat" views_front None default_retries) =
  (let req := view_request "a cat" views_front None in
   [ Call req (text_response "no"); Sleep 1000;
     Call req (text_response "no"); Sleep 2000;
     Call req (text_response "no") ],
   Err (Error "Failed to generate Front view after 3 attempts. Last error: Model returned no image data for Front view")).
Proof.
  apply (generateSingleView_all_attempts_fail
           (fun _ _ => text_response "no") 0 "a cat" views_front None).
  intros k req. reflexivity.
Defined.

(** ** Facts on strings *)

Lemma append_assoc (a b c : string) : (a ++ b) ++ c = a ++ b ++ c.
Proof. induction a as [| x a IH]; cbn; [reflexivity | now rewrite IH]. Qed.

Lemma append_nil_r (a : string) : a ++ "" = a.
Proof. induction a as [| x a IH]; cbn; [reflexivity | now rewrite IH]. Qed.

(** [sub] occurs in [s]. *)
Definition includes (s sub : string) : Prop :=
  exists pre post, s = pre ++ sub ++ post.

(** The same, decided: [s.includes(sub)]. *)
Fixpoint occurs (sub s : string) : bool :=
  match strip_prefix sub s with
  | Some _ => true
  | None =>
      match s with
      | String _ r => occurs sub r
      | EmptyString => false
      end
  end.

(** ** The staged workflow *)

Section WorkflowFacts.

Variable ToString : json -> option string.
Variables (env : Env) (prompt : string) (images : ReferenceImages).

(** The two requests of a run and how they settle. *)
Definition analysis_outcome : Outcome :=
  env 0 (analysis_request prompt images).

Definition stage2_request : Request :=
  model_request prompt images (analysisText_of analysis_outcome).

Definition model_outcome : Outcome := env 1 stage2_request.

Definition workflow_run : list Action * Result unit :=
  run env 0 (generateSceneWorkflow ToString prompt images).

Definition batch_run : list Action * Result json :=
  run env 0 (generateSceneFromPrompt ToString prompt (Some images)).

(** A run is its fixed opening followed by what stage 2 makes of the
    model's answer. *)
Lemma workflow_run_unfold :
  workflow_run =
  ([ Emit stage1_start; Sleep 800;
     Call (analysis_request prompt images) analysis_outcome;
     Emit stage1_done; Sleep 500; Emit stage2_start;
     Call stage2_request model_outcome ]
     ++ fst (run env 2 (after_model ToString model_outcome)),
   snd (run env 2 (after_model ToString model_outcome)))%list.
Proof.
  unfold workflow_run, generateSceneWorkflow. cbn [run].
  fold analysis_outcome. fold stage2_request. fold model_outcome.
  destruct (run env 2 (after_model ToString model_outcome)). reflexivity.
Qed.

(** The run once the model's answer parses to [sceneData] and the
    length of its shapes prints as [n]. *)
Lemma after_model_success (response : Response) (t n : string)
  (sceneData : json) :
  text response = Some t ->
  cleanAndParseJSON t = Ok sceneData ->
  shapes_length ToString sceneData = Ok n ->
  run env 2 (after_model ToString (Resolved response)) =
  ([ Emit (stage2_done n sceneData); Sleep 800;
     Emit stage3_start; Sleep 1200;
     Emit (stage3_done sceneData); Sleep 800;
     Emit stage4_start; Sleep 1000;
     Emit (stage4_done (finalSceneData sceneData)) ],
   Ok tt).
Proof.
  intros Ht Hp Hn. unfold after_model. rewrite Ht, Hp, Hn. reflexivity.
Qed.

(** A run that does not end in an error went through all of stage 2. *)
Lemma after_model_ok_inv (o : Outcome) (tr : list Action) :
  run env 2 (after_model ToString o) = (tr, Ok tt) ->
  exists response t n sceneData,
    o = Resolved response /\ text response = Some t /\
    cleanAndParseJSON t = Ok sceneData /\
    shapes_length ToString sceneData = Ok n.
Proof.
  unfold after_model. destruct o as [response | message]; [| discriminate].
  destruct (text response) as [t |] eqn:Ht; [| discriminate].
  destruct (cleanAndParseJSON t) as [sceneData | e] eqn:Hp; [| discriminate].
  destruct (shapes_length ToString sceneData) as [n | e] eqn:Hn;
    [| discriminate].
  intros _. now exists response, t, n, sceneData.
Qed.

(** [shapes.length] can be read exactly on an object whose member
    [shapes] is not [null]. *)
Lemma shapes_length_ok_inv (sceneData : json) (n : string) :
  shapes_length ToString sceneData = Ok n ->
  exists members shapes,
    sceneData = JObject members /\
    obj_get key_shapes members = Some shapes /\ shapes <> JNull.
Proof.
  unfold shapes_length. destruct sceneData as [| | | | | members];
    try discriminate.
  destruct (obj_get key_shapes members) as [shapes |] eqn:Hs;
    [| discriminate].
  intros H. exists members, shapes.
  split; [reflexivity | split; [exact Hs |]].
  intros ->. discriminate H.
Qed.

(** A [length] that is there converts to a string. *)
Definition length_converts (shapes : json) : Prop :=
  forall ms v,
    shapes = JObject ms -> obj_get key_length ms = Some v ->
    ToString v <> None.

Lemma shapes_length_total (members : list (jstr * json)) (shapes : json) :
  obj_get key_shapes members = Some shapes -> shapes <> JNull ->
  length_converts shapes ->
  exists n, shapes_length ToString (JObject members) = Ok n.
Proof.
  intros Hs Hn Hc. unfold shapes_length. rewrite Hs.
  destruct shapes as [| | | | | ms]; try (eexists; reflexivity).
  - contradiction.
  - destruct (obj_get key_length ms) as [v |] eqn:Hl;
      [| eexists; reflexivity].
    destruct (ToString v) as [s |] eqn:Hv; [eexists; reflexivity |].
    exfalso. exact (Hc ms v eq_refl Hl Hv).
Qed.

End WorkflowFacts.

(** The actions of a successful run, in full. *)
Definition successful_trace (env : Env) (prompt : string)
  (images : ReferenceImages) (n : string) (sceneData : json) : list Action :=
  [ Emit stage1_start; Sleep 800;
    Call (analysis_request prompt images) (analysis_outcome env prompt images);
    Emit stage1_done; Sleep 500; Emit stage2_start;
    Call (stage2_request env prompt images) (model_outcome env prompt images);
    Emit (stage2_done n sceneData); Sleep 800;
    Emit stage3_start; Sleep 1200;
    Emit (stage3_done sceneData); Sleep 800;
    Emit stage4_start; Sleep 1000;
    Emit (stage4_done (finalSceneData sceneData)) ].

Lemma workflow_run_success (ToString : json -> option string) (env : Env)
  (prompt : string) (images : ReferenceImages) (response : Response)
  (t n : string) (sceneData : json) :
  model_outcome env prompt images = Resolved response ->
  text response = Some t ->
  cleanAndParseJSON t = Ok sceneData ->
  shapes_length ToString sceneData = Ok n ->
  workflow_run ToString env prompt images =
  (successful_trace env prompt images n sceneData, Ok tt).
Proof.
  intros Ho Ht Hp Hn. rewrite workflow_run_unfold, Ho.
  rewrite (after_model_success ToString env response t n sceneData Ht Hp Hn).
  unfold successful_trace. rewrite Ho. reflexivity.
Qed.

Lemma workflow_run_ok_inv (ToString : json -> option string) (env : Env)
  (prompt : string) (images : ReferenceImages) :
  snd (workflow_run ToString env prompt images) = Ok tt ->
  exists response t n members shapes,
    model_outcome env prompt images = Resolved response /\
    text response = Some t /\
    cleanAndParseJSON t = Ok (JObject members) /\
    obj_get key_shapes members = Some shapes /\ shapes <> JNull /\
    workflow_run ToString env prompt images =
    (successful_trace env prompt images n (JObject members), Ok tt).
Proof.
  intros Hok. rewrite workflow_run_unfold in Hok. cbn [snd] in Hok.
  destruct (run env 2 (after_model ToString (model_outcome env prompt images)))
    as [tr r] eqn:Hrun.
  cbn [snd] in Hok. subst r.
  destruct (after_model_ok_inv ToString env _ tr Hrun)
    as (response & t & n & sceneData & Ho & Ht & Hp & Hn).
  destruct (shapes_length_ok_inv ToString sceneData n Hn)
    as (members & shapes & -> & Hs & Hnull).
  exists response, t, n, members, shapes.
  repeat (split; [assumption |]).
  now apply (workflow_run_success ToString env prompt images response t).
Qed.

(** Every strategy of the repair ladder fails on [text]. *)
Definition ladder_exhausted (text : string) : Prop :=
  parse (cleanText text) = None /\
  parse (repairedText (cleanText text)) = None /\
  match closedText (repairedText (cleanText text)) with
  | Some closed => parse closed = None
  | None => True
  end.

Lemma ladder_exhausted_throws (text : string) :
  ladder_exhausted text -> cleanAndParseJSON text = Err unrecoverable.
Proof.
  intros (H1 & H2 & H3). unfold cleanAndParseJSON. rewrite H1, H2.
  destruct (closedText (repairedText (cleanText text))); [| reflexivity].
  now rewrite H3.
Qed.

(** C2. When the text of the stage-2 response defeats every strategy of
    the repair ladder, the workflow ends in the ladder's error, the only
    events emitted are the two of stage 1 and the opening one of stage 2,
    so that no event of stage 2 carries a scene, and the requests issued
    are the analysis request and one single modelling request. *)
Theorem workflow_fails_when_repair_is_exhausted
  (ToString : json -> option string) (env : Env) (prompt : string)
  (images : ReferenceImages) (response : Response) (t : string) :
  model_outcome env prompt images = Resolved response ->
  text response = Some t ->
  ladder_exhausted t ->
  let tr := fst (workflow_run ToString env prompt images) in
  snd (workflow_run ToString env prompt images) = Err unrecoverable /\
  events tr = [stage1_start; stage1_done; stage2_start] /\
  (forall ev, In ev (events tr) -> stageId ev = 2 -> sceneConfig ev = None) /\
  requests tr =
  [analysis_request prompt images; stage2_request env prompt images].
Proof.
  intros Ho Ht Hex tr. subst tr. rewrite workflow_run_unfold, Ho.
  unfold after_model. rewrite Ht, (ladder_exhausted_throws t Hex).
  cbn. repeat split.
  intros ev [<- | [<- | [<- | []]]]; reflexivity.
Qed.

(** An environment answering the analysis with [a] and the modelling
    request with the text [t]. *)
Definition scripted (a : Outcome) (t : string) : Env :=
  fun n _ => if Nat.eqb n 0 then a else text_response t.

Lemma workflow_fails_when_repair_is_exhausted_witness :
  let env := scripted (text_response "A box.") "I cannot do that" in
  let tr := fst (workflow_run blank_text env "a cat" sample_images) in
  snd (workflow_run blank_text env "a cat" sample_images)
  = Err unrecoverable /\
  events tr = [stage1_start; stage1_done; stage2_start] /\
  (forall ev, In ev (events tr) -> stageId ev = 2 -> sceneConfig ev = None) /\
  requests tr =
  [analysis_request "a cat" sample_images;
   stage2_request env "a cat" sample_images].
Proof.
  intros env.
  apply (workflow_fails_when_repair_is_exhausted blank_text env "a cat"
           sample_images
           (mkResponse
              (Some [mkCandidate (Some (mkContent (Some [Text "I cannot do that"])))])
              (Some "I cannot do that"))
           "I cannot do that").
  - reflexivity.
  - reflexivity.
  - vm_compute. repeat split.
Defined.

Lemma includes_refl (x : string) : includes x x.
Proof. exists "", "". cbn. now rewrite append_nil_r. Qed.

Lemma includes_append_l (s post x : string) :
  includes s x -> includes (s ++ post) x.
Proof.
  intros (a & b & ->). exists a, (b ++ post). now rewrite !append_assoc.
Qed.

Lemma includes_append_r (pre s x : string) :
  includes s x -> includes (pre ++ s) x.
Proof.
  intros (a & b & ->). exists (pre ++ a), b. now rewrite !append_assoc.
Qed.

Lemma includes_unlines_head (l : string) (r : list string) (x : string) :
  includes l x -> includes (unlines (l :: r)) x.
Proof.
  intros H. destruct r as [| y r]; cbn [unlines]; [assumption |].
  now apply includes_append_l.
Qed.

Lemma includes_unlines_tail (l y : string) (r : list string) (x : string) :
  includes (unlines (y :: r)) x -> includes (unlines (l :: y :: r)) x.
Proof.
  intros H. change (unlines (l :: y :: r)) with (l ++ nl ++ unlines (y :: r)).
  now do 2 apply includes_append_r.
Qed.

Lemma model_text_includes_analysis (prompt analysisText : string) :
  includes (model_text prompt analysisText) analysisText.
Proof.
  unfold model_text.
  do 3 apply includes_unlines_tail. apply includes_unlines_head.
  apply includes_append_r, includes_refl.
Qed.

(** C8. When the analysis request is rejected, the workflow goes on: it
    emits the second event of stage 1 and the first of stage 2 and issues
    the modelling request, whose instruction holds the fixed fallback
    text as analysis context; how the run ends is decided by stage 2
    onwards alone. *)
Theorem analysis_failure_is_absorbed
  (ToString : json -> option string) (env : Env) (prompt : string)
  (images : ReferenceImages) (message : string) :
  analysis_outcome env prompt images = Rejected message ->
  let request := model_request prompt images analysis_fallback in
  let rest := run env 2 (after_model ToString (env 1 request)) in
  workflow_run ToString env prompt images =
  ([ Emit stage1_start; Sleep 800;
     Call (analysis_request prompt images) (Rejected message);
     Emit stage1_done; Sleep 500; Emit stage2_start;
     Call request (env 1 request) ] ++ fst rest, snd rest)%list /\
  In (Text (model_text prompt analysis_fallback)) (contents request) /\
  includes (model_text prompt analysis_fallback) analysis_fallback.
Proof.
  intros Ha request rest. split; [| split].
  - rewrite workflow_run_unfold. unfold model_outcome, stage2_request.
    rewrite Ha. reflexivity.
  - cbn. auto 6.
  - apply model_text_includes_analysis.
Qed.

Lemma analysis_failure_is_absorbed_witness :
  let env := scripted (Rejected "offline") (quoted "{'shapes':[]}") in
  let request := model_request "a cat" sample_images analysis_fallback in
  let rest := run env 2 (after_model blank_text (env 1 request)) in
  workflow_run blank_text env "a cat" sample_images =
  ([ Emit stage1_start; Sleep 800;
     Call (analysis_request "a cat" sample_images) (Rejected "offline");
     Emit stage1_done; Sleep 500; Emit stage2_start;
     Call request (env 1 request) ] ++ fst rest, snd rest)%list /\
  In (Text (model_text "a cat" analysis_fallback)) (contents request) /\
  includes (model_text "a cat" analysis_fallback) analysis_fallback.
Proof.
  intros env.
  apply (analysis_failure_is_absorbed blank_text env "a cat" sample_images
           "offline").
  reflexivity.
Defined.



(** *** Fields of a scene *)

(** [v.k] on a parsed value. *)
Definition field (k : jstr) (v : json) : option json :=
  match v with
  | JObject members => obj_get k members
  | _ => None
  end.

Lemma jstr_eqb_eq (a b : jstr) : jstr_eqb a b = true <-> a = b.
Proof.
  unfold jstr_eqb. destruct (list_eq_dec N.eq_dec a b); split; intros H;
    try reflexivity; try assumption; try discriminate; contradiction.
Qed.

Lemma jstr_eqb_refl (a : jstr) : jstr_eqb a a = true.
Proof. now apply jstr_eqb_eq. Qed.

Lemma jstr_eqb_neq (a b : jstr) : a <> b -> jstr_eqb a b = false.
Proof.
  intros H. destruct (jstr_eqb a b) eqn:E; [| reflexivity].
  apply jstr_eqb_eq in E. contradiction.
Qed.

Lemma obj_get_set_same (k : jstr) (v : json) (ms : list (jstr * json)) :
  obj_get k (obj_set k v ms) = Some v.
Proof.
  induction ms as [| [k' v'] ms IH]; cbn.
  - now rewrite jstr_eqb_refl.
  - destruct (jstr_eqb k k') eqn:E; cbn; rewrite E; [reflexivity | exact IH].
Qed.

Lemma obj_get_set_other (k k' : jstr) (v : json) (ms : list (jstr * json)) :
  k' <> k -> obj_get k' (obj_set k v ms) = obj_get k' ms.
Proof.
  intros Hk. induction ms as [| [k0 v0] ms IH]; cbn.
  - now rewrite (jstr_eqb_neq k' k Hk).
  - destruct (jstr_eqb k k0) eqn:E; cbn.
    + apply jstr_eqb_eq in E. subst k0.
      now rewrite (jstr_eqb_neq k' k Hk).
    + now rewrite IH.
Qed.

(** The final scene is the modelled one with the ambient intensity set. *)
Lemma finalSceneData_fields (members : list (jstr * json)) :
  field key_ambientLightIntensity (finalSceneData (JObject members))
  = Some brighter /\
  forall k, k <> key_ambientLightIntensity ->
            field k (finalSceneData (JObject members))
            = field k (JObject members).
Proof.
  cbn [finalSceneData field]. split.
  - apply obj_get_set_same.
  - intros k Hk. now apply obj_get_set_other.
Qed.

Lemma key_shapes_is_not_intensity : key_shapes <> key_ambientLightIntensity.
Proof. discriminate. Qed.

(** C1 (as amended: the claim as written does not hold).  When the text of
    the stage-2 response parses, after repair, to an object whose member
    [shapes] is not null and whose [shapes.length], if [shapes] is an
    object that holds one, converts to a string, the workflow completes
    and emits exactly eight events: two of stage 1, two of stage 2 of
    which the second carries the scene, two of stage 3 of which only the
    second carries that same scene, two of stage 4 of which the second
    carries the scene with ambient intensity 0.7 and the shapes
    unchanged. *)
Theorem workflow_emits_eight_events
  (ToString : json -> option string) (env : Env) (prompt : string)
  (images : ReferenceImages) (response : Response) (t : string)
  (members : list (jstr * json)) (shapes : json) :
  model_outcome env prompt images = Resolved response ->
  text response = Some t ->
  cleanAndParseJSON t = Ok (JObject members) ->
  obj_get key_shapes members = Some shapes ->
  shapes <> JNull ->
  (forall ms v,
      shapes = JObject ms -> obj_get key_length ms = Some v ->
      ToString v <> None) ->
  let scene := JObject members in
  let final := finalSceneData scene in
  let evs := events (fst (workflow_run ToString env prompt images)) in
  snd (workflow_run ToString env prompt images) = Ok tt /\
  (exists n,
     evs = [ stage1_start; stage1_done; stage2_start; stage2_done n scene;
             stage3_start; stage3_done scene; stage4_start;
             stage4_done final ]) /\
  map stageId evs = [1; 1; 2; 2; 3; 3; 4; 4] /\
  map sceneConfig evs =
  [None; None; None; Some scene; None; Some scene; None; Some final] /\
  field key_ambientLightIntensity final = Some brighter /\
  field key_shapes final = Some shapes /\
  field key_shapes scene = Some shapes.
Proof.
  intros Ho Ht Hp Hs Hnull Hconv scene final evs.
  destruct (shapes_length_total ToString members shapes Hs Hnull Hconv)
    as [n Hn].
  pose proof (workflow_run_success ToString env prompt images response t n
                scene Ho Ht Hp Hn) as Hrun.
  subst evs. rewrite Hrun. cbn [fst snd successful_trace events map].
  split; [reflexivity |]. split; [now exists n |].
  split; [reflexivity |]. split; [reflexivity |].
  destruct (finalSceneData_fields members) as [Hi Hother].
  split; [exact Hi |]. split; [| exact Hs].
  subst final scene. rewrite (Hother key_shapes key_shapes_is_not_intensity).
  exact Hs.
Qed.

Lemma workflow_emits_eight_events_witness :
  let env :=
    scripted (Rejected "offline")
      (quoted "{'ambientLightIntensity':0.5,'shapes':[]}") in
  let scene :=
    JObject [ (key_ambientLightIntensity, JNumber 5 (-1));
              (key_shapes, JArray []) ] in
  let final :=
    JObject [ (key_ambientLightIntensity, JNumber 7 (-1));
              (key_shapes, JArray []) ] in
  let evs :=
    events (fst (workflow_run blank_text env "a cat" sample_images)) in
  map stageId evs = [1; 1; 2; 2; 3; 3; 4; 4] /\
  map sceneConfig evs =
  [None; None; None; Some scene; None; Some scene; None; Some final].
Proof.
  intros env scene final evs.
  destruct (workflow_emits_eight_events blank_text env "a cat"
              sample_images
              (mkResponse
                 (Some [mkCandidate (Some (mkContent (Some
                    [Text (quoted "{'ambientLightIntensity':0.5,'shapes':[]}")])))])
                 (Some (quoted "{'ambientLightIntensity':0.5,'shapes':[]}")))
              (quoted "{'ambientLightIntensity':0.5,'shapes':[]}")
              [ (key_ambientLightIntensity, JNumber 5 (-1));
                (key_shapes, JArray []) ]
              (JArray []))
    as (_ & _ & Hstages & Hscenes & _).
  - reflexivity.
  - reflexivity.
  - vm_compute. reflexivity.
  - reflexivity.
  - discriminate.
  - intros ms v H. discriminate H.
  - split; [exact Hstages | exact Hscenes].
Defined.

(** The sequence of events as the claim C1 words it. *)
Definition eight_events_as_claimed (evs : list ProgressEvent) : Prop :=
  exists e1 e2 e3 e4 e5 e6 e7 e8 scene final,
    evs = [e1; e2; e3; e4; e5; e6; e7; e8] /\
    map stageId evs = [1; 1; 2; 2; 3; 3; 4; 4] /\
    sceneConfig e4 = Some scene /\
    sceneConfig e5 = Some scene /\
    sceneConfig e6 = Some scene /\
    sceneConfig e8 = Some final /\
    field key_ambientLightIntensity final
    <> field key_ambientLightIntensity scene /\
    field key_shapes final = field key_shapes scene.

(** Three runs whose stage-2 text parses.  In the first the first event of
    stage 3 carries no scene; in the second the model already chose 0.7,
    and the final intensity is the same; in the third the parsed object
    has no shapes and the run stops after three events. *)
Lemma workflow_events_not_as_claimed :
  let run_on (t : string) :=
    workflow_run blank_text (scripted (Rejected "offline") (quoted t))
      "a cat" sample_images in
  let t1 := "{'ambientLightIntensity':0.5,'shapes':[]}" in
  let t2 := "{'ambientLightIntensity':0.7,'shapes':[]}" in
  let t3 := "{}" in
  (cleanAndParseJSON (quoted t1)
   = Ok (JObject [ (key_ambientLightIntensity, JNumber 5 (-1));
                   (key_shapes, JArray []) ]) /\
   map sceneConfig (events (fst (run_on t1))) =
   [ None; None; None;
     Some (JObject [ (key_ambientLightIntensity, JNumber 5 (-1));
                     (key_shapes, JArray []) ]);
     None;
     Some (JObject [ (key_ambientLightIntensity, JNumber 5 (-1));
                     (key_shapes, JArray []) ]);
     None;
     Some (JObject [ (key_ambientLightIntensity, JNumber 7 (-1));
                     (key_shapes, JArray []) ]) ] /\
   ~ eight_events_as_claimed (events (fst (run_on t1)))) /\
  (cleanAndParseJSON (quoted t2)
   = Ok (JObject [ (key_ambientLightIntensity, JNumber 7 (-1));
                   (key_shapes, JArray []) ]) /\
   nth_error (map sceneConfig (events (fst (run_on t2)))) 7 =
   Some (Some (JObject [ (key_ambientLightIntensity, JNumber 7 (-1));
                         (key_shapes, JArray []) ]))) /\
  (cleanAndParseJSON (quoted t3) = Ok (JObject []) /\
   map stageId (events (fst (run_on t3))) = [1; 1; 2] /\
   snd (run_on t3) = Err TypeError).
Proof.
  intros run_on t1 t2 t3. split; [| split].
  - split; [vm_compute; reflexivity |]. split; [vm_compute; reflexivity |].
    intros (e1 & e2 & e3 & e4 & e5 & e6 & e7 & e8 & scene & final
            & Hevs & _ & _ & H5 & _).
    assert (Hm : nth_error (map sceneConfig (events (fst (run_on t1)))) 4
                 = Some None) by (vm_compute; reflexivity).
    rewrite Hevs in Hm. cbn [map nth_error] in Hm. rewrite H5 in Hm.
    discriminate Hm.
  - split; vm_compute; reflexivity.
  - repeat split; vm_compute; reflexivity.
Qed.

(** C7. In a run that completes, the scene of the last event, the second
    of stage 4, has the ambient intensity 0.7 and agrees with the scene of
    stage 2 on every other field: none is added, dropped or changed, in
    particular not the background colour, the ambient colour or the
    shapes. *)
Theorem final_scene_overrides_only_the_intensity
  (ToString : json -> option string) (env : Env) (prompt : string)
  (images : ReferenceImages) :
  snd (workflow_run ToString env prompt images) = Ok tt ->
  let evs := events (fst (workflow_run ToString env prompt images)) in
  exists scene final,
    List.length evs = 8 /\
    map stageId evs = [1; 1; 2; 2; 3; 3; 4; 4] /\
    option_map sceneConfig (nth_error evs 3) = Some (Some scene) /\
    option_map sceneConfig (nth_error evs 7) = Some (Some final) /\
    field key_ambientLightIntensity final = Some (JNumber 7 (-1)) /\
    (forall k, k <> key_ambientLightIntensity ->
               field k final = field k scene) /\
    field key_backgroundColor final = field key_backgroundColor scene /\
    field key_ambientLightColor final = field key_ambientLightColor scene /\
    field key_shapes final = field key_shapes scene.
Proof.
  intros Hok evs.
  destruct (workflow_run_ok_inv ToString env prompt images Hok)
    as (response & t & n & members & shapes & _ & _ & _ & _ & _ & Hrun).
  subst evs. rewrite Hrun. cbn [fst successful_trace events].
  exists (JObject members), (finalSceneData (JObject members)).
  destruct (finalSceneData_fields members) as [Hi Hother].
  repeat (split; [reflexivity |]).
  split; [exact Hi |]. split; [exact Hother |].
  repeat split; apply Hother; discriminate.
Qed.

Lemma final_scene_overrides_only_the_intensity_witness :
  let env :=
    scripted (text_response "A box.")
      (quoted "{'backgroundColor':'#000','ambientLightIntensity':0.5,'shapes':[]}") in
  let evs :=
    events (fst (workflow_run blank_text env "a cat" sample_images)) in
  exists scene final,
    List.length evs = 8 /\
    map stageId evs = [1; 1; 2; 2; 3; 3; 4; 4] /\
    option_map sceneConfig (nth_error evs 3) = Some (Some scene) /\
    option_map sceneConfig (nth_error evs 7) = Some (Some final) /\
    field key_ambientLightIntensity final = Some (JNumber 7 (-1)) /\
    (forall k, k <> key_ambientLightIntensity ->
               field k final = field k scene) /\
    field key_backgroundColor final = field key_backgroundColor scene /\
    field key_ambientLightColor final = field key_ambientLightColor scene /\
    field key_shapes final = field key_shapes scene.
Proof.
  intros env.
  apply (final_scene_overrides_only_the_intensity blank_text env "a cat"
           sample_images).
  vm_compute. reflexivity.
Defined.

(** ** The batch form *)

(** What the consumer loop lets through: everything but the events. *)
Definition silent (tr : list Action) : list Action :=
  filter (fun a => match a with Emit _ => false | _ => true end) tr.

(** One turn of the consumer loop. *)
Definition keep (finalConfig : option json) (update : ProgressEvent)
  : option json :=
  match sceneConfig update with
  | Some c => if truthy c then Some c else finalConfig
  | None => finalConfig
  end.

(** The scene of the last event that carries one. *)
Definition last_scene (evs : list ProgressEvent) : option json :=
  fold_left
    (fun found ev =>
       match sceneConfig ev with Some c => Some c | None => found end)
    evs None.

Lemma run_collect (p : Prog unit) :
  forall (env : Env) (n : nat) (finalConfig : option json),
    run env n (collect p finalConfig) =
    (silent (fst (run env n p)),
     match snd (run env n p) with
     | Err e => Err e
     | Ok _ =>
         match fold_left keep (events (fst (run env n p))) finalConfig with
         | Some c => Ok c
         | None => Err (Error "Failed to generate scene")
         end
     end).
Proof.
  induction p as [a | e | req k IH | ms k IH | ev k IH];
    intros env n finalConfig; cbn [collect run].
  - cbn. now destruct finalConfig.
  - reflexivity.
  - rewrite IH. destruct (run env (S n) (k (env n req))). reflexivity.
  - rewrite IH. destruct (run env n k). reflexivity.
  - rewrite IH. destruct (run env n k). reflexivity.
Qed.

Lemma fold_keep_without_scene (evs : list ProgressEvent) :
  forall finalConfig,
    (forall ev, In ev evs -> sceneConfig ev = None) ->
    fold_left keep evs finalConfig = finalConfig.
Proof.
  induction evs as [| ev evs IH]; intros finalConfig H; cbn [fold_left].
  - reflexivity.
  - unfold keep at 2. rewrite (H ev (or_introl eq_refl)).
    apply IH. intros ev' Hin. apply H. now right.
Qed.

Lemma last_scene_none (evs : list ProgressEvent) :
  last_scene evs = None -> forall ev, In ev evs -> sceneConfig ev = None.
Proof.
  unfold last_scene.
  assert (G : forall found,
             fold_left
               (fun found ev =>
                  match sceneConfig ev with Some c => Some c | None => found end)
               evs found = None ->
             found = None /\ forall ev, In ev evs -> sceneConfig ev = None).
  { induction evs as [| ev evs IH]; intros found H; cbn [fold_left] in H.
    - split; [exact H | intros ev []].
    - destruct (IH _ H) as [Hf Hall].
      destruct (sceneConfig ev) eqn:E; [discriminate |].
      split; [exact Hf |]. intros ev' [<- | Hin]; [exact E | now apply Hall]. }
  intros H. now apply (G None).
Qed.

(** C10. When the streaming workflow completes, generateSceneFromPrompt,
    run against the same environment, returns the scene of the last event
    that carries one, which is the scene of the closing event of stage 4
    with ambient intensity 0.7; it issues the same requests and delays.
    When no event of the workflow carries a scene, it fails. *)
Theorem batch_agrees_with_streaming
  (ToString : json -> option string) (env : Env) (prompt : string)
  (images : ReferenceImages) :
  let streaming := workflow_run ToString env prompt images in
  let batch := batch_run ToString env prompt images in
  fst batch = silent (fst streaming) /\
  (snd streaming = Ok tt ->
   exists config,
     snd batch = Ok config /\
     last_scene (events (fst streaming)) = Some config /\
     option_map sceneConfig (nth_error (events (fst streaming)) 7)
     = Some (Some config) /\
     option_map stageId (nth_error (events (fst streaming)) 7) = Some 4 /\
     List.length (events (fst streaming)) = 8 /\
     field key_ambientLightIntensity config = Some (JNumber 7 (-1))) /\
  (last_scene (events (fst streaming)) = None ->
   exists e, snd batch = Err e).
Proof.
  intros streaming batch.
  assert (Hb : batch =
               (silent (fst streaming),
                match snd streaming with
                | Err e => Err e
                | Ok _ =>
                    match fold_left keep (events (fst streaming)) None with
                    | Some c => Ok c
                    | None => Err (Error "Failed to generate scene")
                    end
                end)).
  { subst batch streaming. unfold batch_run, generateSceneFromPrompt.
    now rewrite run_collect. }
  rewrite Hb. cbn [fst snd]. split; [reflexivity |]. split.
  - intros Hok. rewrite Hok.
    destruct (workflow_run_ok_inv ToString env prompt images Hok)
      as (response & t & n & members & shapes & _ & _ & _ & _ & _ & Hrun).
    subst streaming. rewrite Hrun. cbn [fst successful_trace events].
    exists (finalSceneData (JObject members)).
    repeat (split; [reflexivity |]).
    apply finalSceneData_fields.
  - intros Hnone. destruct (snd streaming) as [[] | e]; [| now exists e].
    rewrite fold_keep_without_scene by now apply last_scene_none.
    now eexists.
Qed.

Lemma batch_agrees_with_streaming_witness :
  let env :=
    scripted (text_response "A box.")
      (quoted "{'ambientLightIntensity':0.5,'shapes':[]}") in
  let streaming := workflow_run blank_text env "a cat" sample_images in
  let batch := batch_run blank_text env "a cat" sample_images in
  exists config,
    snd batch = Ok config /\
    last_scene (events (fst streaming)) = Some config /\
    option_map sceneConfig (nth_error (events (fst streaming)) 7)
    = Some (Some config) /\
    option_map stageId (nth_error (events (fst streaming)) 7) = Some 4 /\
    List.length (events (fst streaming)) = 8 /\
    field key_ambientLightIntensity config = Some (JNumber 7 (-1)).
Proof.
  intros env.
  apply (proj1 (proj2 (batch_agrees_with_streaming blank_text env "a cat"
                         sample_images))).
  vm_compute. reflexivity.
Defined.

(** ** The repair ladder *)

(** *** The replacement budget is never used up *)

(** A match consumes at least one character. *)
Definition shrinking (m : matcher) : Prop :=
  forall s r, m s = Some r -> String.length r < String.length s.

Lemma skip_space_length (s : string) :
  String.length (skip_space s) <= String.length s.
Proof.
  induction s as [| c r IH]; cbn [skip_space]; [lia |].
  destruct (is_space c); cbn [String.length]; lia.
Qed.

Lemma strip_prefix_length (p s r : string) :
  strip_prefix p s = Some r ->
  String.length s = String.length p + String.length r.
Proof.
  revert s. induction p as [| a p IH]; intros s H; cbn in H.
  - now injection H as ->.
  - destruct s as [| b s]; [discriminate |].
    destruct (Ascii.eqb a b); [| discriminate].
    cbn [String.length]. rewrite (IH s H). lia.
Qed.

Lemma re_fence_shrinking : shrinking re_fence.
Proof.
  intros s r. unfold re_fence.
  destruct (strip_prefix "```json" s) as [r0 |] eqn:E.
  - intros H. injection H as <-. apply strip_prefix_length in E.
    pose proof (skip_space_length r0). cbn [String.length] in E. lia.
  - intros H. apply strip_prefix_length in H.
    pose proof (skip_space_length s). cbn [String.length] in H. lia.
Qed.

Lemma re_gap_shrinking (a b : ascii) : shrinking (re_gap a b).
Proof.
  intros s r. unfold re_gap. destruct s as [| c s']; [discriminate |].
  destruct (Ascii.eqb c a); [| discriminate].
  pose proof (skip_space_length s') as Hl.
  destruct (skip_space s') as [| d r']; [discriminate |].
  destruct (Ascii.eqb d b); [| discriminate].
  intros H. injection H as <-. cbn [String.length] in *. lia.
Qed.

(** With a shrinking pattern any budget of at least the length of the
    text gives the same replacement. *)
Lemma replace_go_budget (m : matcher) (by_ : string) :
  shrinking m ->
  forall b b' s,
    String.length s <= b -> String.length s <= b' ->
    replace_go m by_ b s = replace_go m by_ b' s.
Proof.
  intros Hm. induction b as [| b IH]; intros b' s Hb Hb'.
  - destruct s; [| cbn in Hb; lia]. now destruct b'.
  - destruct s as [| c r]; [now destruct b' |].
    destruct b' as [| b']; [cbn in Hb'; lia |].
    cbn [replace_go String.length] in *.
    destruct (m (String c r)) as [rest |] eqn:E.
    + apply Hm in E. cbn [String.length] in E.
      f_equal. apply IH; lia.
    + f_equal. apply IH; lia.
Qed.

(** *** The repairs of the second attempt, and their limits *)

Example trailing_comma_is_removed :
  cleanAndParseJSON (quoted "{'a':1,}") = Ok (JObject [(units "a", JNumber 1 0)]).
Proof. vm_compute. reflexivity. Qed.

Example fenced_reply_is_unwrapped :
  cleanAndParseJSON
    (quoted "Here it is: ```json {'shapes': [1, 2,], } ``` Enjoy.")
  = Ok (JObject [(key_shapes, JArray [JNumber 1 0; JNumber 2 0])]).
Proof. vm_compute. reflexivity. Qed.

Example adjacent_objects_are_rejected :
  repairedText (quoted "{'a':1}{'b':2}") = quoted "{'a':1}, {'b':2}" /\
  cleanAndParseJSON (quoted "{'a':1}{'b':2}") = Err unrecoverable.
Proof. split; vm_compute; reflexivity. Qed.

Example text_without_brace_is_rejected :
  cleanAndParseJSON "I cannot help with that." = Err unrecoverable.
Proof. vm_compute. reflexivity. Qed.

Lemma lastIndexOf_split (c : ascii) (s : string) :
  forall i,
    lastIndexOf c s = Some i ->
    s = substring_to (i + 1) s ++ substring_from (i + 1) s /\
    (exists body, substring_to (i + 1) s = body ++ String c "") /\
    count_char c (substring_from (i + 1) s) = 0.
Proof.
  induction s as [| a r IH]; intros i H; cbn [lastIndexOf] in H.
  - discriminate.
  - destruct (lastIndexOf c r) as [j |] eqn:E.
    + injection H as <-. destruct (IH j eq_refl) as (H1 & (body & H2) & H3).
      cbn [Nat.add substring_to substring_from]. repeat split.
      * cbn. now rewrite <- H1.
      * exists (String a body). cbn. now rewrite H2.
      * exact H3.
    + destruct (Ascii.eqb a c) eqn:Eac; [| discriminate].
      injection H as <-. apply Ascii.eqb_eq in Eac. subst a.
      assert (Hr : substring_to 0 r = "") by now destruct r.
      assert (Hf : substring_from 0 r = r) by now destruct r.
      change (substring_to (0 + 1) (String c r))
        with (String c (substring_to 0 r)).
      change (substring_from (0 + 1) (String c r)) with (substring_from 0 r).
      rewrite Hr, Hf. repeat split.
      * now exists "".
      * clear IH. induction r as [| b r IHr]; [reflexivity |].
        cbn [lastIndexOf] in E. cbn [count_char].
        destruct (lastIndexOf c r); [discriminate |].
        destruct (Ascii.eqb b c); [discriminate |]. now apply IHr.
Qed.

(** C4. When direct parsing and the syntactic repairs have both failed
    and the repaired text has a closing brace, the text is cut after its
    last closing brace, the closers appended are one bracket for each
    bracket left open followed by one brace for each brace left open, and
    the answer is the parse of that text; the truncated
    [{"shapes":[{"id":"x"}] is read as [{"shapes":[{"id":"x"}]}]. *)
Theorem truncated_json_is_closed :
  (forall text i,
      let repaired := repairedText (cleanText text) in
      let truncated := substring_to (i + 1) repaired in
      let suffix :=
        repeat_char "]" (count_char "[" truncated - count_char "]" truncated)
        ++ repeat_char "}" (count_char "{" truncated - count_char "}" truncated)
      in
      parse (cleanText text) = None ->
      parse repaired = None ->
      lastIndexOf "}" repaired = Some i ->
      (exists body rest,
          truncated = body ++ "}" /\ repaired = truncated ++ rest /\
          count_char "}" rest = 0) /\
      cleanAndParseJSON text =
      match parse (truncated ++ suffix) with
      | Some v => Ok v
      | None => Err unrecoverable
      end) /\
  (exists v,
      parse (quoted "{'shapes':[{'id':'x'}]}") = Some v /\
      cleanAndParseJSON (quoted "{'shapes':[{'id':'x'}") = Ok v /\
      v = JObject [(units "shapes", JArray [JObject [(units "id", JString (units "x"))]])]).
Proof.
  split.
  - intros text i repaired truncated suffix H1 H2 H3.
    destruct (lastIndexOf_split "}" repaired i H3) as (Hs & (body & Hb) & Hc).
    split.
    + exists body, (substring_from (i + 1) repaired). now repeat split.
    + unfold cleanAndParseJSON. rewrite H1. fold repaired. rewrite H2.
      unfold closedText. rewrite H3. fold truncated. fold suffix.
      now destruct (parse (truncated ++ suffix)).
  - eexists. repeat split; vm_compute; reflexivity.
Qed.

Lemma truncated_json_is_closed_witness :
  let text := quoted "{'shapes':[{'id':'x'}" in
  cleanAndParseJSON text =
  match parse (text ++ "]" ++ "}") with
  | Some v => Ok v
  | None => Err unrecoverable
  end.
Proof.
  intros text.
  apply (proj2 (proj1 truncated_json_is_closed text 20
                  ltac:(vm_compute; reflexivity)
                  ltac:(vm_compute; reflexivity)
                  ltac:(vm_compute; reflexivity))).
Defined.

(** *** Texts the ladder leaves alone *)

Lemma is_space_cases (c : ascii) :
  is_space c = true ->
  c = "009"%char \/ c = "010"%char \/ c = "011"%char \/ c = "012"%char \/
  c = "013"%char \/ c = " "%char \/ c = "160"%char.
Proof.
  destruct c as [[] [] [] [] [] [] [] []]; vm_compute; intros H;
    try discriminate H; auto 10.
Qed.

Lemma occurs_tail (sub : string) (c : ascii) (r : string) :
  occurs sub (String c r) = false -> occurs sub r = false.
Proof.
  cbn [occurs]. destruct (strip_prefix sub (String c r)); [discriminate |].
  trivial.
Qed.

Lemma occurs_skip_space (sub s : string) :
  occurs sub s = false -> occurs sub (skip_space s) = false.
Proof.
  induction s as [| c r IH]; intros H; cbn [skip_space]; [exact H |].
  destruct (is_space c); [| exact H].
  apply IH. now apply occurs_tail with c.
Qed.

Lemma occurs_head (sub s : string) :
  occurs sub s = false -> strip_prefix sub s = None.
Proof.
  destruct s as [| c r]; cbn [occurs];
    destruct (strip_prefix sub _); try discriminate; reflexivity.
Qed.

Lemma strip_prefix_shorter (p s r : string) :
  strip_prefix (p ++ "json") s = Some r -> strip_prefix p s <> None.
Proof.
  revert s. induction p as [| a p IH]; intros s H; cbn in *.
  - discriminate.
  - destruct s as [| b s]; [discriminate |].
    destruct (Ascii.eqb a b); [now apply IH | discriminate].
Qed.

Lemma re_fence_none (s : string) :
  occurs "```" s = false -> re_fence s = None.
Proof.
  intros H. unfold re_fence.
  destruct (strip_prefix "```json" s) as [r |] eqn:E.
  - exfalso. apply (strip_prefix_shorter "```" s r E).
    now apply occurs_head.
  - apply occurs_head. now apply occurs_skip_space.
Qed.

Lemma replace_fence_id (s : string) :
  occurs "```" s = false -> replace_all re_fence "" s = s.
Proof.
  unfold replace_all. generalize (String.length s) at 1. intros budget.
  revert s. induction budget as [| b IH]; intros s H; cbn [replace_go].
  - reflexivity.
  - destruct s as [| c r]; [reflexivity |].
    rewrite (re_fence_none _ H). f_equal. apply IH. now apply occurs_tail with c.
Qed.

(** No space in what a literal still expects. *)
Fixpoint no_space (s : string) : bool :=
  match s with
  | String c r => negb (is_space c) && no_space r
  | EmptyString => true
  end.

Definition mode_ok (m : mode) : Prop :=
  match m with
  | InLit rest _ => no_space rest = true
  | _ => True
  end.

Lemma idle_step_mode_ok (c : ascii) (ts : list token) (m' : mode) :
  idle_step c = Some (ts, m') -> mode_ok m'.
Proof.
  unfold idle_step.
  repeat match goal with
         | |- (if ?b then _ else _) = _ -> _ => destruct b
         | |- match ?b with Some _ => _ | None => _ end = _ -> _ => destruct b
         end;
    intros H; try discriminate H; injection H as <- <-; cbn; trivial.
Qed.

Lemma lex_step_mode_ok (m : mode) (c : ascii) (ts : list token) (m' : mode) :
  mode_ok m -> lex_step m c = Some (ts, m') -> mode_ok m'.
Proof.
  intros Hm. destruct m as [| acc | acc | acc todo v | lexeme | rest t];
    cbn [lex_step].
  - apply idle_step_mode_ok.
  - repeat match goal with
           | |- (if ?b then _ else _) = _ -> _ => destruct b
           end; intros H; try discriminate H; injection H as <- <-; exact I.
  - destruct (Ascii.eqb c "u"); [| destruct (escape_of c)];
      intros H; try discriminate H; injection H as <- <-; exact I.
  - destruct (hex_of c); [| discriminate].
    destruct todo as [| [| l]]; intros H; injection H as <- <-; exact I.
  - destruct (is_number_char c).
    + intros H; injection H as <- <-; exact I.
    + destruct (number_token lexeme); [| discriminate].
      destruct (idle_step c) as [[ts0 m0] |] eqn:E; [| discriminate].
      intros H; injection H as <- <-. now apply idle_step_mode_ok in E.
  - destruct rest as [| e rest']; [discriminate |].
    cbn in Hm. apply andb_prop in Hm as [_ Hm].
    destruct (Ascii.eqb c e); [| discriminate].
    destruct rest'; intros H; injection H as <- <-; [exact I | exact Hm].
Qed.

(** What a space can do to the lexer: nothing between tokens, end a
    number, or be part of a string. *)
Lemma lex_step_space (m : mode) (c : ascii) (ts : list token) (m' : mode) :
  is_space c = true -> mode_ok m -> lex_step m c = Some (ts, m') ->
  (m = Idle /\ ts = [] /\ m' = Idle) \/
  (exists acc acc', m = InStr acc /\ ts = [] /\ m' = InStr acc') \/
  (exists lexeme t,
      m = InNum lexeme /\ number_token lexeme = Some t /\ ts = [t] /\
      m' = Idle).
Proof.
  intros Hc Hm.
  destruct m as [| acc | acc | acc todo v | lexeme | rest t]; cbn [lex_step].
  - intros H. left.
    destruct (is_space_cases c Hc) as [-> | [-> | [-> | [-> | [-> | [-> | ->]]]]]];
      vm_compute in H; try discriminate H; injection H as <- <-; auto.
  - intros H. right; left.
    destruct (is_space_cases c Hc) as [-> | [-> | [-> | [-> | [-> | [-> | ->]]]]]];
      cbn in H; try discriminate H; injection H as <- <-; eauto.
  - intros H. exfalso.
    destruct (is_space_cases c Hc) as [-> | [-> | [-> | [-> | [-> | [-> | ->]]]]]];
      cbn in H; discriminate H.
  - intros H. exfalso.
    destruct (is_space_cases c Hc) as [-> | [-> | [-> | [-> | [-> | [-> | ->]]]]]];
      cbn in H; discriminate H.
  - intros H. right; right.
    assert (Hn : is_number_char c = false).
    { destruct (is_space_cases c Hc) as [-> | [-> | [-> | [-> | [-> | [-> | ->]]]]]];
        reflexivity. }
    rewrite Hn in H.
    destruct (number_token lexeme) as [t |] eqn:Ht; [| discriminate].
    exists lexeme, t.
    destruct (is_space_cases c Hc) as [-> | [-> | [-> | [-> | [-> | [-> | ->]]]]]];
      vm_compute in H; try discriminate H; injection H as <- <-; auto.
  - intros H. exfalso. destruct rest as [| e rest']; [discriminate |].
    cbn in Hm. destruct (Ascii.eqb c e) eqn:E; [| discriminate].
    apply Ascii.eqb_eq in E. subst e. rewrite Hc in Hm. discriminate.
Qed.

(** Spaces up to the end of the text add no token. *)
Lemma lex_all_space (s : string) :
  forall m ts,
    all_space s = true -> mode_ok m -> lex m s = Some ts ->
    lex_end m = Some ts.
Proof.
  induction s as [| c r IH]; intros m ts Hs Hm H; cbn [lex] in H.
  - exact H.
  - cbn [all_space] in Hs. apply andb_prop in Hs as [Hc Hr].
    destruct (lex_step m c) as [[ts1 m'] |] eqn:E; [| discriminate].
    destruct (lex m' r) as [ts2 |] eqn:E2; [| discriminate].
    injection H as <-.
    pose proof (IH m' ts2 Hr (lex_step_mode_ok m c ts1 m' Hm E) E2) as Hend.
    destruct (lex_step_space m c ts1 m' Hc Hm E)
      as [(-> & -> & ->) | [(acc & acc' & -> & -> & ->)
                           | (lexeme & t & -> & Ht & -> & ->)]].
    + exact Hend.
    + discriminate Hend.
    + cbn in Hend. injection Hend as <-. cbn. now rewrite Ht.
Qed.

Lemma lex_trim_end (s : string) :
  forall m ts,
    mode_ok m -> lex m s = Some ts -> lex m (trim_end s) = Some ts.
Proof.
  induction s as [| c r IH]; intros m ts Hm H; [exact H |].
  cbn [trim_end]. destruct (all_space (String c r)) eqn:Hs.
  - cbn [lex]. now apply lex_all_space with (String c r).
  - cbn [lex] in *.
    destruct (lex_step m c) as [[ts1 m'] |] eqn:E; [| discriminate].
    destruct (lex m' r) as [ts2 |] eqn:E2; [| discriminate].
    now rewrite (IH m' ts2 (lex_step_mode_ok m c ts1 m' Hm E) E2).
Qed.

Lemma lex_skip_space (s : string) (ts : list token) :
  lex Idle s = Some ts -> lex Idle (skip_space s) = Some ts.
Proof.
  induction s as [| c r IH]; intros H; [exact H |].
  cbn [skip_space]. destruct (is_space c) eqn:Hc; [| exact H].
  apply IH. cbn [lex] in H.
  destruct (lex_step Idle c) as [[ts1 m'] |] eqn:E; [| discriminate].
  destruct (lex_step_space Idle c ts1 m' Hc I E)
    as [(_ & -> & ->) | [(acc & acc' & Habs & _) | (l & t & Habs & _)]];
    try discriminate Habs.
  destruct (lex Idle r); [now injection H as <- | discriminate].
Qed.

(** Trimming a well-formed text does not change what it parses to. *)
Lemma parse_trim (text : string) (v : json) :
  parse text = Some v -> parse (trim text) = Some v.
Proof.
  unfold parse, trim. destruct (lex Idle text) as [ts |] eqn:E; [| discriminate].
  intros H. now rewrite (lex_trim_end _ Idle ts I (lex_skip_space text ts E)).
Qed.

(** Only spaces come before the first opening brace of [text], if it has
    one. *)
Definition brace_leads (text : string) : Prop :=
  forall i, indexOf "{" text = Some i -> all_space (substring_to i text) = true.

Lemma indexOf_skip_space (s : string) :
  brace_leads s ->
  indexOf "{" (skip_space s) = None \/ exists r, skip_space s = String "{" r.
Proof.
  induction s as [| c r IH]; intros H; [now left |].
  cbn [skip_space]. destruct (is_space c) eqn:Hc.
  - apply IH. intros i Hi. specialize (H (S i)). cbn [indexOf] in H.
    destruct (Ascii.eqb c "{") eqn:E.
    + apply Ascii.eqb_eq in E. subst c. discriminate Hc.
    + rewrite Hi in H. specialize (H eq_refl). cbn in H.
      rewrite Hc in H. exact H.
  - destruct (indexOf "{" (String c r)) as [i |] eqn:Hi; [| now left].
    right. specialize (H i Hi). cbn [indexOf] in Hi.
    destruct (Ascii.eqb c "{") eqn:E.
    + apply Ascii.eqb_eq in E. subst c. now exists r.
    + destruct (indexOf "{" r); [| discriminate]. injection Hi as <-.
      cbn in H. rewrite Hc in H. discriminate H.
Qed.

Lemma indexOf_trim_end_none (s : string) :
  indexOf "{" s = None -> indexOf "{" (trim_end s) = None.
Proof.
  induction s as [| c r IH]; intros H; [reflexivity |].
  cbn [trim_end]. destruct (all_space (String c r)); [reflexivity |].
  cbn [indexOf] in *. destruct (Ascii.eqb c "{"); [discriminate |].
  destruct (indexOf "{" r); [discriminate |]. now rewrite IH.
Qed.

Lemma cleanText_of_clean_json (text : string) :
  occurs "```" text = false -> brace_leads text -> cleanText text = trim text.
Proof.
  intros Hf Hb. unfold cleanText. rewrite (replace_fence_id text Hf).
  unfold trim. destruct (indexOf_skip_space text Hb) as [Hn | [r Hr]].
  - now rewrite (indexOf_trim_end_none _ Hn).
  - rewrite Hr. cbn. reflexivity.
Qed.

(** C5 (as amended: the claim as written does not hold).  On a well-formed
    JSON text that holds no run of three backticks and in which only
    spaces come before the first opening brace, the repair function
    returns what direct parsing returns. *)
Theorem repair_is_identity_on_clean_json (text : string) (v : json) :
  parse text = Some v ->
  occurs "```" text = false ->
  brace_leads text ->
  cleanAndParseJSON text = Ok v.
Proof.
  intros Hp Hf Hb. unfold cleanAndParseJSON.
  rewrite (cleanText_of_clean_json text Hf Hb).
  now rewrite (parse_trim text v Hp).
Qed.

Lemma repair_is_identity_on_clean_json_witness :
  cleanAndParseJSON (quoted "  {'shapes':[{'id':'x'}],'ambientLightIntensity':0.7}  ")
  = Ok (JObject
          [ (key_shapes, JArray [JObject [(units "id", JString (units "x"))]]);
            (key_ambientLightIntensity, JNumber 7 (-1)) ]).
Proof.
  apply (repair_is_identity_on_clean_json
           (quoted "  {'shapes':[{'id':'x'}],'ambientLightIntensity':0.7}  ")).
  - vm_compute. reflexivity.
  - vm_compute. reflexivity.
  - intros i Hi. vm_compute in Hi. injection Hi as <-. vm_compute. reflexivity.
Defined.

(** Two well-formed texts the repair function does not read as direct
    parsing does: an array of one object comes back as the object alone,
    and a string holding three backticks comes back empty. *)
Lemma repair_differs_from_direct_parsing :
  (parse "[{}]" = Some (JArray [JObject []]) /\
   cleanAndParseJSON "[{}]" = Ok (JObject [])) /\
  (parse (quoted "{'a':'```'}") = Some (JObject [(units "a", JString (units "```"))]) /\
   cleanAndParseJSON (quoted "{'a':'```'}") = Ok (JObject [(units "a", JString [])])) /\
  ~ (forall text v, parse text = Some v -> cleanAndParseJSON text = Ok v).
Proof.
  split; [| split].
  - split; vm_compute; reflexivity.
  - split; vm_compute; reflexivity.
  - intros H. specialize (H "[{}]" (JArray [JObject []]) eq_refl).
    vm_compute in H. discriminate H.
Qed.

(** ** The reference image set builder *)

Definition outcome_image (o : Outcome) : option string :=
  match o with
  | Resolved response => image_of response
  | Rejected _ => None
  end.

(** Among the observations [seen], a request of [view] has settled with
    the image [data]. *)
Definition settled_with (view data : string) (seen : list Label) : Prop :=
  exists o, In (LSettle view o) seen /\ outcome_image o = Some data.

Definition other_views : list string := [views_back; views_left; views_right].

(** What an observation must satisfy, given the ones before it: a request
    is the unconditioned request of the front view, or the request of
    another view conditioned on the image the front view has settled with;
    the builder returns the images its four views have settled with. *)
Definition label_ok (prompt : string) (seen : list Label) (l : Label) : Prop :=
  match l with
  | LRequest view req =>
      (view = views_front /\
       req = view_request prompt views_front None /\
       contents req = [Text (fullPrompt prompt views_front None)]) \/
      (In view other_views /\
       exists front,
         settled_with views_front front seen /\
         req = view_request prompt view (Some front) /\
         contents req =
         [ InlineData "image/png" front;
           Text (fullPrompt prompt view (Some front)) ])
  | LReturn images =>
      settled_with views_front (front images) seen /\
      settled_with views_back (back images) seen /\
      settled_with views_left (left images) seen /\
      settled_with views_right (right images) seen
  | _ => True
  end.

Fixpoint all_ok (prompt : string) (seen ls : list Label) : Prop :=
  match ls with
  | [] => True
  | l :: r => label_ok prompt seen l /\ all_ok prompt (seen ++ [l]) r
  end.

Lemma settled_with_mono (view data : string) (seen seen' : list Label) :
  incl seen seen' -> settled_with view data seen ->
  settled_with view data seen'.
Proof. intros Hi (o & Hin & Ho). exists o. split; [now apply Hi | exact Ho]. Qed.

Lemma label_ok_mono (prompt : string) (seen seen' : list Label) (l : Label) :
  incl seen seen' -> label_ok prompt seen l -> label_ok prompt seen' l.
Proof.
  intros Hi. destruct l as [view req | | | images |]; cbn [label_ok]; trivial.
  - intros [H | (Hv & f & Hs & Hr)]; [now left | right].
    split; [exact Hv |]. exists f.
    split; [now apply settled_with_mono with seen | exact Hr].
  - intros (H1 & H2 & H3 & H4).
    repeat split; now apply settled_with_mono with seen.
Qed.

Lemma all_ok_app (prompt : string) (a b : list Label) :
  forall seen,
    all_ok prompt seen (a ++ b) <->
    all_ok prompt seen a /\ all_ok prompt (seen ++ a) b.
Proof.
  induction a as [| l a IH]; intros seen; cbn [all_ok app].
  - rewrite app_nil_r. tauto.
  - rewrite IH, <- app_assoc. cbn [app]. tauto.
Qed.

Lemma all_ok_each (prompt : string) (ls : list Label) :
  forall seen,
    (forall l, In l ls -> label_ok prompt seen l) -> all_ok prompt seen ls.
Proof.
  induction ls as [| l r IH]; intros seen H; cbn [all_ok]; [exact I |].
  split; [apply H; now left |].
  apply IH. intros l' Hin. apply label_ok_mono with seen.
  - apply incl_appl, incl_refl.
  - apply H. now right.
Qed.

Lemma all_ok_at (prompt : string) (pre : list Label) (l : Label)
  (post : list Label) :
  all_ok prompt [] (pre ++ l :: post) -> label_ok prompt pre l.
Proof.
  intros H. apply all_ok_app in H as [_ H]. cbn [all_ok app] in H. tauto.
Qed.

(** The states of one call of generateSingleView. *)
Inductive task_of (prompt view : string) (ref : option string)
  : Prog string -> Prop :=
| task_loop retries todo attempt last :
    task_of prompt view ref
      (attempt_loop prompt view ref retries todo attempt last)
| task_wait ms retries todo attempt last :
    task_of prompt view ref
      (Delay ms (attempt_loop prompt view ref retries todo attempt last))
| task_done data : task_of prompt view ref (Ret data).

(** Waiting for a response or for a timer. *)
Definition pending (t : Prog string) : Prop :=
  match t with
  | GenerateContent _ _ | Delay _ _ => True
  | _ => False
  end.

(** What a task may let observe. *)
Definition task_label (prompt view : string) (ref : option string)
  (l : Label) : Prop :=
  (exists o, l = LSettle view o) \/
  l = LRequest view (view_request prompt view ref) \/
  (exists ms, l = LDelay ms).

Lemma announce_task (prompt view : string) (ref : option string)
  (t : Prog string) :
  task_of prompt view ref t ->
  forall l, In l (announce view t) -> task_label prompt view ref l.
Proof.
  intros Ht l. destruct Ht as [retries todo attempt last | ms retries todo attempt last | data].
  - destruct todo; cbn; [tauto |].
    intros [<- | []]. right; left. reflexivity.
  - cbn. intros [<- | []]. right; right. now exists ms.
  - cbn. tauto.
Qed.

Lemma attempt_continues (prompt view : string) (ref : option string)
  (retries todo attempt : nat) (error : string) :
  task_of prompt view ref
    (let next :=
       attempt_loop prompt view ref retries todo (S attempt) (Some error) in
     if Nat.ltb attempt retries then Delay (waitTime attempt) next else next).
Proof. cbv zeta. destruct (Nat.ltb attempt retries); constructor. Qed.

Lemma resume_task (prompt view : string) (ref : option string)
  (t : Prog string) (o : Outcome) :
  task_of prompt view ref t ->
  task_of prompt view ref (fst (resume view t o)) /\
  (forall l, In l (snd (resume view t o)) -> task_label prompt view ref l) /\
  (forall data,
      fst (resume view t o) = Ret data ->
      t = Ret data \/
      (In (LSettle view o) (snd (resume view t o)) /\
       outcome_image o = Some data)).
Proof.
  intros Ht.
  destruct Ht as [retries todo attempt last | ms retries todo attempt last | data].
  - destruct todo as [| todo'].
    + split; [apply (task_loop prompt view ref retries 0 attempt last) |].
      cbn [attempt_loop resume fst snd].
      split; [intros l [] | intros data Hd; discriminate Hd].
    + cbn [attempt_loop resume fst snd].
      assert (Hk : task_of prompt view ref
                (match o with
                 | Resolved response =>
                     match image_of response with
                     | Some data => Ret data
                     | None =>
                         (let next :=
                            attempt_loop prompt view ref retries todo'
                              (S attempt)
                              (Some ("Model returned no image data for " ++ view)) in
                          if Nat.ltb attempt retries
                          then Delay (waitTime attempt) next else next)
                     end
                 | Rejected message =>
                     (let next :=
                        attempt_loop prompt view ref retries todo'
                          (S attempt) (Some message) in
                      if Nat.ltb attempt retries
                      then Delay (waitTime attempt) next else next)
                 end)).
      { destruct o as [response | message].
        - destruct (image_of response); [constructor | apply attempt_continues].
        - apply attempt_continues. }
      split; [exact Hk |]. split.
      * intros l [<- | Hin]; [left; now exists o |].
        now apply (announce_task prompt view ref _ Hk).
      * intros data Hd. right. split; [now left |].
        destruct o as [response | message]; cbn [outcome_image].
        -- destruct (image_of response) as [d |].
           ++ now injection Hd as ->.
           ++ exfalso. cbv zeta in Hd.
              destruct (Nat.ltb attempt retries); [discriminate |].
              destruct todo'; discriminate.
        -- exfalso. cbv zeta in Hd.
           destruct (Nat.ltb attempt retries); [discriminate |].
           destruct todo'; discriminate.
  - cbn [resume fst snd]. split; [constructor |]. split.
    + apply announce_task. constructor.
    + intros data Hd. exfalso. destruct todo; discriminate.
  - cbn [resume fst snd]. split; [constructor |].
    split; [intros l [] | intros d Hd; now left].
Qed.

Lemma image_of_nonempty (response : Response) (data : string) :
  image_of response = Some data -> provided (Some data) = Some data.
Proof.
  unfold image_of. destruct (candidates response) as [[| c cs] |];
    try discriminate.
  destruct (content c) as [ct |]; [| discriminate].
  destruct (parts ct) as [ps |]; [| discriminate].
  induction ps as [| p ps IH]; cbn [first_inline_data]; [discriminate |].
  destruct p as [mime [| a d] | t]; try exact IH.
  intros H. injection H as <-. reflexivity.
Qed.

Lemma settled_with_nonempty (view data : string) (seen : list Label) :
  settled_with view data seen -> provided (Some data) = Some data.
Proof.
  intros (o & _ & Ho). destruct o as [response | m]; [| discriminate].
  now apply image_of_nonempty with response.
Qed.

Lemma conditioned_contents (prompt view front : string) :
  provided (Some front) = Some front ->
  contents (view_request prompt view (Some front)) =
  [InlineData "image/png" front; Text (fullPrompt prompt view (Some front))].
Proof.
  intros H. unfold view_request, view_parts. cbn [contents]. now rewrite H.
Qed.

Lemma front_label_ok (prompt : string) (seen : list Label) (l : Label) :
  task_label prompt views_front None l -> label_ok prompt seen l.
Proof.
  intros [(o & ->) | [-> | (ms & ->)]]; cbn [label_ok]; trivial.
  left. repeat split.
Qed.

Lemma other_label_ok (prompt view front : string) (seen : list Label)
  (l : Label) :
  settled_with views_front front seen -> In view other_views ->
  task_label prompt view (Some front) l -> label_ok prompt seen l.
Proof.
  intros Hf Hv [(o & ->) | [-> | (ms & ->)]]; cbn [label_ok]; trivial.
  right. split; [exact Hv |]. exists front. split; [exact Hf |].
  split; [reflexivity |].
  apply conditioned_contents. now apply settled_with_nonempty with views_front seen.
Qed.

(** A view that has returned has settled with what it returned. *)
Definition recorded (view : string) (t : Prog string) (seen : list Label)
  : Prop :=
  forall data, t = Ret data -> settled_with view data seen.

Lemma recorded_mono (view : string) (t : Prog string)
  (seen seen' : list Label) :
  incl seen seen' -> recorded view t seen -> recorded view t seen'.
Proof.
  intros Hi H data Hd. apply settled_with_mono with seen; [exact Hi |].
  now apply H.
Qed.

Lemma settled_with_app (view data : string) (seen ls : list Label) :
  settled_with view data seen -> settled_with view data (seen ++ ls).
Proof. apply settled_with_mono, incl_appl, incl_refl. Qed.

Lemma recorded_app (view : string) (t : Prog string) (seen ls : list Label) :
  recorded view t seen -> recorded view t (seen ++ ls).
Proof. apply recorded_mono, incl_appl, incl_refl. Qed.

(** One task resumed: it remains a state of its call, what it lets
    observe is allowed, and its return is recorded. *)
Lemma resume_other (prompt view front : string) (seen : list Label)
  (t : Prog string) (o : Outcome) :
  settled_with views_front front seen -> In view other_views ->
  task_of prompt view (Some front) t -> recorded view t seen ->
  task_of prompt view (Some front) (fst (resume view t o)) /\
  recorded view (fst (resume view t o)) (seen ++ snd (resume view t o)) /\
  all_ok prompt seen (snd (resume view t o)).
Proof.
  intros Hf Hv Ht Hr.
  destruct (resume_task prompt view (Some front) t o Ht) as (H1 & H2 & H3).
  split; [exact H1 |]. split.
  - intros data Hd. destruct (H3 data Hd) as [-> | [Hin Ho]].
    + apply settled_with_app. now apply Hr.
    + exists o. split; [apply in_or_app; now right | exact Ho].
  - apply all_ok_each. intros l Hl.
    apply other_label_ok with view front; auto.
Qed.

(** The three conditioned tasks of a builder whose front view is
    [front]. *)
Definition pool (prompt front : string) (ts : tasks) (seen : list Label)
  : Prop :=
  exists tb tl tr,
    ts = [(views_back, tb); (views_left, tl); (views_right, tr)] /\
    (task_of prompt views_back (Some front) tb /\ recorded views_back tb seen) /\
    (task_of prompt views_left (Some front) tl /\ recorded views_left tl seen) /\
    (task_of prompt views_right (Some front) tr /\ recorded views_right tr seen).

Lemma pool_resume (prompt front : string) (ts : tasks) (seen : list Label)
  (i : nat) (o : Outcome) :
  settled_with views_front front seen -> pool prompt front ts seen ->
  pool prompt front (fst (resume_nth i o ts)) (seen ++ snd (resume_nth i o ts))
  /\ all_ok prompt seen (snd (resume_nth i o ts)).
Proof.
  intros Hf (tb & tl & tr & -> & [Hb Rb] & [Hl Rl] & [Hr Rr]).
  assert (Hi : forall ls : list Label, incl seen (seen ++ ls))
    by (intros ls; apply incl_appl, incl_refl).
  destruct i as [| [| [| i]]]; cbn [resume_nth].
  - destruct (resume_other prompt views_back front seen tb o Hf
                (or_introl eq_refl) Hb Rb) as (H1 & H2 & H3).
    destruct (resume views_back tb o) as [t' ls]. cbn [fst snd] in *.
    split; [| exact H3]. exists t', tl, tr.
    repeat split; auto using recorded_app.
  - destruct (resume_other prompt views_left front seen tl o Hf
                (or_intror (or_introl eq_refl)) Hl Rl) as (H1 & H2 & H3).
    destruct (resume views_left tl o) as [t' ls]. cbn [fst snd] in *.
    split; [| exact H3]. exists tb, t', tr.
    repeat split; auto using recorded_app.
  - destruct (resume_other prompt views_right front seen tr o Hf
                (or_intror (or_intror (or_introl eq_refl))) Hr Rr)
      as (H1 & H2 & H3).
    destruct (resume views_right tr o) as [t' ls]. cbn [fst snd] in *.
    split; [| exact H3]. exists tb, tl, t'.
    repeat split; auto using recorded_app.
  - assert (E : resume_nth i o [] = ([], [])) by now destruct i.
    rewrite E. cbn [fst snd]. split; [| exact I]. exists tb, tl, tr.
    repeat split; auto using recorded_app.
Qed.

(** What holds of a builder after the observations [seen]. *)
Definition builder_inv (prompt : string) (b : Builder) (seen : list Label)
  : Prop :=
  match b with
  | AwaitFront t => task_of prompt views_front None t /\ pending t
  | AwaitPause front => settled_with views_front front seen
  | AwaitAll front ts =>
      settled_with views_front front seen /\ pool prompt front ts seen
  | Finished r ts =>
      (ts = [] \/
       exists front,
         settled_with views_front front seen /\ pool prompt front ts seen) /\
      (forall images, r = Ok images -> In (LReturn images) seen)
  end.

Lemma join_inv (prompt front : string) (ts : tasks) (seen : list Label) :
  settled_with views_front front seen -> pool prompt front ts seen ->
  all_ok prompt seen (snd (join front ts)) /\
  builder_inv prompt (fst (join front ts)) (seen ++ snd (join front ts)).
Proof.
  intros Hf Hp. unfold join.
  destruct (first_thrown ts) as [e |]; cbn [fst snd].
  - split; [cbn; tauto |]. cbn [builder_inv]. split; [| discriminate].
    right. exists front.
    destruct Hp as (tb & tl & tr & -> & [Hb Rb] & [Hl Rl] & [Hr Rr]).
    split; [now apply settled_with_app |].
    exists tb, tl, tr.
    repeat split; auto using recorded_app.
  - destruct Hp as (tb & tl & tr & -> & [Hb Rb] & [Hl Rl] & [Hr Rr]).
    assert (Hkeep : builder_inv prompt
                      (AwaitAll front
                         [(views_back, tb); (views_left, tl); (views_right, tr)])
                      (seen ++ [])).
    { rewrite app_nil_r. split; [exact Hf |]. exists tb, tl, tr. now repeat split. }
    destruct tb as [b | | | |]; cbn [all_returned fst snd];
      try (split; [exact I | exact Hkeep]).
    destruct tl as [l | | | |]; cbn [all_returned fst snd];
      try (split; [exact I | exact Hkeep]).
    destruct tr as [r | | | |]; cbn [all_returned fst snd];
      try (split; [exact I | exact Hkeep]).
    split.
    + cbn [all_ok label_ok GeminiService.front GeminiService.back
           GeminiService.left GeminiService.right].
      split; [| exact I]. repeat split; auto.
    + cbn [builder_inv]. split.
      * right. exists front.
        split; [now apply settled_with_app |].
        exists (Ret b), (Ret l), (Ret r).
        repeat split; auto using recorded_app.
      * intros images H. injection H as <-. apply in_or_app. right. now left.
Qed.

Lemma conditioned_pool (prompt front : string) (seen : list Label) :
  pool prompt front (conditioned prompt front) seen.
Proof.
  exists (generateSingleView prompt views_back (Some front) default_retries),
    (generateSingleView prompt views_left (Some front) default_retries),
    (generateSingleView prompt views_right (Some front) default_retries).
  split; [reflexivity |].
  repeat split; try apply task_loop; intros data Hd; discriminate Hd.
Qed.

Lemma step_inv (prompt : string) (b : Builder) (seen : list Label)
  (i : nat) (o : Outcome) :
  builder_inv prompt b seen ->
  all_ok prompt seen (snd (step prompt b i o)) /\
  builder_inv prompt (fst (step prompt b i o)) (seen ++ snd (step prompt b i o)).
Proof.
  intros Hinv. destruct b as [t | front | front ts | r ts]; cbn [step].
  - destruct Hinv as [Ht Hpend].
    destruct (resume_task prompt views_front None t o Ht) as (H1 & H2 & H3).
    assert (Hls : all_ok prompt seen (snd (resume views_front t o))).
    { apply all_ok_each. intros l Hl. now apply front_label_ok, H2. }
    destruct (resume views_front t o) as [t' ls]. cbn [fst snd] in *.
    destruct t' as [front | e | req k | ms k | ev k]; cbn [fst snd].
    + split.
      * apply all_ok_app. split; [exact Hls | cbn; tauto].
      * cbn [builder_inv]. destruct (H3 front eq_refl) as [-> | [Hin Ho]].
        -- destruct Hpend.
        -- exists o. split; [| exact Ho].
           apply in_or_app. right. apply in_or_app. now left.
    + split.
      * apply all_ok_app. split; [exact Hls | cbn; tauto].
      * cbn [builder_inv]. split; [now left | discriminate].
    + split; [exact Hls |]. cbn [builder_inv]. split; [exact H1 | exact I].
    + split; [exact Hls |]. cbn [builder_inv]. split; [exact H1 | exact I].
    + exfalso. inversion H1 as [retries todo attempt last Heq | |].
      destruct todo; discriminate Heq.
  - cbn [builder_inv] in Hinv.
    pose proof (conditioned_pool prompt front seen) as Hp.
    assert (Hreq : all_ok prompt seen (announce_all (conditioned prompt front))).
    { apply all_ok_each. intros l Hl. cbn in Hl.
      destruct Hl as [<- | [<- | [<- | []]]].
      - apply other_label_ok with views_back front;
          [exact Hinv | cbn; auto | right; left; reflexivity].
      - apply other_label_ok with views_left front;
          [exact Hinv | cbn; auto | right; left; reflexivity].
      - apply other_label_ok with views_right front;
          [exact Hinv | cbn; auto | right; left; reflexivity]. }
    set (ls0 := announce_all (conditioned prompt front)) in *.
    assert (Hf' : settled_with views_front front (seen ++ ls0))
      by (now apply settled_with_app).
    assert (Hp' : pool prompt front (conditioned prompt front) (seen ++ ls0))
      by apply conditioned_pool.
    destruct (join_inv prompt front (conditioned prompt front) (seen ++ ls0)
                Hf' Hp') as [Hok Hb].
    destruct (join front (conditioned prompt front)) as [b' ls].
    cbn [fst snd] in *. split.
    + apply all_ok_app. split; assumption.
    + now rewrite app_assoc.
  - destruct Hinv as [Hf Hp].
    destruct (pool_resume prompt front ts seen i o Hf Hp) as [Hp' Hok].
    destruct (resume_nth i o ts) as [ts' ls]. cbn [fst snd] in *.
    assert (Hf' : settled_with views_front front (seen ++ ls))
      by (now apply settled_with_app).
    destruct (join_inv prompt front ts' (seen ++ ls) Hf' Hp') as [Hok' Hb].
    destruct (join front ts') as [b' ls']. cbn [fst snd] in *. split.
    + apply all_ok_app. split; assumption.
    + now rewrite app_assoc.
  - destruct Hinv as [Hts Hret].
    destruct Hts as [-> | (front & Hf & Hp)].
    + assert (E : resume_nth i o [] = ([], [])) by now destruct i.
      rewrite E. cbn [fst snd]. split; [exact I |]. cbn [builder_inv].
      split; [now left |]. intros images H. apply in_or_app. left. now apply Hret.
    + destruct (pool_resume prompt front ts seen i o Hf Hp) as [Hp' Hok].
      destruct (resume_nth i o ts) as [ts' ls]. cbn [fst snd] in *.
      split; [exact Hok |]. cbn [builder_inv]. split.
      * right. exists front. split; [| exact Hp'].
        now apply settled_with_app.
      * intros images H. apply in_or_app. left. now apply Hret.
Qed.

Lemma steps_inv (prompt : string) (schedule : list (nat * Outcome)) :
  forall b seen,
    builder_inv prompt b seen ->
    all_ok prompt seen (snd (steps prompt b schedule)) /\
    builder_inv prompt (fst (steps prompt b schedule))
      (seen ++ snd (steps prompt b schedule)).
Proof.
  induction schedule as [| [i o] r IH]; intros b seen Hinv; cbn [steps].
  - cbn [fst snd]. rewrite app_nil_r. now split.
  - destruct (step_inv prompt b seen i o Hinv) as [Hok Hb].
    destruct (step prompt b i o) as [b' ls]. cbn [fst snd] in *.
    destruct (IH b' (seen ++ ls)%list Hb) as [Hok' Hb'].
    destruct (steps prompt b' r) as [b'' ls']. cbn [fst snd] in *. split.
    + apply all_ok_app. split; assumption.
    + now rewrite app_assoc.
Qed.

(** C6. Whatever the order in which responses and timers arrive, what is
    observed of generateReferenceImages starts with the request of the
    front view, which carries no image; every request of another view is
    issued after a request of the front view has settled with an image,
    and carries that image as its only inline data; and the builder
    returns only after the back, left and right views have each settled
    with the image it returns for them. *)
Theorem reference_images_are_anchored_on_the_front_view
  (prompt : string) (schedule : list (nat * Outcome)) :
  let final := fst (generateReferenceImages prompt schedule) in
  let trace := snd (generateReferenceImages prompt schedule) in
  (exists rest,
      trace = LRequest views_front (view_request prompt views_front None) :: rest)
  /\
  contents (view_request prompt views_front None)
  = [Text (fullPrompt prompt views_front None)] /\
  (forall pre view req post,
      trace = (pre ++ LRequest view req :: post)%list ->
      (view = views_front /\
       req = view_request prompt views_front None /\
       contents req = [Text (fullPrompt prompt views_front None)]) \/
      (In view [views_back; views_left; views_right] /\
       exists front,
         settled_with views_front front pre /\
         req = view_request prompt view (Some front) /\
         contents req =
         [ InlineData "image/png" front;
           Text (fullPrompt prompt view (Some front)) ])) /\
  (forall pre images post,
      trace = (pre ++ LReturn images :: post)%list ->
      settled_with views_front (front images) pre /\
      settled_with views_back (back images) pre /\
      settled_with views_left (left images) pre /\
      settled_with views_right (right images) pre) /\
  (forall images ts,
      final = Finished (Ok images) ts -> In (LReturn images) trace).
Proof.
  intros final trace. subst final trace. unfold generateReferenceImages.
  set (t := generateSingleView prompt views_front None default_retries).
  assert (Ha : announce views_front t
               = [LRequest views_front (view_request prompt views_front None)])
    by reflexivity.
  assert (Hinv : builder_inv prompt (AwaitFront t) (announce views_front t)).
  { split; [apply task_loop | exact I]. }
  destruct (steps_inv prompt schedule (AwaitFront t) _ Hinv) as [Hok Hb].
  destruct (steps prompt (AwaitFront t) schedule) as [b ls].
  cbn [fst snd] in *.
  assert (Hall : all_ok prompt [] (announce views_front t ++ ls)).
  { apply all_ok_app. split; [| exact Hok].
    apply all_ok_each. intros l Hl. apply front_label_ok.
    now apply (announce_task prompt views_front None t (task_loop _ _ _ _ _ _ _)). }
  split; [rewrite Ha; now exists ls |]. split; [reflexivity |].
  split; [| split].
  - intros pre view req post E. rewrite E in Hall.
    exact (all_ok_at prompt pre _ post Hall).
  - intros pre images post E. rewrite E in Hall.
    exact (all_ok_at prompt pre _ post Hall).
  - intros images ts ->. destruct Hb as [_ Hret]. now apply Hret.
Qed.

Lemma reference_images_are_anchored_on_the_front_view_witness :
  let schedule := [(0, text_response "no"); (0, text_response "timer");
                   (0, image_response "F"); (0, text_response "timer")] in
  let pre := [ LRequest views_front (view_request "a cat" views_front None);
               LSettle views_front (text_response "no"); LDelay 1000;
               LRequest views_front (view_request "a cat" views_front None);
               LSettle views_front (image_response "F"); LDelay 200 ] in
  let req := view_request "a cat" views_back (Some "F") in
  settled_with views_front "F" pre /\
  contents req =
  [InlineData "image/png" "F"; Text (fullPrompt "a cat" views_back (Some "F"))].
Proof.
  intros schedule pre req.
  destruct (proj1 (proj2 (proj2
              (reference_images_are_anchored_on_the_front_view "a cat" schedule)))
              pre views_back req
              [ LRequest views_left (view_request "a cat" views_left (Some "F"));
                LRequest views_right (view_request "a cat" views_right (Some "F")) ]
              eq_refl)
    as [(Hv & _) | (_ & f & Hs & Hr & Hc)].
  - discriminate Hv.
  - assert (Hf : f = "F").
    { unfold req in Hc.
      cbn [contents view_request view_parts provided app] in Hc.
      now injection Hc as -> _. }
    subst f. split; [exact Hs | exact Hc].
Defined.

(** A run in which the right view answers first and the back view needs a
    second attempt: the builder returns the four images once the back
    view, the last one, has settled. *)
Example builder_returns_the_four_views :
  let schedule :=
    [ (0, image_response "F"); (0, text_response "timer");
      (2, image_response "R"); (1, image_response "L");
      (0, text_response "no"); (0, text_response "timer");
      (0, image_response "B") ] in
  let images := mkImages "F" "B" "L" "R" in
  let r := generateReferenceImages "a cat" schedule in
  fst r =
  Finished (Ok images)
    [(views_back, Ret "B"); (views_left, Ret "L"); (views_right, Ret "R")] /\
  firstn 2 (rev (snd r)) =
  [LReturn images; LSettle views_back (image_response "B")].
Proof. split; vm_compute; reflexivity. Qed.

(** * Further properties *)

(** ** The image client, for any number of retries *)

Lemma run_attempt_succeeds (env : Env) (n : nat) (prompt view : string)
  (ref : option string) (retries todo attempt : nat) (last : option string)
  (data : string) :
  let req := view_request prompt view ref in
  outcome_image (env n req) = Some data ->
  run env n (attempt_loop prompt view ref retries (S todo) attempt last) =
  ([Call req (env n req)], Ok data).
Proof.
  intros req H. cbn [attempt_loop run]. fold req.
  destruct (env n req) as [response | message]; [| discriminate H].
  cbn [outcome_image] in H. rewrite H. reflexivity.
Qed.




Lemma attempt_loop_first_success (env : Env) (prompt view : string)
  (ref : option string) (retries : nat) (data : string) :
  forall k todo attempt n last,
    k < todo -> attempt + todo = retries + 1 ->
    let req := view_request prompt view ref in
    (forall j, j < k -> yields_image (env (n + j) req) = false) ->
    outcome_image (env (n + k) req) = Some data ->
    let r := run env n (attempt_loop prompt view ref retries todo attempt last) in
    requests (fst r) = repeat req (S k) /\
    sleeps (fst r) = map waitTime (seq attempt k) /\
    snd r = Ok data /\
    exists before, fst r = (before ++ [Call req (env (n + k) req)])%list.
Proof.
  induction k as [| k IH]; intros todo attempt n last Hk Hsum req Hfail Hok r;
    subst r; (destruct todo as [| todo]; [lia |]).
  - replace (n + 0) with n in * by lia.
    rewrite (run_attempt_succeeds env n prompt view ref retries todo attempt
               last data Hok).
    repeat split. now exists [].
  - rewrite run_attempt_fails
      by (specialize (Hfail 0 ltac:(lia)); now replace (n + 0) with n in Hfail by lia).
    cbv zeta. fold req.
    assert (Hlt : Nat.ltb attempt retries = true) by (apply Nat.ltb_lt; lia).
    rewrite Hlt.
    specialize (IH todo (S attempt) (S n)
                  (Some (caught_message view (env n req)))
                  ltac:(lia) ltac:(lia)).
    cbv zeta in IH. fold req in IH.
    destruct IH as (Hr & Hs & He & before & Hb).
    + intros j Hj. replace (S n + j) with (n + S j) by lia. apply Hfail. lia.
    + now replace (S n + k) with (n + S k) by lia.
    + cbn [fst snd requests sleeps]. rewrite Hr, Hs, He. repeat split.
      exists (Call req (env n req) :: Sleep (waitTime attempt) :: before).
      rewrite Hb. now replace (S n + k) with (n + S k) by lia.
Qed.

(** X2. The first attempt that gets an image ends the call: when the
    first [k] attempts fail and the next one, still within the retries,
    answers with an image, generateSingleView returns that image after
    exactly [k + 1] requests and [k] sleeps of 1000 ms doubled each time;
    the successful request is the last thing it does. *)
Theorem generateSingleView_returns_first_image
  (env : Env) (n : nat) (prompt view : string) (ref : option string)
  (retries k : nat) (data : string) :
  k < retries ->
  let req := view_request prompt view ref in
  (forall j, j < k -> yields_image (env (n + j) req) = false) ->
  outcome_image (env (n + k) req) = Some data ->
  let r := run env n (generateSingleView prompt view ref retries) in
  snd r = Ok data /\
  requests (fst r) = repeat req (S k) /\
  sleeps (fst r) = map (fun a => 1000 * 2 ^ (a - 1)) (seq 1 k) /\
  exists before, fst r = (before ++ [Call req (env (n + k) req)])%list.
Proof.
  intros Hk req Hfail Hok r. subst r. unfold generateSingleView.
  destruct (attempt_loop_first_success env prompt view ref retries data
              k retries 1 n None Hk ltac:(lia) Hfail Hok)
    as (Hr & Hs & He & Hb).
  split; [exact He |]. split; [exact Hr |]. split; [exact Hs | exact Hb].
Qed.

Lemma generateSingleView_returns_first_image_witness :
  let env : Env :=
    fun n _ => if Nat.eqb n 2 then image_response "AAA" else Rejected "busy" in
  let req := view_request "a cat" views_left (Some "F") in
  let r := run env 0 (generateSingleView "a cat" views_left (Some "F") 3) in
  snd r = Ok "AAA" /\
  requests (fst r) = [req; req; req] /\
  sleeps (fst r) = [1000; 2000] /\
  exists before, fst r = (before ++ [Call req (image_response "AAA")])%list.
Proof.
  intros env.
  apply (generateSingleView_returns_first_image env 0 "a cat" views_left
           (Some "F") 3 2 "AAA").
  - lia.
  - intros [| [| j]] Hj; [reflexivity | reflexivity | lia].
  - reflexivity.
Defined.

(** ** Every run of the workflow *)

Lemma cleanAndParseJSON_error (t : string) (e : JsError) :
  cleanAndParseJSON t = Err e -> ladder_exhausted t /\ e = unrecoverable.
Proof.
  unfold cleanAndParseJSON, ladder_exhausted.
  destruct (parse (cleanText t)); [discriminate |].
  destruct (parse (repairedText (cleanText t))); [discriminate |].
  destruct (closedText (repairedText (cleanText t))) as [closed |].
  - destruct (parse closed); [discriminate |]. intros H. now injection H as <-.
  - intros H. now injection H as <-.
Qed.

(** The [length] of [shapes] is there and cannot be converted to a
    string. *)
Definition length_unconvertible (ToString : json -> option string)
  (sceneData : json) : Prop :=
  exists ms v,
    field key_shapes sceneData = Some (JObject ms) /\
    obj_get key_length ms = Some v /\ ToString v = None.

Lemma shapes_length_error (ToString : json -> option string)
  (sceneData : json) (e : JsError) :
  shapes_length ToString sceneData = Err e ->
  e = TypeError /\
  (field key_shapes sceneData = None \/
   field key_shapes sceneData = Some JNull \/
   length_unconvertible ToString sceneData).
Proof.
  unfold shapes_length, length_unconvertible, field.
  destruct sceneData as [| | | | | members];
    try (intros H; injection H as <-; auto).
  destruct (obj_get key_shapes members) as [[| | | | | ms] |];
    try discriminate; try (intros H; injection H as <-; auto).
  destruct (obj_get key_length ms) as [v |] eqn:Hl; [| discriminate].
  destruct (ToString v) as [s |] eqn:Hv; [discriminate |].
  intros H. injection H as <-. split; [reflexivity |].
  right; right. now exists ms, v.
Qed.

(** The converse for the conversion: a [length] that cannot be converted
    makes the template literal throw. *)
Lemma shapes_length_unconvertible (ToString : json -> option string)
  (sceneData : json) :
  length_unconvertible ToString sceneData ->
  shapes_length ToString sceneData = Err TypeError.
Proof.
  intros (ms & v & Hs & Hl & Hv). unfold shapes_length, field in *.
  destruct sceneData as [| | | | | members]; try discriminate Hs.
  now rewrite Hs, Hl, Hv.
Qed.

(** X3. A run of the workflow has one of two shapes.  It issues the
    analysis request and the modelling request, in that order and nothing
    else; then either it fails, having emitted the two events of stage 1
    and the opening event of stage 2 and slept 800 and 500 ms, or it
    completes, having emitted the eight events and slept six times, 5100 ms
    in all. *)
Theorem workflow_run_has_two_shapes
  (ToString : json -> option string) (env : Env) (prompt : string)
  (images : ReferenceImages) :
  let r := workflow_run ToString env prompt images in
  requests (fst r) =
  [analysis_request prompt images; stage2_request env prompt images] /\
  ((exists e,
       snd r = Err e /\
       events (fst r) = [stage1_start; stage1_done; stage2_start] /\
       sleeps (fst r) = [800; 500]) \/
   (exists n scene,
       snd r = Ok tt /\
       events (fst r) =
       [ stage1_start; stage1_done; stage2_start; stage2_done n scene;
         stage3_start; stage3_done scene; stage4_start;
         stage4_done (finalSceneData scene) ] /\
       sleeps (fst r) = [800; 500; 800; 1200; 800; 1000] /\
       fold_right Nat.add 0 (sleeps (fst r)) = 51 * 100)).
Proof.
  intros r. subst r. rewrite workflow_run_unfold. cbn [fst snd].
  unfold after_model.
  destruct (model_outcome env prompt images) as [response | message].
  - destruct (text response) as [t |].
    + destruct (cleanAndParseJSON t) as [scene | e].
      * destruct (shapes_length ToString scene) as [n | e].
        -- split; [reflexivity |]. right. exists n, scene. repeat split.
        -- split; [reflexivity |]. left. exists e. repeat split.
      * split; [reflexivity |]. left. exists e. repeat split.
    + split; [reflexivity |]. left. eexists. repeat split.
  - split; [reflexivity |]. left. eexists. repeat split.
Qed.

(** X4. What makes a run fail, and with which error: a run fails with
    [e] exactly when the modelling request is rejected, [e] carrying its
    message; or its response has no text, with a TypeError; or the text
    defeats the repair ladder, with the ladder's error; or the parsed
    value has no member [shapes] or a null one, with a TypeError; or
    [shapes] is an object whose [length] cannot be converted to a string,
    with a TypeError.  The analysis request is never the cause. *)
Theorem workflow_failure_causes
  (ToString : json -> option string) (env : Env) (prompt : string)
  (images : ReferenceImages) (e : JsError) :
  snd (workflow_run ToString env prompt images) = Err e <->
  (exists message,
      model_outcome env prompt images = Rejected message /\
      e = Error message) \/
  (exists response,
      model_outcome env prompt images = Resolved response /\
      text response = None /\ e = TypeError) \/
  (exists response t,
      model_outcome env prompt images = Resolved response /\
      text response = Some t /\ ladder_exhausted t /\ e = unrecoverable) \/
  (exists response t sceneData,
      model_outcome env prompt images = Resolved response /\
      text response = Some t /\ cleanAndParseJSON t = Ok sceneData /\
      (field key_shapes sceneData = None \/
       field key_shapes sceneData = Some JNull) /\
      e = TypeError) \/
  (exists response t sceneData ms v,
      model_outcome env prompt images = Resolved response /\
      text response = Some t /\ cleanAndParseJSON t = Ok sceneData /\
      field key_shapes sceneData = Some (JObject ms) /\
      obj_get key_length ms = Some v /\ ToString v = None /\
      e = TypeError).
Proof.
  rewrite workflow_run_unfold. cbn [snd]. unfold after_model. split.
  - destruct (model_outcome env prompt images) as [response | message].
    + destruct (text response) as [t |] eqn:Ht.
      * destruct (cleanAndParseJSON t) as [scene | e'] eqn:Hp.
        -- destruct (shapes_length ToString scene) as [n | e'] eqn:Hn;
             [discriminate |].
           cbn. intros H. injection H as <-.
           destruct (shapes_length_error ToString scene e' Hn)
             as [-> [Hs | [Hs | (ms & v & Hs & Hl & Hv)]]].
           ++ right; right; right; left. exists response, t, scene.
              split; [reflexivity |]. split; [exact Ht |].
              split; [exact Hp |]. split; [now left | reflexivity].
           ++ right; right; right; left. exists response, t, scene.
              split; [reflexivity |]. split; [exact Ht |].
              split; [exact Hp |]. split; [now right | reflexivity].
           ++ right; right; right; right.
              exists response, t, scene, ms, v.
              split; [reflexivity |]. split; [exact Ht |].
              split; [exact Hp |]. now repeat split.
        -- cbn. intros H. injection H as <-.
           destruct (cleanAndParseJSON_error t e' Hp) as [Hl ->].
           right; right; left. exists response, t. auto.
      * cbn. intros H. injection H as <-. right; left. exists response. auto.
    + cbn. intros H. injection H as <-. left. exists message. auto.
  - intros [(message & -> & ->)
           | [(response & -> & -> & ->)
             | [(response & t & -> & -> & Hl & ->)
               | [(response & t & scene & -> & -> & -> & Hs & ->)
                 | (response & t & scene & ms & v & -> & -> & -> & Hs & Hl
                    & Hv & ->)]]]].
    + reflexivity.
    + reflexivity.
    + now rewrite (ladder_exhausted_throws t Hl).
    + assert (E : shapes_length ToString scene = Err TypeError).
      { unfold shapes_length, field in *.
        destruct scene as [| | | | | members]; try reflexivity.
        destruct Hs as [-> | ->]; reflexivity. }
      now rewrite E.
    + assert (E : shapes_length ToString scene = Err TypeError).
      { apply shapes_length_unconvertible. now exists ms, v. }
      now rewrite E.
Qed.

(** Two failing runs: a scene whose [shapes] is null, found among the
    causes; and a scene whose [shapes.length] is an object with a
    [toString] that is no function, under a conversion that refuses
    objects. *)
Lemma workflow_failure_causes_witness :
  let env := scripted (text_response "A box.") (quoted "{'shapes':null}") in
  let env' :=
    scripted (text_response "A box.")
      (quoted "{'shapes':{'length':{'toString':1}}}") in
  let refusing (v : json) : option string :=
    match v with JObject _ => None | _ => Some EmptyString end in
  (exists response t sceneData,
      model_outcome env "a cat" sample_images = Resolved response /\
      text response = Some t /\ cleanAndParseJSON t = Ok sceneData /\
      field key_shapes sceneData = Some JNull) /\
  snd (workflow_run refusing env' "a cat" sample_images) = Err TypeError /\
  events (fst (workflow_run refusing env' "a cat" sample_images))
  = [stage1_start; stage1_done; stage2_start].
Proof.
  intros env env' refusing. split; [| split].
  - destruct (proj1 (workflow_failure_causes blank_text env "a cat"
                       sample_images TypeError)
                ltac:(vm_compute; reflexivity))
      as [(m & H & _)
         | [(r & H & Ht & _)
           | [(r & t & H & Ht & Hl & He)
             | [(r & t & s & H & Ht & Hp & Hs & _)
               | (r & t & s & ms & v & H & Ht & Hp & Hs & Hl & Hv & _)]]]].
    + discriminate H.
    + vm_compute in H. injection H as <-. discriminate Ht.
    + discriminate He.
    + exists r, t, s. repeat (split; [assumption |]).
      destruct Hs as [Hs | Hs]; [| exact Hs].
      vm_compute in H. injection H as <-.
      cbn [text] in Ht. injection Ht as <-.
      vm_compute in Hp. injection Hp as <-. discriminate Hs.
    + discriminate Hv.
  - apply (proj2 (workflow_failure_causes refusing env' "a cat"
                    sample_images TypeError)).
    right; right; right; right.
    eexists _, _, _, _, _. split; [vm_compute; reflexivity |].
    split; [reflexivity |]. split; [vm_compute; reflexivity |].
    split; [reflexivity |]. split; [reflexivity |]. split; reflexivity.
  - vm_compute. reflexivity.
Defined.

(** X5. The workflow reads only the front and the left image of the
    reference set: two sets that agree on those two give the same run,
    whatever their back and right images. *)
Theorem workflow_reads_front_and_left_only
  (ToString : json -> option string) (env : Env) (prompt : string)
  (images images' : ReferenceImages) :
  front images = front images' ->
  left images = left images' ->
  workflow_run ToString env prompt images
  = workflow_run ToString env prompt images'.
Proof.
  intros Hf Hl. destruct images as [f b l r], images' as [f' b' l' r'].
  cbn in Hf, Hl. subst f' l'. reflexivity.
Qed.

Lemma workflow_reads_front_and_left_only_witness :
  workflow_run blank_text (scripted (Rejected "offline") "{}") "a cat"
    (mkImages "F" "B" "L" "R")
  = workflow_run blank_text (scripted (Rejected "offline") "{}") "a cat"
      (mkImages "F" "" "L" "other").
Proof.
  apply (workflow_reads_front_and_left_only blank_text
           (scripted (Rejected "offline") "{}") "a cat"
           (mkImages "F" "B" "L" "R") (mkImages "F" "" "L" "other"));
    reflexivity.
Defined.

(** X6. Without a reference set generateSceneFromPrompt throws
    "Reference images required" before any request.  With one, it fails
    exactly when the workflow fails, with the workflow's own error, and
    otherwise returns a scene: its own error "Failed to generate scene"
    is never raised. *)
Theorem batch_fails_as_the_workflow_does
  (ToString : json -> option string) (env : Env) (prompt : string)
  (images : ReferenceImages) :
  run env 0 (generateSceneFromPrompt ToString prompt None)
  = ([], Err (Error "Reference images required")) /\
  (forall e,
      snd (workflow_run ToString env prompt images) = Err e <->
      snd (batch_run ToString env prompt images) = Err e) /\
  (snd (workflow_run ToString env prompt images) = Ok tt <->
   exists config, snd (batch_run ToString env prompt images) = Ok config).
Proof.
  split; [reflexivity |].
  assert (Hb : snd (batch_run ToString env prompt images) =
               match snd (workflow_run ToString env prompt images) with
               | Err e => Err e
               | Ok _ =>
                   match fold_left keep
                           (events (fst (workflow_run ToString env prompt images)))
                           None with
                   | Some c => Ok c
                   | None => Err (Error "Failed to generate scene")
                   end
               end).
  { unfold batch_run, generateSceneFromPrompt. now rewrite run_collect. }
  destruct (snd (workflow_run ToString env prompt images)) as [[] | e0] eqn:Hw.
  - destruct (workflow_run_ok_inv ToString env prompt images Hw)
      as (response & t & n & members & shapes & _ & _ & _ & _ & _ & Hrun).
    assert (Hk : fold_left keep
                   (events (fst (workflow_run ToString env prompt images))) None
                 = Some (finalSceneData (JObject members)))
      by (rewrite Hrun; reflexivity).
    rewrite Hk in Hb. rewrite Hb. split.
    + intros e. split; discriminate.
    + split; [eauto | reflexivity].
  - rewrite Hb. split.
    + intros e. split; intros H; injection H as <-; reflexivity.
    + split; [discriminate | intros [c Hc]; discriminate Hc].
Qed.

Lemma batch_fails_as_the_workflow_does_witness :
  let env := scripted (Rejected "offline") "no json here" in
  snd (workflow_run blank_text env "a cat" sample_images)
  = Err unrecoverable /\
  snd (batch_run blank_text env "a cat" sample_images)
  = Err unrecoverable.
Proof.
  intros env.
  assert (H : snd (workflow_run blank_text env "a cat"
                     sample_images) = Err unrecoverable)
    by (vm_compute; reflexivity).
  split; [exact H |].
  destruct (batch_fails_as_the_workflow_does blank_text env
              "a cat" sample_images) as (_ & Hiff & _).
  apply (proj1 (Hiff unrecoverable)). exact H.
Defined.

(** ** More on the repair ladder *)

Lemma count_char_append (c : ascii) (a b : string) :
  count_char c (a ++ b) = count_char c a + count_char c b.
Proof.
  induction a as [| x a IH]; cbn [append count_char]; [reflexivity |].
  rewrite IH. lia.
Qed.

Lemma count_char_repeat_same (c : ascii) (n : nat) :
  count_char c (repeat_char c n) = n.
Proof.
  induction n as [| n IH]; cbn [repeat_char count_char]; [reflexivity |].
  rewrite Ascii.eqb_refl, IH. reflexivity.
Qed.

Lemma count_char_repeat_other (c d : ascii) (n : nat) :
  Ascii.eqb d c = false -> count_char c (repeat_char d n) = 0.
Proof.
  intros H. induction n as [| n IH]; cbn [repeat_char count_char];
    [reflexivity |].
  now rewrite H, IH.
Qed.

(** X7. The text handed to the third parse is balanced as far as counting
    goes: the openers are those of the truncated prefix, and each kind of
    closer occurs as often as its opener, or as often as it already did
    when the prefix had closers in excess.  It never has more openers than
    closers. *)
Theorem closedText_is_balanced (repaired closed : string) :
  closedText repaired = Some closed ->
  exists i truncated,
    lastIndexOf "}" repaired = Some i /\
    truncated = substring_to (i + 1) repaired /\
    count_char "[" closed = count_char "[" truncated /\
    count_char "{" closed = count_char "{" truncated /\
    count_char "]" closed
    = Nat.max (count_char "[" truncated) (count_char "]" truncated) /\
    count_char "}" closed
    = Nat.max (count_char "{" truncated) (count_char "}" truncated) /\
    count_char "[" closed <= count_char "]" closed /\
    count_char "{" closed <= count_char "}" closed.
Proof.
  unfold closedText. destruct (lastIndexOf "}" repaired) as [i |];
    [| discriminate].
  intros H. injection H as <-. exists i, (substring_to (i + 1) repaired).
  split; [reflexivity |]. split; [reflexivity |].
  set (t := substring_to (i + 1) repaired).
  rewrite !count_char_append.
  rewrite !count_char_repeat_same.
  rewrite !count_char_repeat_other by reflexivity.
  repeat split; lia.
Qed.

Lemma closedText_is_balanced_witness :
  exists i truncated,
    lastIndexOf "}" (quoted "{'a':[[{'b':1}, {'c':") = Some i /\
    truncated = substring_to (i + 1) (quoted "{'a':[[{'b':1}, {'c':") /\
    count_char "[" (quoted "{'a':[[{'b':1}]]}") = count_char "[" truncated /\
    count_char "{" (quoted "{'a':[[{'b':1}]]}") = count_char "{" truncated /\
    count_char "]" (quoted "{'a':[[{'b':1}]]}")
    = Nat.max (count_char "[" truncated) (count_char "]" truncated) /\
    count_char "}" (quoted "{'a':[[{'b':1}]]}")
    = Nat.max (count_char "{" truncated) (count_char "}" truncated) /\
    count_char "[" (quoted "{'a':[[{'b':1}]]}")
    <= count_char "]" (quoted "{'a':[[{'b':1}]]}") /\
    count_char "{" (quoted "{'a':[[{'b':1}]]}")
    <= count_char "}" (quoted "{'a':[[{'b':1}]]}").
Proof.
  apply (closedText_is_balanced (quoted "{'a':[[{'b':1}, {'c':")
           (quoted "{'a':[[{'b':1}]]}")).
  vm_compute. reflexivity.
Defined.

(** *** An opening brace makes the answer an object *)

Definition bottom_is_object (st : list frame) : bool :=
  match last st (FArr []) with
  | FObj _ _ => true
  | FArr _ => false
  end.

(** The parser is inside a top-level object, or has just closed one. *)
Definition in_object (ps : pstate) : Prop :=
  bottom_is_object (fst ps) = true \/
  (fst ps = [] /\ exists members, snd ps = EDone (JObject members)).

Lemma bottom_is_object_cons (f g : frame) (st : list frame) :
  bottom_is_object (f :: g :: st) = bottom_is_object (g :: st).
Proof. reflexivity. Qed.

Lemma push_value_in_object (v : json) (st : list frame) (ps : pstate) :
  bottom_is_object st = true -> push_value v st = Some ps -> in_object ps.
Proof.
  intros Hb. destruct st as [| [es | ms [k |]] st']; cbn [push_value];
    try discriminate.
  - intros H. injection H as <-. left. cbn [fst].
    destruct st' as [| g st']; [discriminate Hb | exact Hb].
  - intros H. injection H as <-. left. cbn [fst].
    destruct st' as [| g st']; [reflexivity | exact Hb].
Qed.

Lemma parse_step_in_object (ps ps' : pstate) (t : token) :
  in_object ps -> parse_step ps t = Some ps' -> in_object ps'.
Proof.
  destruct ps as [st ex]. intros [Hb | [Hst [ms Hex]]]; cbn [fst snd] in *.
  - destruct t; cbn [parse_step].
    + destruct (wants_value ex); [| discriminate].
      intros H. injection H as <-. left. cbn [fst].
      destruct st; [discriminate Hb | exact Hb].
    + destruct ex, st as [| [es | ms0 [k |]] st']; try discriminate;
        intros H;
        (destruct st' as [| g st'];
         [ try discriminate Hb; cbn in H; injection H as <-; right;
           cbn [fst snd]; eauto
         | apply (push_value_in_object (JObject ms0) (g :: st')); auto ]).
    + destruct (wants_value ex); [| discriminate].
      intros H. injection H as <-. left. cbn [fst].
      destruct st; [discriminate Hb | exact Hb].
    + destruct ex, st as [| [es | ms0 [k |]] st']; try discriminate;
        intros H;
        (destruct st' as [| g st'];
         [ discriminate Hb
         | apply (push_value_in_object (JArray (rev es)) (g :: st')); auto ]).
    + destruct ex; try discriminate. intros H. injection H as <-. now left.
    + destruct ex, st as [| [es | ms0 [k |]] st']; try discriminate;
        intros H; injection H as <-; now left.
    + destruct ex, st as [| [es | ms0 [k |]] st']; try discriminate;
        intros H;
        try (apply (push_value_in_object _ _ _ Hb H));
        injection H as <-; left; cbn [fst];
        (destruct st' as [| g st']; [reflexivity | exact Hb]).
    + destruct (wants_value ex); [| discriminate].
      now apply push_value_in_object.
    + destruct (wants_value ex); [| discriminate].
      now apply push_value_in_object.
    + destruct (wants_value ex); [| discriminate].
      now apply push_value_in_object.
    + destruct (wants_value ex); [| discriminate].
      now apply push_value_in_object.
  - subst st ex. destruct t; discriminate.
Qed.

Lemma parse_tokens_in_object (ts : list token) :
  forall ps v,
    in_object ps -> parse_tokens ps ts = Some v ->
    exists members, v = JObject members.
Proof.
  induction ts as [| t ts IH]; intros ps v Hin; cbn [parse_tokens].
  - destruct ps as [[| f st] ex]; [| discriminate].
    destruct Hin as [Hb | [_ [ms Hex]]]; [cbn in Hb; discriminate Hb |].
    cbn [snd] in Hex. subst ex. intros H. injection H as <-. now exists ms.
  - destruct (parse_step ps t) as [ps' |] eqn:E; [| discriminate].
    apply IH. now apply parse_step_in_object with ps t.
Qed.

(** A text that starts with an opening brace parses to an object. *)
Lemma parse_brace_is_object (r : string) (v : json) :
  parse (String "{" r) = Some v -> exists members, v = JObject members.
Proof.
  unfold parse. cbn [lex]. change (lex_step Idle "{") with (Some ([TLBrace], Idle)).
  cbv iota beta. destruct (lex Idle r) as [ts |]; [| discriminate].
  cbn [app parse_tokens parse_step wants_value].
  apply parse_tokens_in_object. now left.
Qed.

Lemma indexOf_none_count (c : ascii) (s : string) :
  indexOf c s = None <-> count_char c s = 0.
Proof.
  induction s as [| a r IH]; cbn [indexOf count_char]; [tauto |].
  destruct (Ascii.eqb a c).
  - split; [discriminate | lia].
  - destruct (indexOf c r).
    + split; [discriminate |]. intros H. cbn in H. apply IH in H. discriminate.
    + cbn. tauto.
Qed.

Lemma indexOf_substring_from (c : ascii) (s : string) :
  forall i, indexOf c s = Some i -> exists r, substring_from i s = String c r.
Proof.
  induction s as [| a r IH]; intros i H; cbn [indexOf] in H; [discriminate |].
  destruct (Ascii.eqb a c) eqn:E.
  - injection H as <-. apply Ascii.eqb_eq in E. subst a. now exists r.
  - destruct (indexOf c r) as [j |]; [| discriminate]. injection H as <-.
    cbn [substring_from]. now apply IH.
Qed.

Lemma strip_prefix_app (p s r : string) :
  strip_prefix p s = Some r -> s = p ++ r.
Proof.
  revert s. induction p as [| a p IH]; intros s H; cbn in H.
  - now injection H as ->.
  - destruct s as [| b s]; [discriminate |].
    destruct (Ascii.eqb a b) eqn:E; [| discriminate].
    apply Ascii.eqb_eq in E. subst b. cbn. now rewrite (IH s H).
Qed.

Lemma count_char_skip_space (c : ascii) (s : string) :
  is_space c = false -> count_char c (skip_space s) = count_char c s.
Proof.
  intros Hc. induction s as [| a r IH]; cbn [skip_space]; [reflexivity |].
  destruct (is_space a) eqn:Ha; [| reflexivity].
  cbn [count_char]. destruct (Ascii.eqb a c) eqn:E; [| exact IH].
  apply Ascii.eqb_eq in E. subst a. congruence.
Qed.

Lemma count_char_all_space (c : ascii) (s : string) :
  is_space c = false -> all_space s = true -> count_char c s = 0.
Proof.
  intros Hc. induction s as [| a r IH]; cbn [all_space count_char];
    [reflexivity |].
  intros H. apply andb_prop in H as [Ha Hr].
  destruct (Ascii.eqb a c) eqn:E; [| now apply IH].
  apply Ascii.eqb_eq in E. subst a. congruence.
Qed.

Lemma count_char_trim_end (c : ascii) (s : string) :
  is_space c = false -> count_char c (trim_end s) = count_char c s.
Proof.
  intros Hc. induction s as [| a r IH]; [reflexivity |].
  cbn [trim_end]. destruct (all_space (String a r)) eqn:Hs.
  - now rewrite (count_char_all_space c _ Hc Hs).
  - cbn [count_char]. now rewrite IH.
Qed.

Lemma count_char_trim (c : ascii) (s : string) :
  is_space c = false -> count_char c (trim s) = count_char c s.
Proof.
  intros Hc. unfold trim.
  now rewrite count_char_trim_end, count_char_skip_space.
Qed.

(** Removing fences removes no brace. *)
Lemma re_fence_keeps_braces (s r : string) :
  re_fence s = Some r -> count_char "{" r = count_char "{" s.
Proof.
  unfold re_fence. destruct (strip_prefix "```json" s) as [r0 |] eqn:E.
  - intros H. injection H as <-. apply strip_prefix_app in E. subst s.
    rewrite count_char_skip_space by reflexivity.
    now rewrite count_char_append.
  - intros H. apply strip_prefix_app in H.
    rewrite <- (count_char_skip_space "{" s) by reflexivity.
    rewrite H. now rewrite count_char_append.
Qed.

Lemma replace_fence_keeps_braces (s : string) :
  count_char "{" (replace_all re_fence "" s) = count_char "{" s.
Proof.
  unfold replace_all. generalize (String.length s). intros b. revert s.
  induction b as [| b IH]; intros s; cbn [replace_go]; [reflexivity |].
  destruct s as [| c r]; [reflexivity |].
  destruct (re_fence (String c r)) as [rest |] eqn:E.
  - cbn [append]. rewrite IH. now apply re_fence_keeps_braces.
  - cbn [count_char]. now rewrite IH.
Qed.

Lemma cleanText_starts_with_brace (text : string) :
  indexOf "{" text <> None -> exists r, cleanText text = String "{" r.
Proof.
  intros H. unfold cleanText.
  destruct (indexOf "{" (trim (replace_all re_fence "" text))) as [i |] eqn:E.
  - now apply indexOf_substring_from.
  - exfalso. apply H. apply indexOf_none_count.
    apply indexOf_none_count in E.
    rewrite count_char_trim in E by reflexivity.
    now rewrite replace_fence_keeps_braces in E.
Qed.

Lemma repairedText_keeps_head (r : string) :
  exists r', repairedText (String "{" r) = String "{" r'.
Proof.
  unfold repairedText, replace_all. cbn [String.length replace_go].
  change (re_gap "}" "{" (String "{" r)) with (@None string). cbv iota.
  cbn [String.length replace_go].
  match goal with
  | |- context [re_gap "," "}" (String "{" ?x)] =>
      change (re_gap "," "}" (String "{" x)) with (@None string)
  end.
  cbv iota. cbn [String.length replace_go].
  match goal with
  | |- context [re_gap "," "]" (String "{" ?x)] =>
      change (re_gap "," "]" (String "{" x)) with (@None string)
  end.
  cbv iota. eauto.
Qed.

Lemma closedText_keeps_head (r closed : string) :
  closedText (String "{" r) = Some closed ->
  exists r', closed = String "{" r'.
Proof.
  unfold closedText. destruct (lastIndexOf "}" (String "{" r)) as [i |];
    [| discriminate].
  intros H. injection H as <-. replace (i + 1) with (S i) by lia.
  cbn [substring_to append]. eauto.
Qed.

(** X8. When the text holds an opening brace, whatever cleanAndParseJSON
    returns is an object: never an array, a string, a number, a boolean or
    null. *)
Theorem cleanAndParseJSON_returns_an_object (text : string) (v : json) :
  indexOf "{" text <> None ->
  cleanAndParseJSON text = Ok v ->
  exists members, v = JObject members.
Proof.
  intros Hb. destruct (cleanText_starts_with_brace text Hb) as [r Hr].
  unfold cleanAndParseJSON. rewrite Hr.
  destruct (parse (String "{" r)) as [v0 |] eqn:E1.
  { intros H. injection H as <-. now apply parse_brace_is_object with r. }
  destruct (repairedText_keeps_head r) as [r' Hr'].
  rewrite Hr'. destruct (parse (String "{" r')) as [v1 |] eqn:E2.
  { intros H. injection H as <-. now apply parse_brace_is_object with r'. }
  destruct (closedText (String "{" r')) as [closed |] eqn:E3; [| discriminate].
  destruct (closedText_keeps_head r' closed E3) as [r'' ->].
  destruct (parse (String "{" r'')) as [v2 |] eqn:E4; [| discriminate].
  intros H. injection H as <-. now apply parse_brace_is_object with r''.
Qed.

Lemma cleanAndParseJSON_returns_an_object_witness :
  let text := quoted "Sure! [see below] {'a': [1, 2,], }" in
  exists v members, cleanAndParseJSON text = Ok v /\ v = JObject members.
Proof.
  intros text. exists (JObject [(units "a", JArray [JNumber 1 0; JNumber 2 0])]).
  destruct (cleanAndParseJSON_returns_an_object text
              (JObject [(units "a", JArray [JNumber 1 0; JNumber 2 0])]))
    as [members E].
  - vm_compute. discriminate.
  - vm_compute. reflexivity.
  - exists members. split; [vm_compute; reflexivity | exact E].
Defined.

(** *** Commentary and fences around the object *)

Lemma skip_space_app_solid (p : string) (c : ascii) (r : string) :
  is_space c = false ->
  skip_space (p ++ String c r) = skip_space p ++ String c r.
Proof.
  intros Hc. induction p as [| a p IH]; cbn [append skip_space].
  - now rewrite Hc.
  - destruct (is_space a); [exact IH | reflexivity].
Qed.

Lemma skip_space_all_space (w x : string) :
  all_space w = true -> skip_space (w ++ x) = skip_space x.
Proof.
  induction w as [| a w IH]; cbn [all_space append skip_space]; [reflexivity |].
  intros H. apply andb_prop in H as [Ha Hw]. rewrite Ha. now apply IH.
Qed.

Lemma all_space_app (a b : string) :
  all_space (a ++ b) = all_space a && all_space b.
Proof.
  induction a as [| x a IH]; cbn [append all_space]; [reflexivity |].
  rewrite IH. now rewrite andb_assoc.
Qed.

Lemma trim_end_app (a b : string) :
  all_space b = false -> trim_end (a ++ b) = a ++ trim_end b.
Proof.
  intros Hb. induction a as [| x a IH]; [reflexivity |].
  cbn [append trim_end all_space]. rewrite all_space_app, Hb, andb_false_r.
  rewrite andb_false_r. now rewrite IH.
Qed.

Lemma indexOf_app_none (c : ascii) (q x : string) :
  indexOf c q = None -> indexOf c (q ++ String c x) = Some (String.length q).
Proof.
  induction q as [| a q IH]; cbn [append indexOf String.length].
  - now rewrite Ascii.eqb_refl.
  - destruct (Ascii.eqb a c); [discriminate |].
    destruct (indexOf c q); [discriminate |]. intros _. now rewrite IH.
Qed.

Lemma substring_from_app (q x : string) :
  substring_from (String.length q) (q ++ x) = x.
Proof.
  induction q as [| a q IH]; cbn [String.length append substring_from].
  - now destruct x.
  - exact IH.
Qed.

Lemma no_backtick_no_prefix (q x : string) (c : ascii) :
  count_char "`" q = 0 -> Ascii.eqb c "`" = false ->
  forall p d, strip_prefix (String "`" p) (q ++ String c x) = Some d -> False.
Proof.
  intros Hq Hc p d. destruct q as [| a q]; cbn [append strip_prefix].
  - rewrite Ascii.eqb_sym, Hc. discriminate.
  - cbn [count_char] in Hq. destruct (Ascii.eqb a "`") eqn:E; [lia |].
    rewrite Ascii.eqb_sym, E. discriminate.
Qed.

(** No fence starts inside commentary free of backticks that is followed
    by an opening brace. *)
Lemma re_fence_none_in_prose (q r : string) (a : ascii) :
  count_char "`" (String a q) = 0 ->
  re_fence (String a q ++ String "{" r) = None.
Proof.
  intros Hq. unfold re_fence.
  destruct (strip_prefix "```json" (String a q ++ String "{" r)) as [d |] eqn:E.
  - exfalso.
    apply (no_backtick_no_prefix (String a q) r "{" Hq eq_refl _ _ E).
  - rewrite skip_space_app_solid by reflexivity.
    destruct (strip_prefix "```" (skip_space (String a q) ++ String "{" r))
      as [d |] eqn:E'; [| reflexivity].
    exfalso. refine (no_backtick_no_prefix _ r "{" _ eq_refl _ _ E').
    rewrite count_char_skip_space by reflexivity. exact Hq.
Qed.

Lemma replace_fence_after_prose (prose r : string) :
  count_char "`" prose = 0 ->
  forall b,
    String.length (prose ++ String "{" r) <= b ->
    replace_go re_fence "" b (prose ++ String "{" r) =
    prose ++ replace_go re_fence "" (b - String.length prose) (String "{" r).
Proof.
  induction prose as [| a q IH]; intros Hq b Hb.
  - cbn [append String.length]. now rewrite Nat.sub_0_r.
  - destruct b as [| b]; [cbn in Hb; lia |].
    assert (E : re_fence (String a (q ++ String "{" r)) = None)
      by exact (re_fence_none_in_prose q r a Hq).
    cbn [append]. cbn [replace_go]. rewrite E.
    cbn [String.length Nat.sub]. f_equal. apply IH.
    + cbn [count_char] in Hq. destruct (Ascii.eqb a "`"); lia.
    + cbn [append String.length] in Hb. lia.
Qed.

Lemma replace_fence_keeps_head (r : string) :
  exists r', replace_all re_fence "" (String "{" r) = String "{" r'.
Proof.
  unfold replace_all. cbn [String.length replace_go].
  change (re_fence (String "{" r)) with (@None string). cbv iota. eauto.
Qed.

Lemma trim_end_keeps_head (c : ascii) (r : string) :
  is_space c = false -> trim_end (String c r) = String c (trim_end r).
Proof. intros Hc. cbn [trim_end all_space]. now rewrite Hc. Qed.

Lemma cleanText_after_prose (prose r : string) :
  count_char "`" prose = 0 -> indexOf "{" prose = None ->
  cleanText (prose ++ String "{" r) = cleanText (String "{" r).
Proof.
  intros Hq Hb. unfold cleanText.
  assert (Hrep : replace_all re_fence "" (prose ++ String "{" r)
                 = prose ++ replace_all re_fence "" (String "{" r)).
  { unfold replace_all.
    rewrite (replace_fence_after_prose prose r Hq _ (Nat.le_refl _)).
    f_equal. apply replace_go_budget; [apply re_fence_shrinking | |].
    - clear. induction prose as [| a q IH]; cbn [append String.length] in *; lia.
    - lia. }
  rewrite Hrep. destruct (replace_fence_keeps_head r) as [r' ->].
  unfold trim. rewrite skip_space_app_solid by reflexivity.
  rewrite trim_end_app by reflexivity.
  cbn [skip_space]. change (is_space "{") with false. cbv iota.
  rewrite (trim_end_keeps_head "{" r' eq_refl).
  rewrite indexOf_app_none.
  - rewrite substring_from_app. cbn [indexOf].
    rewrite Ascii.eqb_refl. reflexivity.
  - apply indexOf_none_count. rewrite count_char_skip_space by reflexivity.
    now apply indexOf_none_count.
Qed.

(** X9. Commentary before the object is dropped: when what precedes the
    first opening brace holds no backtick, cleanAndParseJSON answers as it
    does on the text from that brace on. *)
Theorem commentary_before_the_object_is_ignored (prose r : string) :
  count_char "`" prose = 0 ->
  indexOf "{" prose = None ->
  cleanAndParseJSON (prose ++ String "{" r) = cleanAndParseJSON (String "{" r).
Proof.
  intros Hq Hb. unfold cleanAndParseJSON.
  now rewrite (cleanText_after_prose prose r Hq Hb).
Qed.

Lemma commentary_before_the_object_is_ignored_witness :
  cleanAndParseJSON (quoted "Here is the scene you asked for: {'shapes':[]}")
  = cleanAndParseJSON (quoted "{'shapes':[]}").
Proof.
  apply (commentary_before_the_object_is_ignored
           "Here is the scene you asked for: " (quoted "'shapes':[]}"));
    vm_compute; reflexivity.
Defined.

Lemma strip_prefix_self (p x : string) : strip_prefix p (p ++ x) = Some x.
Proof.
  induction p as [| a p IH]; cbn [append strip_prefix]; [reflexivity |].
  now rewrite Ascii.eqb_refl.
Qed.

Lemma no_backtick_no_fence (s : string) :
  count_char "`" s = 0 -> occurs "```" s = false.
Proof.
  induction s as [| a r IH]; intros H; [reflexivity |].
  cbn [count_char] in H. destruct (Ascii.eqb a "`") eqn:E; [lia |].
  cbn [occurs strip_prefix]. rewrite Ascii.eqb_sym, E. now apply IH.
Qed.

(** Spaces up to the closing fence are removed with it. *)
Lemma re_fence_closing (w : string) :
  all_space w = true -> re_fence (w ++ "```") = Some "".
Proof.
  intros Hw. unfold re_fence.
  assert (E : strip_prefix "```json" (w ++ "```") = None).
  { destruct w as [| a w]; [reflexivity |].
    cbn [all_space] in Hw. apply andb_prop in Hw as [Ha _].
    cbn [append strip_prefix]. destruct (Ascii.eqb "`" a) eqn:E; [| reflexivity].
    apply Ascii.eqb_eq in E. subst a. discriminate Ha. }
  rewrite E, (skip_space_all_space w "```" Hw). reflexivity.
Qed.

(** No fence starts at a position followed by a character that is neither
    a space nor a backtick before any backtick. *)
Lemma re_fence_none_solid (q x : string) :
  count_char "`" q = 0 -> all_space q = false -> re_fence (q ++ x) = None.
Proof.
  intros Hq Hs.
  assert (Hskip : exists d q2, Ascii.eqb d "`" = false /\
                               skip_space (q ++ x) = String d q2).
  { clear -Hq Hs. induction q as [| a q IH]; [discriminate Hs |].
    cbn [count_char] in Hq. destruct (Ascii.eqb a "`") eqn:E; [lia |].
    cbn [append skip_space all_space] in *.
    destruct (is_space a); [apply IH; [lia | exact Hs] | eauto]. }
  destruct Hskip as (d & q2 & Hd & Hsk). unfold re_fence. rewrite Hsk.
  destruct q as [| a q]; [discriminate Hs |].
  cbn [count_char] in Hq. destruct (Ascii.eqb a "`") eqn:E; [lia |].
  cbn [append strip_prefix]. rewrite Ascii.eqb_sym, E, Ascii.eqb_sym, Hd.
  reflexivity.
Qed.

Lemma replace_go_empty (m : matcher) (by_ : string) (b : nat) :
  replace_go m by_ b "" = "".
Proof. now destruct b. Qed.

Lemma replace_fence_before_closing (w : string) :
  all_space w = true ->
  forall q b,
    count_char "`" q = 0 ->
    String.length (q ++ w ++ "```") <= b ->
    replace_go re_fence "" b (q ++ w ++ "```") = trim_end q.
Proof.
  intros Hw. induction q as [| a q IH]; intros b Hq Hb.
  - cbn [append] in *. destruct b as [| b].
    { exfalso. clear -Hb. induction w; cbn in Hb; lia. }
    pose proof (re_fence_closing w Hw) as E.
    destruct (w ++ "```") as [| c r] eqn:Ew.
    { exfalso. destruct w; discriminate Ew. }
    cbn [replace_go]. rewrite E. cbn [append]. apply replace_go_empty.
  - destruct b as [| b]; [cbn in Hb; lia |].
    cbn [append replace_go trim_end].
    change (String a (q ++ w ++ "```")) with (String a q ++ w ++ "```").
    destruct (all_space (String a q)) eqn:Hs.
    + rewrite <- append_assoc, re_fence_closing
        by (rewrite all_space_app, Hs, Hw; reflexivity).
      cbn [append]. apply replace_go_empty.
    + rewrite (re_fence_none_solid (String a q) (w ++ "```") Hq Hs).
      f_equal. apply IH.
      * cbn [count_char] in Hq. destruct (Ascii.eqb a "`"); lia.
      * cbn [append String.length] in Hb. lia.
Qed.

Lemma append_length (a b : string) :
  String.length (a ++ b) = String.length a + String.length b.
Proof. induction a as [| x a IH]; cbn; [reflexivity | now rewrite IH]. Qed.

Lemma skip_space_before_closing (body w : string) :
  all_space w = true ->
  exists w',
    all_space w' = true /\
    skip_space (body ++ w ++ "```") = skip_space body ++ w' ++ "```".
Proof.
  intros Hw. induction body as [| a q IH]; cbn [append skip_space].
  - exists "". split; [reflexivity |]. now rewrite (skip_space_all_space w "```" Hw).
  - destruct (is_space a); [exact IH |]. now exists w.
Qed.

Lemma replace_go_match (m : matcher) (by_ : string) (b : nat) (c : ascii)
  (r rest : string) :
  m (String c r) = Some rest ->
  replace_go m by_ (S b) (String c r) = by_ ++ replace_go m by_ b rest.
Proof. intros E. cbn [replace_go]. now rewrite E. Qed.

Lemma replace_fence_unwraps (w1 body w2 : string) :
  all_space w1 = true -> all_space w2 = true -> count_char "`" body = 0 ->
  replace_all re_fence "" ("```json" ++ w1 ++ body ++ w2 ++ "```") = trim body.
Proof.
  intros H1 H2 Hb. unfold replace_all.
  set (x := w1 ++ body ++ w2 ++ "```").
  assert (E : re_fence (String "`" ("``json" ++ x)) = Some (skip_space x)).
  { unfold re_fence. change (String "`" ("``json" ++ x)) with ("```json" ++ x).
    now rewrite strip_prefix_self. }
  assert (Hlen : String.length ("```json" ++ x) = S (6 + String.length x))
    by (rewrite append_length; reflexivity).
  rewrite Hlen. change ("```json" ++ x) with (String "`" ("``json" ++ x)).
  rewrite (replace_go_match re_fence "" _ _ _ _ E).
  change ("" ++ ?y) with y.
  subst x. rewrite (skip_space_all_space w1 _ H1).
  destruct (skip_space_before_closing body w2 H2) as (w' & Hw' & Hsk).
  rewrite Hsk. apply replace_fence_before_closing; [exact Hw' | |].
  - now rewrite count_char_skip_space.
  - rewrite <- Hsk.
    pose proof (skip_space_length (body ++ w2 ++ "```")) as Hl.
    rewrite !append_length in *. lia.
Qed.

Lemma skip_space_idempotent (s : string) : skip_space (skip_space s) = skip_space s.
Proof.
  induction s as [| a r IH]; [reflexivity |].
  cbn [skip_space]. destruct (is_space a) eqn:E; [exact IH |].
  cbn [skip_space]. now rewrite E.
Qed.

Lemma trim_end_not_all_space (s : string) :
  all_space s = false -> all_space (trim_end s) = false.
Proof.
  induction s as [| a r IH]; intros H; [discriminate H |].
  cbn [trim_end]. rewrite H. cbn [all_space] in *.
  destruct (is_space a); [cbn in *; now apply IH | reflexivity].
Qed.

Lemma trim_end_idempotent (s : string) : trim_end (trim_end s) = trim_end s.
Proof.
  induction s as [| a r IH]; [reflexivity |].
  cbn [trim_end]. destruct (all_space (String a r)) eqn:Hs; [reflexivity |].
  cbn [trim_end].
  assert (Hn : all_space (String a (trim_end r)) = false).
  { cbn [all_space] in *. destruct (is_space a); [| reflexivity].
    cbn in *. now apply trim_end_not_all_space. }
  now rewrite Hn, IH.
Qed.

Lemma skip_space_trim_end (s : string) :
  skip_space s = s -> skip_space (trim_end s) = trim_end s.
Proof.
  destruct s as [| a r]; [reflexivity |].
  cbn [skip_space trim_end]. destruct (is_space a) eqn:E.
  - intros H. exfalso.
    pose proof (skip_space_length r) as Hl. rewrite H in Hl.
    cbn [String.length] in Hl. lia.
  - intros _. destruct (all_space (String a r)); [reflexivity |].
    cbn [skip_space]. now rewrite E.
Qed.

Lemma trim_idempotent (s : string) : trim (trim s) = trim s.
Proof.
  unfold trim.
  rewrite (skip_space_trim_end (skip_space s) (skip_space_idempotent s)).
  apply trim_end_idempotent.
Qed.

(** X10. A reply that wraps its text in a json fence, with any spaces
    inside the fence, is read exactly as the text inside: when the inner
    text holds no backtick, cleanAndParseJSON gives the same answer on
    both. *)
Theorem fenced_reply_is_read_as_its_body (w1 body w2 : string) :
  all_space w1 = true -> all_space w2 = true -> count_char "`" body = 0 ->
  cleanAndParseJSON ("```json" ++ w1 ++ body ++ w2 ++ "```")
  = cleanAndParseJSON body.
Proof.
  intros H1 H2 Hb.
  assert (E : cleanText ("```json" ++ w1 ++ body ++ w2 ++ "```")
              = cleanText body).
  { unfold cleanText. rewrite (replace_fence_unwraps w1 body w2 H1 H2 Hb).
    rewrite (replace_fence_id body (no_backtick_no_fence body Hb)).
    now rewrite trim_idempotent. }
  unfold cleanAndParseJSON. now rewrite E.
Qed.

Lemma fenced_reply_is_read_as_its_body_witness :
  cleanAndParseJSON
    ("```json" ++ nl ++ quoted "{'shapes': [], }  " ++ nl ++ "```")
  = cleanAndParseJSON (quoted "{'shapes': [], }  ").
Proof.
  apply (fenced_reply_is_read_as_its_body nl (quoted "{'shapes': [], }  ") nl);
    vm_compute; reflexivity.
Defined.

(** ** More on the reference image set builder *)

(** The observations by which the builder settles. *)
Definition is_verdict (l : Label) : bool :=
  match l with
  | LReturn _ | LThrow _ => true
  | _ => false
  end.

Definition verdicts (ls : list Label) : list Label := filter is_verdict ls.














(** The requests of [view] among the observations [ls], and all of
    them. *)
Definition is_request_of (view : string) (l : Label) : bool :=
  match l with
  | LRequest v _ => String.eqb v view
  | _ => false
  end.

Definition is_request (l : Label) : bool :=
  match l with
  | LRequest _ _ => true
  | _ => false
  end.

Definition requests_of (view : string) (ls : list Label) : nat :=
  List.length (filter (is_request_of view) ls).

Definition requests_in (ls : list Label) : nat :=
  List.length (filter is_request ls).

(** The requests of the four views. *)
Definition tally (ls : list Label) : nat * nat * nat * nat * nat :=
  (requests_of views_front ls, requests_of views_back ls,
   requests_of views_left ls, requests_of views_right ls, requests_in ls).

Lemma requests_of_app (view : string) (a b : list Label) :
  requests_of view (a ++ b) = requests_of view a + requests_of view b.
Proof. unfold requests_of. now rewrite filter_app, length_app. Qed.

Lemma requests_in_app (a b : list Label) :
  requests_in (a ++ b) = requests_in a + requests_in b.
Proof. unfold requests_in. now rewrite filter_app, length_app. Qed.

(** The requests a call of generateSingleView may still issue: [n] more
    after the one in flight, if any. *)
Inductive task_left (prompt view : string)
  : Prog string -> nat -> Prop :=
| left_loop ref retries todo attempt last :
    task_left prompt view
      (attempt_loop prompt view ref retries todo attempt last) (pred todo)
| left_wait ref ms retries todo attempt last :
    task_left prompt view
      (Delay ms (attempt_loop prompt view ref retries todo attempt last)) todo
| left_done data : task_left prompt view (Ret data) 0.

Lemma announce_requests (view : string) (t : Prog string) :
  requests_of view (announce view t) = requests_in (announce view t) /\
  (forall v, String.eqb view v = false ->
             requests_of v (announce view t) = 0).
Proof.
  destruct t; cbn; unfold requests_of, requests_in; cbn;
    rewrite ?String.eqb_refl; split; try reflexivity;
    intros v ->; reflexivity.
Qed.

Lemma resume_requests (view : string) (t : Prog string) (o : Outcome) :
  requests_of view (snd (resume view t o))
  = requests_in (snd (resume view t o)) /\
  (forall v, String.eqb view v = false ->
             requests_of v (snd (resume view t o)) = 0).
Proof.
  destruct t; cbn [resume snd]; try apply announce_requests;
    try (split; [reflexivity | intros v _; reflexivity]).
Qed.

Lemma loop_left (prompt view : string) (ref : option string)
  (retries todo attempt : nat) (last : option string) :
  let t := attempt_loop prompt view ref retries todo attempt last in
  exists n, task_left prompt view t n /\
            requests_of view (announce view t) + n <= todo.
Proof.
  cbv zeta. exists (pred todo). split; [constructor |].
  destruct todo; cbn [attempt_loop announce]; unfold requests_of; cbn;
    rewrite ?String.eqb_refl; cbn; lia.
Qed.

(** Resuming a task does not raise what it has issued and may still
    issue. *)
Lemma resume_left (prompt view : string) (t : Prog string) (n : nat)
  (o : Outcome) :
  task_left prompt view t n ->
  exists n',
    task_left prompt view (fst (resume view t o)) n' /\
    requests_of view (snd (resume view t o)) + n' <= n.
Proof.
  intros H.
  destruct H as [ref retries todo attempt last
                | ref ms retries todo attempt last | data].
  - destruct todo as [| todo].
    + exists 0. split; [apply (left_loop prompt view ref retries 0) |].
      cbn. lia.
    + cbn [attempt_loop resume fst snd pred].
      assert (Hc : forall error,
                 let next := attempt_loop prompt view ref retries todo
                               (S attempt) (Some error) in
                 let t' := if Nat.ltb attempt retries
                           then Delay (waitTime attempt) next else next in
                 exists n', task_left prompt view t' n' /\
                            requests_of view (LSettle view o ::
                                              announce view t') + n' <= todo).
      { intros error. cbv zeta. destruct (Nat.ltb attempt retries).
        - exists todo. split; [constructor |]. cbn. lia.
        - destruct (loop_left prompt view ref retries todo (S attempt)
                      (Some error)) as (n' & H1 & H2).
          exists n'. split; [exact H1 | exact H2]. }
      destruct o as [response | message]; [| apply Hc].
      destruct (image_of response) as [data |]; [| apply Hc].
      exists 0. split; [constructor |]. cbn. lia.
  - cbn [resume fst snd].
    apply (loop_left prompt view ref retries todo attempt last).
  - exists 0. split; [constructor |]. cbn. lia.
Qed.

(** A task with its budget of three requests. *)
Definition within_budget (prompt : string) (seen : list Label)
  (vt : string * Prog string) : Prop :=
  exists n, task_left prompt (fst vt) (snd vt) n /\
            requests_of (fst vt) seen + n <= 3.

Definition fresh (view : string) (seen : list Label) : Prop :=
  requests_of view seen = 0.

(** The conditioned tasks, once started, each within its budget. *)
Definition pool_budget (prompt : string) (seen : list Label) (ts : tasks)
  : Prop :=
  (ts = [] /\ fresh views_back seen /\ fresh views_left seen /\
   fresh views_right seen) \/
  (exists tb tl tr,
      ts = [(views_back, tb); (views_left, tl); (views_right, tr)] /\
      within_budget prompt seen (views_back, tb) /\
      within_budget prompt seen (views_left, tl) /\
      within_budget prompt seen (views_right, tr)).

Definition counted (seen : list Label) : Prop :=
  requests_in seen
  = requests_of views_front seen + requests_of views_back seen
    + requests_of views_left seen + requests_of views_right seen.

Definition budget_inv (prompt : string) (b : Builder) (seen : list Label)
  : Prop :=
  counted seen /\
  match b with
  | AwaitFront t =>
      within_budget prompt seen (views_front, t) /\
      pool_budget prompt seen []
  | AwaitPause _ =>
      requests_of views_front seen <= 3 /\ pool_budget prompt seen []
  | AwaitAll _ ts | Finished _ ts =>
      requests_of views_front seen <= 3 /\ pool_budget prompt seen ts
  end.

Lemma resume_within (prompt view : string) (t : Prog string)
  (seen : list Label) (o : Outcome) :
  within_budget prompt seen (view, t) ->
  within_budget prompt (seen ++ snd (resume view t o))
    (view, fst (resume view t o)).
Proof.
  intros (n & H1 & H2). cbn [fst snd] in *.
  destruct (resume_left prompt view t n o H1) as (n' & H3 & H4).
  exists n'. cbn [fst snd]. split; [exact H3 |].
  rewrite requests_of_app. lia.
Qed.

Lemma within_other (prompt : string) (seen ls : list Label)
  (vt : string * Prog string) :
  requests_of (fst vt) ls = 0 ->
  within_budget prompt seen vt -> within_budget prompt (seen ++ ls) vt.
Proof.
  intros H0 (n & H1 & H2). exists n. split; [exact H1 |].
  rewrite requests_of_app. lia.
Qed.

Lemma pool_budget_resume (prompt : string) (seen : list Label) (ts : tasks)
  (i : nat) (o : Outcome) :
  counted seen -> requests_of views_front seen <= 3 ->
  pool_budget prompt seen ts ->
  let ls := snd (resume_nth i o ts) in
  counted (seen ++ ls) /\ requests_of views_front (seen ++ ls) <= 3 /\
  pool_budget prompt (seen ++ ls) (fst (resume_nth i o ts)).
Proof.
  intros Hc Hf Hp. cbv zeta.
  assert (Hnil : forall ts', resume_nth i o ts = (ts', []) ->
            pool_budget prompt seen ts' ->
            counted (seen ++ snd (resume_nth i o ts)) /\
            requests_of views_front (seen ++ snd (resume_nth i o ts)) <= 3 /\
            pool_budget prompt (seen ++ snd (resume_nth i o ts))
              (fst (resume_nth i o ts))).
  { intros ts' -> Hp'. cbn [fst snd]. now rewrite app_nil_r. }
  destruct Hp as [(-> & Hb & Hl & Hr) | (tb & tl & tr & -> & Hb & Hl & Hr)].
  - apply Hnil with []; [now destruct i |]. left. now repeat split.
  - unfold counted in *.
    destruct i as [| [| [| i]]]; cbn [resume_nth].
    + pose proof (resume_within prompt views_back tb seen o Hb) as Hw.
      destruct (resume_requests views_back tb o) as [Ht Ho].
      destruct (resume views_back tb o) as [t' ls]. cbn [fst snd] in *.
      pose proof (Ho views_front eq_refl) as H1.
      pose proof (Ho views_left eq_refl) as H2.
      pose proof (Ho views_right eq_refl) as H3.
      rewrite requests_in_app, !requests_of_app, H1, H2, H3.
      split; [lia |]. split; [lia |]. right. exists t', tl, tr.
      split; [reflexivity |].
      split; [exact Hw |]. split; now apply within_other.
    + pose proof (resume_within prompt views_left tl seen o Hl) as Hw.
      destruct (resume_requests views_left tl o) as [Ht Ho].
      destruct (resume views_left tl o) as [t' ls]. cbn [fst snd] in *.
      pose proof (Ho views_front eq_refl) as H1.
      pose proof (Ho views_back eq_refl) as H2.
      pose proof (Ho views_right eq_refl) as H3.
      rewrite requests_in_app, !requests_of_app, H1, H2, H3.
      split; [lia |]. split; [lia |]. right. exists tb, t', tr.
      split; [reflexivity |].
      split; [now apply within_other |].
      split; [exact Hw | now apply within_other].
    + pose proof (resume_within prompt views_right tr seen o Hr) as Hw.
      destruct (resume_requests views_right tr o) as [Ht Ho].
      destruct (resume views_right tr o) as [t' ls]. cbn [fst snd] in *.
      pose proof (Ho views_front eq_refl) as H1.
      pose proof (Ho views_back eq_refl) as H2.
      pose proof (Ho views_left eq_refl) as H3.
      rewrite requests_in_app, !requests_of_app, H1, H2, H3.
      split; [lia |]. split; [lia |]. right. exists tb, tl, t'.
      split; [reflexivity |].
      split; [now apply within_other |].
      split; [now apply within_other | exact Hw].
    + apply Hnil with [(views_back, tb); (views_left, tl); (views_right, tr)];
        [now destruct i |].
      right. exists tb, tl, tr. now repeat split.
Qed.

Lemma join_requests (front : string) (ts : tasks) :
  (exists r, fst (join front ts) = Finished r ts) \/
  fst (join front ts) = AwaitAll front ts.
Proof.
  unfold join. destruct (first_thrown ts); [left; eexists; reflexivity |].
  destruct (all_returned ts) as [[| b [| l [| r [| x xs]]]] |];
    try (now right).
  left. eexists. reflexivity.
Qed.

Lemma join_silent (front : string) (ts : tasks) (view : string) :
  requests_of view (snd (join front ts)) = 0 /\
  requests_in (snd (join front ts)) = 0.
Proof.
  unfold join. destruct (first_thrown ts); [now split |].
  destruct (all_returned ts) as [[| b [| l [| r [| x xs]]]] |]; now split.
Qed.

Lemma budget_after_join (prompt front : string) (ts : tasks)
  (seen : list Label) :
  counted seen -> requests_of views_front seen <= 3 ->
  pool_budget prompt seen ts ->
  budget_inv prompt (fst (join front ts)) (seen ++ snd (join front ts)).
Proof.
  intros Hc Hf Hp.
  assert (E : forall view,
             requests_of view (seen ++ snd (join front ts))
             = requests_of view seen).
  { intros view. rewrite requests_of_app.
    destruct (join_silent front ts view) as [-> _]. lia. }
  assert (Hc' : counted (seen ++ snd (join front ts))).
  { unfold counted in *. rewrite requests_in_app, !E.
    destruct (join_silent front ts views_front) as [_ ->]. lia. }
  assert (Hp' : pool_budget prompt (seen ++ snd (join front ts)) ts).
  { destruct Hp as [(-> & Hb & Hl & Hr)
                   | (tb & tl & tr & -> & Hb & Hl & Hr)].
    - left. unfold fresh in *. rewrite !E. now repeat split.
    - right. exists tb, tl, tr. split; [reflexivity |].
      repeat split; apply within_other; trivial; cbn [fst];
        apply join_silent. }
  destruct (join_requests front ts) as [[r ->] | ->];
    (split; [exact Hc' | split; [rewrite E; exact Hf | exact Hp']]).
Qed.

Lemma budget_step (prompt : string) (b : Builder) (seen : list Label)
  (i : nat) (o : Outcome) :
  budget_inv prompt b seen ->
  budget_inv prompt (fst (step prompt b i o))
    (seen ++ snd (step prompt b i o)).
Proof.
  intros [Hc Hb]. destruct b as [t | front | front ts | r ts]; cbn [step].
  - destruct Hb as [Hw [(_ & Hb & Hl & Hr) | (tb & tl & tr & Hd & _)]];
      [| discriminate Hd].
    pose proof (resume_within prompt views_front t seen o Hw) as Hw'.
    destruct (resume_requests views_front t o) as [Ht Ho].
    destruct (resume views_front t o) as [t' ls]. cbn [fst snd] in *.
    pose proof (Ho views_back eq_refl) as H1.
    pose proof (Ho views_left eq_refl) as H2.
    pose proof (Ho views_right eq_refl) as H3.
    unfold fresh, counted in *.
    assert (Hc' : counted (seen ++ ls)).
    { unfold counted. rewrite requests_in_app, !requests_of_app. lia. }
    assert (Hp' : pool_budget prompt (seen ++ ls) []).
    { left. unfold fresh. rewrite !requests_of_app. repeat split; lia. }
    assert (Hf' : requests_of views_front (seen ++ ls) <= 3).
    { destruct Hw' as (n & _ & Hn). cbn [fst] in Hn. lia. }
    assert (Hx : forall l, is_request l = false ->
               budget_inv prompt (AwaitPause EmptyString) ((seen ++ ls) ++ [l])).
    { intros l Hq.
      assert (E : forall view, requests_of view ((seen ++ ls) ++ [l])
                               = requests_of view (seen ++ ls)).
      { intros view. rewrite (requests_of_app view (seen ++ ls)).
        destruct l; try discriminate Hq; cbn; lia. }
      assert (E' : requests_in ((seen ++ ls) ++ [l]) = requests_in (seen ++ ls)).
      { rewrite (requests_in_app (seen ++ ls)).
        destruct l; try discriminate Hq; cbn; lia. }
      split; [unfold counted in *; rewrite E', !E; exact Hc' |].
      cbn. rewrite E. split; [exact Hf' |]. left.
      destruct Hp' as [(_ & A & B & C) | (tb & tl & tr & Hd & _)];
        [| discriminate Hd].
      unfold fresh in *. rewrite !E. now repeat split. }
    destruct t' as [front | e | req k | ms k | ev k]; cbn [fst snd];
      rewrite ?app_assoc.
    + exact (Hx (LDelay 200) eq_refl).
    + exact (Hx (LThrow e) eq_refl).
    + split; [exact Hc' |]. split; [exact Hw' | exact Hp'].
    + split; [exact Hc' |]. split; [exact Hw' | exact Hp'].
    + split; [exact Hc' |]. split; [exact Hw' | exact Hp'].
  - destruct Hb as [Hf [(_ & Hb & Hl & Hr) | (tb & tl & tr & Hd & _)]];
      [| discriminate Hd].
    set (ts := conditioned prompt front).
    set (ls0 := announce_all ts).
    assert (H0 : requests_of views_front ls0 = 0 /\
                 requests_of views_back ls0 = 1 /\
                 requests_of views_left ls0 = 1 /\
                 requests_of views_right ls0 = 1 /\
                 requests_in ls0 = 3) by (now repeat split).
    destruct H0 as (A0 & A1 & A2 & A3 & A4).
    unfold fresh, counted in *.
    assert (Hc' : counted (seen ++ ls0)).
    { unfold counted. rewrite requests_in_app, !requests_of_app. lia. }
    assert (Hf' : requests_of views_front (seen ++ ls0) <= 3)
      by (rewrite requests_of_app; lia).
    assert (Hp' : pool_budget prompt (seen ++ ls0) ts).
    { right. eexists _, _, _. split; [reflexivity |].
      repeat split; exists 2; cbn [fst snd];
        (split; [apply (left_loop prompt _ (Some front) 3 3 1 None)
                | rewrite requests_of_app; lia]). }
    pose proof (budget_after_join prompt front ts (seen ++ ls0) Hc' Hf' Hp')
      as H.
    destruct (join front ts) as [b' ls]. cbn [fst snd] in *.
    now rewrite app_assoc.
  - destruct Hb as [Hf Hp].
    destruct (pool_budget_resume prompt seen ts i o Hc Hf Hp)
      as (Hc' & Hf' & Hp').
    destruct (resume_nth i o ts) as [ts' ls]. cbn [fst snd] in *.
    pose proof (budget_after_join prompt front ts' (seen ++ ls) Hc' Hf' Hp')
      as H.
    destruct (join front ts') as [b' ls']. cbn [fst snd] in *.
    now rewrite app_assoc.
  - destruct Hb as [Hf Hp].
    destruct (pool_budget_resume prompt seen ts i o Hc Hf Hp)
      as (Hc' & Hf' & Hp').
    destruct (resume_nth i o ts) as [ts' ls]. cbn [fst snd] in *.
    split; [exact Hc' |]. split; [exact Hf' | exact Hp'].
Qed.

Lemma budget_steps (prompt : string) (schedule : list (nat * Outcome)) :
  forall b seen,
    budget_inv prompt b seen ->
    budget_inv prompt (fst (steps prompt b schedule))
      (seen ++ snd (steps prompt b schedule)).
Proof.
  induction schedule as [| [i o] r IH]; intros b seen Hinv; cbn [steps].
  - cbn [fst snd]. now rewrite app_nil_r.
  - pose proof (budget_step prompt b seen i o Hinv) as Hb.
    destruct (step prompt b i o) as [b' ls]. cbn [fst snd] in *.
    pose proof (IH b' (seen ++ ls)%list Hb) as Hb'.
    destruct (steps prompt b' r) as [b'' ls']. cbn [fst snd] in *.
    now rewrite app_assoc.
Qed.

Lemma budget_bounds (prompt : string) (b : Builder) (seen : list Label) :
  budget_inv prompt b seen ->
  requests_of views_front seen <= 3 /\ requests_of views_back seen <= 3 /\
  requests_of views_left seen <= 3 /\ requests_of views_right seen <= 3 /\
  requests_in seen <= 12.
Proof.
  intros [Hc Hb]. unfold counted in Hc.
  assert (Hp : forall ts, pool_budget prompt seen ts ->
             requests_of views_back seen <= 3 /\
             requests_of views_left seen <= 3 /\
             requests_of views_right seen <= 3).
  { intros ts [(_ & A & B & C) | (tb & tl & tr & _ & A & B & C)].
    - unfold fresh in *. lia.
    - destruct A as (na & _ & A), B as (nb & _ & B), C as (nc & _ & C).
      cbn [fst] in *. lia. }
  assert (H : requests_of views_front seen <= 3 /\
              exists ts, pool_budget prompt seen ts).
  { destruct b as [t | front | front ts | r ts].
    - destruct Hb as [(n & _ & Hn) Hq]. cbn [fst] in Hn.
      split; [lia | now exists []].
    - destruct Hb as [Hf Hq]. split; [exact Hf | now exists []].
    - destruct Hb as [Hf Hq]. split; [exact Hf | now exists ts].
    - destruct Hb as [Hf Hq]. split; [exact Hf | now exists ts]. }
  destruct H as [Hf [ts Hq]]. destruct (Hp ts Hq) as (A & B & C). lia.
Qed.

(** X12. However responses and timers are scheduled, and for as long as
    the event loop runs, the builder issues at most three requests for
    each of its four views, so at most twelve in all. *)
Theorem builder_issues_at_most_twelve_requests
  (prompt : string) (schedule : list (nat * Outcome)) :
  let trace := snd (generateReferenceImages prompt schedule) in
  requests_of views_front trace <= 3 /\
  requests_of views_back trace <= 3 /\
  requests_of views_left trace <= 3 /\
  requests_of views_right trace <= 3 /\
  requests_in trace <= 12.
Proof.
  cbv zeta. unfold generateReferenceImages.
  set (t := generateSingleView prompt views_front None default_retries).
  assert (Hinv : budget_inv prompt (AwaitFront t) (announce views_front t)).
  { split; [reflexivity |]. split.
    - exists 2. split; [apply (left_loop prompt _ None 3 3 1 None) |].
      cbn. lia.
    - left. now repeat split. }
  pose proof (budget_steps prompt schedule _ _ Hinv) as H.
  destruct (steps prompt (AwaitFront t) schedule) as [b ls].
  cbn [fst snd] in *. exact (budget_bounds prompt b _ H).
Qed.

Lemma steps_settled (prompt : string) (r : Result ReferenceImages)
  (schedule : list (nat * Outcome)) :
  steps prompt (Finished r []) schedule = (Finished r [], []).
Proof.
  induction schedule as [| [i o] s IH]; [reflexivity |].
  cbn [steps step].
  assert (E : resume_nth i o [] = ([], [])) by now destruct i.
  rewrite E, IH. reflexivity.
Qed.

Lemma resume_failed_attempt (prompt view : string) (ref : option string)
  (retries todo attempt : nat) (last : option string) (o : Outcome) :
  outcome_image o = None ->
  resume view (attempt_loop prompt view ref retries (S todo) attempt last) o
  = let next := attempt_loop prompt view ref retries todo (S attempt)
                  (Some (caught_message view o)) in
    let t' := if Nat.ltb attempt retries
              then Delay (waitTime attempt) next else next in
    (t', LSettle view o :: announce view t').
Proof.
  intros H. cbn [attempt_loop resume]. unfold outcome_image in H.
  destruct o as [response | message]; cbn [caught_message].
  - now rewrite H.
  - reflexivity.
Qed.

(** The front view while the builder awaits it: a failed attempt that is
    not the last starts the timer, the timer starts the next attempt, and
    the failure of the last attempt makes the builder throw. *)
Lemma front_attempt_fails (prompt : string) (retries todo attempt : nat)
  (last : option string) (i : nat) (o : Outcome) :
  outcome_image o = None -> Nat.ltb attempt retries = true ->
  step prompt
    (AwaitFront
       (attempt_loop prompt views_front None retries (S todo) attempt last))
    i o
  = (AwaitFront
       (Delay (waitTime attempt)
          (attempt_loop prompt views_front None retries todo (S attempt)
             (Some (caught_message views_front o)))),
     [LSettle views_front o; LDelay (waitTime attempt)]).
Proof.
  intros H Hlt. cbn [step]. rewrite resume_failed_attempt by exact H.
  cbv zeta. rewrite Hlt. reflexivity.
Qed.

Lemma front_timer_fires (prompt : string) (retries todo attempt : nat)
  (last : option string) (ms i : nat) (o : Outcome) :
  step prompt
    (AwaitFront
       (Delay ms
          (attempt_loop prompt views_front None retries (S todo) attempt
             last)))
    i o
  = (AwaitFront
       (attempt_loop prompt views_front None retries (S todo) attempt last),
     [LRequest views_front (view_request prompt views_front None)]).
Proof. reflexivity. Qed.

Lemma front_last_attempt_fails (prompt : string) (retries attempt : nat)
  (last : option string) (i : nat) (o : Outcome) :
  outcome_image o = None -> Nat.ltb attempt retries = false ->
  let e := Error ("Failed to generate " ++ views_front ++ " after "
                  ++ string_of_nat retries ++ " attempts. Last error: "
                  ++ caught_message views_front o) in
  step prompt
    (AwaitFront
       (attempt_loop prompt views_front None retries 1 attempt last))
    i o
  = (Finished (Err e) [], [LSettle views_front o; LThrow e]).
Proof.
  intros H Hlt e. cbn [step]. rewrite resume_failed_attempt by exact H.
  cbv zeta. rewrite Hlt. reflexivity.
Qed.

(** X13. When the three attempts at the front view all fail, the builder
    throws the error of the front view as soon as the third has settled:
    no request for the back, left or right view is ever issued, and
    nothing that arrives later is acted upon. *)
Theorem front_failure_stops_the_builder (prompt : string)
  (o1 o2 o3 x1 x2 : Outcome) (i1 i2 i3 i4 i5 : nat)
  (later : list (nat * Outcome)) :
  outcome_image o1 = None -> outcome_image o2 = None ->
  outcome_image o3 = None ->
  let req := view_request prompt views_front None in
  let e := Error ("Failed to generate Front view after 3 attempts. Last error: "
                  ++ caught_message views_front o3) in
  generateReferenceImages prompt
    ((i1, o1) :: (i2, x1) :: (i3, o2) :: (i4, x2) :: (i5, o3) :: later)
  = (Finished (Err e) [],
     [ LRequest views_front req; LSettle views_front o1; LDelay 1000;
       LRequest views_front req; LSettle views_front o2; LDelay 2000;
       LRequest views_front req; LSettle views_front o3; LThrow e ]).
Proof.
  intros H1 H2 H3 req e. unfold generateReferenceImages, generateSingleView.
  unfold default_retries. cbn [steps].
  rewrite (front_attempt_fails prompt 3 2 1 None i1 o1 H1 eq_refl).
  rewrite front_timer_fires.
  rewrite (front_attempt_fails prompt 3 1 2 _ i3 o2 H2 eq_refl).
  rewrite front_timer_fires.
  rewrite (front_last_attempt_fails prompt 3 3 _ i5 o3 H3 eq_refl).
  rewrite steps_settled. reflexivity.
Qed.

Lemma front_failure_stops_the_builder_witness :
  let o := Rejected "quota" in
  generateReferenceImages "a chair"
    [(0, o); (0, o); (0, o); (0, o); (0, o); (1, o); (2, o)]
  = (Finished
       (Err (Error "Failed to generate Front view after 3 attempts. Last error: quota"))
       [],
     [ LRequest views_front (view_request "a chair" views_front None);
       LSettle views_front o; LDelay 1000;
       LRequest views_front (view_request "a chair" views_front None);
       LSettle views_front o; LDelay 2000;
       LRequest views_front (view_request "a chair" views_front None);
       LSettle views_front o;
       LThrow (Error "Failed to generate Front view after 3 attempts. Last error: quota") ]).
Proof.
  intros o.
  exact (front_failure_stops_the_builder "a chair" o o o o o 0 0 0 0 0
           [(1, o); (2, o)] eq_refl eq_refl eq_refl).
Defined.

(** The orders in which three tasks can complete. *)
Lemma three_orders (order : list nat) :
  NoDup order -> List.length order = 3 -> (forall k, In k order -> k < 3) ->
  In order [[0; 1; 2]; [0; 2; 1]; [1; 0; 2]; [1; 2; 0]; [2; 0; 1]; [2; 1; 0]].
Proof.
  intros Hnd Hlen Hlt.
  destruct order as [| a [| b [| c [| d rest]]]]; try discriminate Hlen.
  assert (Ha : a < 3) by (apply Hlt; cbn; auto).
  assert (Hb : b < 3) by (apply Hlt; cbn; auto).
  assert (Hc : c < 3) by (apply Hlt; cbn; auto).
  inversion Hnd as [| ? ? Hna Hnd1]; subst.
  inversion Hnd1 as [| ? ? Hnb _]; subst.
  assert (Hab : a <> b) by (intros ->; apply Hna; cbn; auto).
  assert (Hac : a <> c) by (intros ->; apply Hna; cbn; auto).
  assert (Hbc : b <> c) by (intros ->; apply Hnb; cbn; auto).
  destruct a as [| [| [| a]]]; try lia;
    destruct b as [| [| [| b]]]; try lia;
    destruct c as [| [| [| c]]]; try lia; cbn; auto 10.
Qed.

Lemma conditioned_tasks (prompt front : string) :
  exists kb kl kr,
    conditioned prompt front
    = [ (views_back,
         GenerateContent (view_request prompt views_back (Some front)) kb);
        (views_left,
         GenerateContent (view_request prompt views_left (Some front)) kl);
        (views_right,
         GenerateContent (view_request prompt views_right (Some front)) kr) ]
    /\ (forall response data,
           image_of response = Some data ->
           kb (Resolved response) = Ret data /\
           kl (Resolved response) = Ret data /\
           kr (Resolved response) = Ret data).
Proof.
  eexists _, _, _. split; [reflexivity |].
  intros response data H. cbv beta iota. rewrite H. now repeat split.
Qed.

(** X14. Promise.all keeps the positions of its tasks: when every view
    answers its first request with an image, the back, left and right
    views may answer in any of the six orders, and the builder returns
    the same four images, each in its own field, as soon as the third has
    answered. *)
Theorem conditioned_views_may_answer_in_any_order
  (prompt f b l r : string) (o_front o_back o_left o_right timer : Outcome)
  (i j : nat) (order : list nat) :
  outcome_image o_front = Some f -> outcome_image o_back = Some b ->
  outcome_image o_left = Some l -> outcome_image o_right = Some r ->
  NoDup order -> List.length order = 3 -> (forall k, In k order -> k < 3) ->
  let answers := [o_back; o_left; o_right] in
  let schedule :=
    (i, o_front) :: (j, timer)
    :: map (fun k => (k, nth k answers timer)) order in
  let images := mkImages f b l r in
  let run := generateReferenceImages prompt schedule in
  fst run =
  Finished (Ok images)
    [(views_back, Ret b); (views_left, Ret l); (views_right, Ret r)] /\
  verdicts (snd run) = [LReturn images] /\
  List.last (snd run) (LDelay 0) = LReturn images /\
  requests_in (snd run) = 4.
Proof.
  intros Hf Hb Hl Hr Hnd Hlen Hlt answers schedule images run.
  subst answers schedule images run.
  pose proof (three_orders order Hnd Hlen Hlt) as Ho.
  destruct o_front as [rf |]; [| discriminate Hf].
  destruct o_back as [rb |]; [| discriminate Hb].
  destruct o_left as [rl |]; [| discriminate Hl].
  destruct o_right as [rr |]; [| discriminate Hr].
  cbn [outcome_image] in *.
  unfold generateReferenceImages, generateSingleView, default_retries.
  cbn [map steps]. cbn [step attempt_loop resume]. rewrite Hf.
  cbn [step announce app].
  destruct (conditioned_tasks prompt f) as (kb & kl & kr & -> & Hk).
  destruct (Hk rb b Hb) as (Eb & _ & _).
  destruct (Hk rl l Hl) as (_ & El & _).
  destruct (Hk rr r Hr) as (_ & _ & Er).
  cbn in Ho.
  destruct Ho as [<- | [<- | [<- | [<- | [<- | [<- | []]]]]]];
    repeat (progress
              (cbn [map nth steps step resume_nth resume join first_thrown
                    all_returned announce_all flat_map fst snd announce app];
               rewrite ?Eb, ?El, ?Er));
    repeat split.
Qed.

Lemma conditioned_views_may_answer_in_any_order_witness :
  let schedule :=
    [ (0, image_response "F"); (0, text_response "timer");
      (2, image_response "R"); (0, image_response "B");
      (1, image_response "L") ] in
  let images := mkImages "F" "B" "L" "R" in
  let run := generateReferenceImages "a cat" schedule in
  fst run =
  Finished (Ok images)
    [(views_back, Ret "B"); (views_left, Ret "L"); (views_right, Ret "R")] /\
  verdicts (snd run) = [LReturn images] /\
  List.last (snd run) (LDelay 0) = LReturn images /\
  requests_in (snd run) = 4.
Proof.
  apply (conditioned_views_may_answer_in_any_order "a cat" "F" "B" "L" "R"
           (image_response "F") (image_response "B") (image_response "L")
           (image_response "R") (text_response "timer") 0 0 [2; 0; 1]);
    try reflexivity.
  - repeat constructor; cbn; intuition discriminate.
  - cbn. intros k [<- | [<- | [<- | []]]]; lia.
Defined.

(** ** The application: what the pipeline leaves on screen *)

(** The loop of handleGenerate over any generator: it makes the requests
    of the generator, never throws, and ends in the state the updates lead
    to, closed by what follows the loop or by the catch clause. *)
Lemma run_consume (p : Prog unit) :
  forall (env : Env) (n : nat) (st : App.AppState),
    run env n (App.consume p st) =
    (silent (fst (run env n p)),
     Ok (let st' := fold_left App.on_update (events (fst (run env n p))) st in
         match snd (run env n p) with
         | Ok _ => App.finish st'
         | Err e => App.caught e st'
         end)).
Proof.
  induction p as [a | e | req k IH | ms k IH | ev k IH];
    intros env n st; cbn [App.consume run].
  - reflexivity.
  - reflexivity.
  - rewrite IH. destruct (run env (S n) (k (env n req))). reflexivity.
  - rewrite IH. destruct (run env n k). reflexivity.
  - rewrite IH. destruct (run env n k). reflexivity.
Qed.

Lemma update_stage_frame (update : ProgressEvent) (s : App.ProcessStage) :
  App.id (App.update_stage update s) = App.id s /\
  App.name (App.update_stage update s) = App.name s /\
  App.description (App.update_stage update s) = App.description s.
Proof.
  unfold App.update_stage.
  destruct (Nat.eqb (App.id s) (stageId update)); [now repeat split |].
  destruct (Nat.ltb (App.id s) (stageId update)); now repeat split.
Qed.

(** What an update may not change: the identity of the stages. *)
Definition identity_of (s : App.ProcessStage) : nat * string * string :=
  (App.id s, App.name s, App.description s).

Lemma updates_keep_identity (evs : list ProgressEvent) :
  forall st,
    map identity_of (App.stages (fold_left App.on_update evs st))
    = map identity_of (App.stages st) /\
    App.referenceImages (fold_left App.on_update evs st)
    = App.referenceImages st /\
    App.generationState (fold_left App.on_update evs st)
    = App.generationState st.
Proof.
  induction evs as [| ev evs IH]; intros st; cbn [fold_left].
  - now repeat split.
  - destruct (IH (App.on_update st ev)) as (H1 & H2 & H3).
    rewrite H1, H2, H3. cbn [App.on_update App.stages App.referenceImages
                              App.generationState].
    split; [| now split]. rewrite map_map. apply map_ext. intros s.
    unfold identity_of.
    destruct (update_stage_frame ev s) as (-> & -> & ->). reflexivity.
Qed.

Lemma requests_silent (tr : list Action) :
  requests (silent tr) = requests tr.
Proof.
  unfold silent.
  induction tr as [| [ev | ms | req o] tr IH]; cbn [filter requests];
    [reflexivity | exact IH | exact IH | now rewrite IH].
Qed.

(** X15. The consumer loop of handleGenerate never throws, whatever the
    generator yields, returns or throws and however its requests settle:
    it ends with the spinner off, with the stages it started from, as to
    their ids, names and descriptions, and with an error message exactly
    when the generator threw. *)
Theorem consumer_loop_always_settles (p : Prog unit) (env : Env) (n : nat)
  (st : App.AppState) :
  exists st',
    snd (run env n (App.consume p st)) = Ok st' /\
    requests (fst (run env n (App.consume p st)))
    = requests (fst (run env n p)) /\
    App.isGenerating (App.generationState st') = false /\
    map identity_of (App.stages st') = map identity_of (App.stages st) /\
    App.referenceImages st' = App.referenceImages st /\
    (forall e, snd (run env n p) = Err e ->
               App.generationState st'
               = App.mkGeneration false (Some (App.shown e)) EmptyString /\
               App.stages st'
               = App.stages (fold_left App.on_update
                               (events (fst (run env n p))) st)) /\
    (forall a, snd (run env n p) = Ok a ->
               App.error (App.generationState st')
               = App.error (App.generationState st)).
Proof.
  rewrite run_consume. cbn [fst snd]. eexists. split; [reflexivity |].
  destruct (updates_keep_identity (events (fst (run env n p))) st)
    as (H1 & H2 & H3).
  set (st' := fold_left App.on_update (events (fst (run env n p))) st) in *.
  split; [apply requests_silent |].
  destruct (snd (run env n p)) as [a | e].
  - cbn. repeat split; try discriminate.
    + rewrite <- H1, map_map. apply map_ext. intros s.
      unfold identity_of. now destruct (Nat.eqb (App.id s) 4).
    + exact H2.
    + intros _ _. now rewrite H3.
  - cbn. split; [reflexivity |]. split; [exact H1 |]. split; [exact H2 |].
    split; [| discriminate]. intros e' He. injection He as <-. now split.
Qed.

Lemma consumer_loop_always_settles_witness :
  let env := scripted (text_response "A box.") "I cannot do that" in
  let p := generateSceneWorkflow blank_text "a cat"
             sample_images in
  let st := App.mkApp App.INITIAL_SCENE None App.INITIAL_STAGES
              (App.mkGeneration true None EmptyString) in
  exists st',
    snd (run env 0 (App.consume p st)) = Ok st' /\
    App.generationState st'
    = App.mkGeneration false (Some (App.shown unrecoverable)) EmptyString.
Proof.
  intros env p st.
  destruct (consumer_loop_always_settles p env 0 st)
    as (st' & H1 & _ & _ & _ & _ & He & _).
  exists st'. split; [exact H1 |].
  apply (He unrecoverable). vm_compute. reflexivity.
Defined.

(** A run of the workflow that fails has emitted nothing after the
    opening event of stage 2. *)
Lemma failed_run_events (ToString : json -> option string) (env : Env)
  (prompt : string) (images : ReferenceImages) (e : JsError) :
  snd (workflow_run ToString env prompt images) = Err e ->
  events (fst (workflow_run ToString env prompt images))
  = [stage1_start; stage1_done; stage2_start].
Proof.
  rewrite workflow_run_unfold. cbn [fst snd]. unfold after_model.
  destruct (model_outcome env prompt images) as [response | message];
    [| reflexivity].
  destruct (text response) as [t |]; [| reflexivity].
  destruct (cleanAndParseJSON t) as [scene | e']; [| reflexivity].
  destruct (shapes_length ToString scene) as [n | e']; [| reflexivity].
  discriminate.
Qed.

Lemma handleGenerate_run (ToString : json -> option string) (env : Env)
  (prompt : string) (images : ReferenceImages) (st : App.AppState) :
  let w := workflow_run ToString env prompt images in
  let opened :=
    App.mkApp (App.sceneConfig st) (Some images)
      [ App.mkStage 1 "Analysis" "Pre-production & Geometry Breakdown" []
          App.pending;
        App.mkStage 2 "Modeling" "CSG Construction & Topology" []
          App.pending;
        App.mkStage 3 "Texturing" "Baking, Shading & UVs" [] App.pending;
        App.mkStage 4 "Rendering" "Lighting, VFX & Post-processing" []
          App.pending ]
      (App.mkGeneration true None "Generating reference blueprints...") in
  run env 0 (App.handleGenerate ToString prompt (Ok images) st) =
  (silent (fst w),
   Ok (let st' := fold_left App.on_update (events (fst w)) opened in
       match snd w with
       | Ok _ => App.finish st'
       | Err e => App.caught e st'
       end)).
Proof.
  cbv zeta. unfold App.handleGenerate. cbv zeta. rewrite run_consume.
  reflexivity.
Qed.

(** X16. A pipeline whose workflow completes leaves the four stages
    completed, each with the log lines of its closing event, shows the
    final scene, the one with the raised light, and the reference set,
    and reports no error.  The process panel then expands stage 4. *)
Theorem completed_pipeline_on_screen (ToString : json -> option string) (env : Env)
  (prompt : string) (images : ReferenceImages) (st : App.AppState)
  (expanded : option nat) :
  snd (workflow_run ToString env prompt images) = Ok tt ->
  exists n scene st',
    snd (run env 0 (App.handleGenerate ToString prompt (Ok images) st))
    = Ok st' /\
    In (Emit (stage2_done n scene))
      (fst (workflow_run ToString env prompt images)) /\
    App.stages st' =
    [ App.mkStage 1 "Analysis" "Pre-production & Geometry Breakdown"
        (logs stage1_done) App.completed;
      App.mkStage 2 "Modeling" "CSG Construction & Topology"
        (logs (stage2_done n scene)) App.completed;
      App.mkStage 3 "Texturing" "Baking, Shading & UVs"
        (logs (stage3_done scene)) App.completed;
      App.mkStage 4 "Rendering" "Lighting, VFX & Post-processing"
        (logs (stage4_done (finalSceneData scene))) App.completed ] /\
    App.sceneConfig st' = finalSceneData scene /\
    App.referenceImages st' = Some images /\
    App.generationState st' = App.mkGeneration false None "Done!" /\
    ProcessPanel.expand (App.stages st') expanded = Some 4.
Proof.
  intros Hok.
  destruct (workflow_run_ok_inv ToString env prompt images Hok)
    as (response & t & n & members & shapes & _ & _ & _ & _ & _ & Hrun).
  exists n, (JObject members). eexists.
  rewrite handleGenerate_run, Hrun. cbn [fst snd].
  split; [reflexivity |].
  split; [unfold successful_trace; cbn; auto 10 |].
  repeat split.
Qed.

Lemma completed_pipeline_on_screen_witness :
  let env := scripted (text_response "A box.") (quoted "{'shapes':[]}") in
  exists n scene st',
    snd (run env 0
           (App.handleGenerate blank_text "a cat"
              (Ok sample_images) (App.handleClear
                 (App.mkApp JNull None []
                    (App.mkGeneration false None EmptyString)))))
    = Ok st' /\
    map App.status (App.stages st')
    = [App.completed; App.completed; App.completed; App.completed] /\
    App.sceneConfig st' = finalSceneData scene /\
    In (Emit (stage2_done n scene))
      (fst (workflow_run blank_text env "a cat" sample_images)).
Proof.
  intros env.
  destruct (completed_pipeline_on_screen blank_text env "a cat"
              sample_images
              (App.handleClear
                 (App.mkApp JNull None []
                    (App.mkGeneration false None EmptyString)))
              None ltac:(vm_compute; reflexivity))
    as (n & scene & st' & H1 & H2 & H3 & H4 & _).
  exists n, scene, st'. rewrite H3.
  split; [exact H1 |]. split; [reflexivity |]. split; [exact H4 | exact H2].
Defined.

(** X17. A pipeline whose workflow fails reports the error and turns the
    spinner off, but no stage is marked as failed: stage 1 stays
    completed, stage 2 stays in progress with its opening log lines,
    stages 3 and 4 stay pending, the scene on display is the one from
    before, and the process panel keeps stage 2 expanded. *)
Theorem failed_pipeline_on_screen (ToString : json -> option string) (env : Env)
  (prompt : string) (images : ReferenceImages) (st : App.AppState)
  (expanded : option nat) (e : JsError) :
  snd (workflow_run ToString env prompt images) = Err e ->
  exists st',
    snd (run env 0 (App.handleGenerate ToString prompt (Ok images) st))
    = Ok st' /\
    App.stages st' =
    [ App.mkStage 1 "Analysis" "Pre-production & Geometry Breakdown"
        (logs stage1_done) App.completed;
      App.mkStage 2 "Modeling" "CSG Construction & Topology"
        (logs stage2_start) App.processing;
      App.mkStage 3 "Texturing" "Baking, Shading & UVs" [] App.pending;
      App.mkStage 4 "Rendering" "Lighting, VFX & Post-processing" []
        App.pending ] /\
    App.sceneConfig st' = App.sceneConfig st /\
    App.referenceImages st' = Some images /\
    App.generationState st'
    = App.mkGeneration false (Some (App.shown e)) EmptyString /\
    ProcessPanel.expand (App.stages st') expanded = Some 2.
Proof.
  intros Herr. eexists.
  rewrite handleGenerate_run.
  rewrite (failed_run_events ToString env prompt images e Herr), Herr.
  cbn [fst snd]. repeat split.
Qed.

Lemma failed_pipeline_on_screen_witness :
  let env := scripted (text_response "A box.") "I cannot do that" in
  exists st',
    snd (run env 0
           (App.handleGenerate blank_text "a cat"
              (Ok sample_images)
              (App.mkApp App.INITIAL_SCENE None App.INITIAL_STAGES
                 (App.mkGeneration false None EmptyString))))
    = Ok st' /\
    map App.status (App.stages st')
    = [App.completed; App.processing; App.pending; App.pending] /\
    App.sceneConfig st' = App.INITIAL_SCENE /\
    App.error (App.generationState st')
    = Some (App.Message "Failed to parse geometric data. The generation may have been interrupted or malformed.").
Proof.
  intros env.
  destruct (failed_pipeline_on_screen blank_text env "a cat"
              sample_images
              (App.mkApp App.INITIAL_SCENE None App.INITIAL_STAGES
                 (App.mkGeneration false None EmptyString))
              None unrecoverable ltac:(vm_compute; reflexivity))
    as (st' & H1 & H2 & H3 & H4 & H5 & _).
  exists st'. rewrite H2, H3, H5.
  split; [exact H1 |]. split; [reflexivity |]. split; reflexivity.
Defined.

(** ** The errors of the builder and what the application shows *)

(** The error of a view whose attempts are exhausted. *)
Definition view_error (e : JsError) : Prop :=
  exists view retries last,
    In view [views_front; views_back; views_left; views_right] /\
    e = Error ("Failed to generate " ++ view ++ " after "
               ++ string_of_nat retries ++ " attempts. Last error: " ++ last).

Definition error_inv (b : Builder) : Prop :=
  match b with
  | Finished (Err e) _ => view_error e
  | _ => True
  end.

Lemma task_thrown (prompt view : string) (ref : option string) (e : JsError) :
  task_of prompt view ref (Throw e) ->
  exists retries last,
    e = Error ("Failed to generate " ++ view ++ " after "
               ++ string_of_nat retries ++ " attempts. Last error: " ++ last).
Proof.
  intros H. inversion H as [retries todo attempt last Heq | |].
  destruct todo as [| todo]; [| discriminate Heq].
  cbn [attempt_loop] in Heq. injection Heq as <-.
  exists retries, (match last with Some m => m | None => "undefined" end).
  reflexivity.
Qed.

Lemma first_thrown_in (ts : tasks) (e : JsError) :
  first_thrown ts = Some e -> exists view, In (view, Throw e) ts.
Proof.
  induction ts as [| [view t] r IH]; cbn [first_thrown]; [discriminate |].
  intros H.
  assert (Hr : first_thrown r = Some e -> exists v, In (v, Throw e) ((view, t) :: r)).
  { intros Hx. destruct (IH Hx) as [v Hv]. exists v. now right. }
  destruct t as [d | e' | req k | ms k | ev k]; try (apply Hr; exact H).
  injection H as ->. exists view. now left.
Qed.

Lemma pool_first_thrown (prompt front : string) (ts : tasks)
  (seen : list Label) (e : JsError) :
  pool prompt front ts seen -> first_thrown ts = Some e -> view_error e.
Proof.
  intros (tb & tl & tr & -> & [Hb _] & [Hl _] & [Hr _]) H.
  assert (Hv : forall view,
             In view [views_front; views_back; views_left; views_right] ->
             task_of prompt view (Some front) (Throw e) -> view_error e).
  { intros view Hin Ht.
    destruct (task_thrown prompt view (Some front) e Ht) as (r & l & ->).
    now exists view, r, l. }
  destruct (first_thrown_in _ e H) as [view [Hin | [Hin | [Hin | []]]]];
    injection Hin as <- ->.
  - apply (Hv views_back); [cbn; auto | exact Hb].
  - apply (Hv views_left); [cbn; auto | exact Hl].
  - apply (Hv views_right); [cbn; auto | exact Hr].
Qed.

Lemma join_error (prompt front : string) (ts : tasks) (seen : list Label) :
  pool prompt front ts seen -> error_inv (fst (join front ts)).
Proof.
  intros Hp. unfold join.
  destruct (first_thrown ts) as [e |] eqn:He.
  - cbn. now apply (pool_first_thrown prompt front ts seen).
  - destruct (all_returned ts) as [[| b [| l [| r [| x xs]]]] |]; exact I.
Qed.

Lemma step_error (prompt : string) (b : Builder) (seen : list Label)
  (i : nat) (o : Outcome) :
  builder_inv prompt b seen -> error_inv b ->
  error_inv (fst (step prompt b i o)).
Proof.
  intros Hinv He. destruct b as [t | front | front ts | r ts]; cbn [step].
  - destruct Hinv as [Ht _].
    destruct (resume_task prompt views_front None t o Ht) as (H1 & _ & _).
    destruct (resume views_front t o) as [t' ls]. cbn [fst] in H1.
    destruct t' as [front | e | req k | ms k | ev k]; cbn [fst];
      try exact I.
    cbn. destruct (task_thrown prompt views_front None e H1) as (r & l & ->).
    exists views_front, r, l. split; [cbn; auto | reflexivity].
  - pose proof (join_error prompt front (conditioned prompt front) seen
                  (conditioned_pool prompt front seen)) as H.
    destruct (join front (conditioned prompt front)) as [b' ls]. exact H.
  - destruct Hinv as [Hf Hp].
    destruct (pool_resume prompt front ts seen i o Hf Hp) as [Hp' _].
    destruct (resume_nth i o ts) as [ts' ls]. cbn [fst snd] in Hp'.
    pose proof (join_error prompt front ts' _ Hp') as H.
    destruct (join front ts') as [b' ls']. exact H.
  - destruct (resume_nth i o ts) as [ts' ls]. exact He.
Qed.

Lemma steps_error (prompt : string) (schedule : list (nat * Outcome)) :
  forall b seen,
    builder_inv prompt b seen -> error_inv b ->
    error_inv (fst (steps prompt b schedule)).
Proof.
  induction schedule as [| [i o] r IH]; intros b seen Hinv He; cbn [steps].
  - exact He.
  - pose proof (step_error prompt b seen i o Hinv He) as He'.
    destruct (step_inv prompt b seen i o Hinv) as [_ Hb].
    destruct (step prompt b i o) as [b' ls]. cbn [fst snd] in *.
    pose proof (IH b' (seen ++ ls)%list Hb He') as H.
    destruct (steps prompt b' r) as [b'' ls']. exact H.
Qed.

(** X18. The builder throws nothing of its own: whenever it has thrown,
    in whatever schedule, the error is the one of a view whose attempts
    are exhausted, naming the front, back, left or right view. *)
Theorem builder_throws_the_error_of_a_view (prompt : string)
  (schedule : list (nat * Outcome)) (e : JsError) (ts : tasks) :
  fst (generateReferenceImages prompt schedule) = Finished (Err e) ts ->
  exists view retries last,
    In view [views_front; views_back; views_left; views_right] /\
    e = Error ("Failed to generate " ++ view ++ " after "
               ++ string_of_nat retries ++ " attempts. Last error: " ++ last).
Proof.
  unfold generateReferenceImages.
  set (t := generateSingleView prompt views_front None default_retries).
  assert (Hinv : builder_inv prompt (AwaitFront t) (announce views_front t)).
  { split; [apply task_loop | exact I]. }
  pose proof (steps_error prompt schedule _ _ Hinv I) as H.
  destruct (steps prompt (AwaitFront t) schedule) as [b ls].
  cbn [fst] in *. intros ->. exact H.
Qed.

Lemma builder_throws_the_error_of_a_view_witness :
  let o := Rejected "quota" in
  exists view retries last,
    In view [views_front; views_back; views_left; views_right] /\
    Error "Failed to generate Front view after 3 attempts. Last error: quota"
    = Error ("Failed to generate " ++ view ++ " after "
             ++ string_of_nat retries ++ " attempts. Last error: " ++ last).
Proof.
  intros o.
  exact (builder_throws_the_error_of_a_view "a chair"
           [(0, o); (0, o); (0, o); (0, o); (0, o)] _ [] eq_refl).
Defined.

(** X19. From the call of the builder to the screen: when the builder
    has settled and handleGenerate has run on with what it settled with,
    the fallback text "Pipeline failed." is on display only if the
    reference images were built and the modelling request was rejected
    with an empty message, or with that very text. *)
Theorem fallback_text_needs_an_empty_rejection
  (ToString : json -> option string) (env : Env) (prompt : string)
  (schedule : list (nat * Outcome)) (built : Result ReferenceImages)
  (ts : tasks) (st st' : App.AppState) :
  fst (generateReferenceImages prompt schedule) = Finished built ts ->
  snd (run env 0 (App.handleGenerate ToString prompt built st)) = Ok st' ->
  App.error (App.generationState st')
  = Some (App.Message "Pipeline failed.") ->
  exists images message,
    built = Ok images /\
    model_outcome env prompt images = Rejected message /\
    (message = EmptyString \/ message = "Pipeline failed.").
Proof.
  intros Hb Hrun Herr. destruct built as [images | e].
  - rewrite handleGenerate_run in Hrun. cbn [snd] in Hrun.
    injection Hrun as <-. revert Herr.
    rewrite workflow_run_unfold. cbn [fst snd]. unfold after_model.
    destruct (model_outcome env prompt images) as [response | message]
      eqn:Ho.
    + destruct (text response) as [t |]; [| discriminate].
      destruct (cleanAndParseJSON t) as [scene | e] eqn:Hp.
      * destruct (shapes_length ToString scene) as [n | e] eqn:Hn.
        -- discriminate.
        -- destruct (shapes_length_error ToString scene e Hn) as [-> _].
           discriminate.
      * destruct (cleanAndParseJSON_error t e Hp) as [_ ->]. discriminate.
    + intros H. exists images, message. split; [reflexivity |].
      split; [exact Ho |]. cbn in H.
      destruct message as [| c m]; [now left |].
      right. congruence.
  - exfalso.
    pose proof (steps_error prompt schedule
                (AwaitFront
                   (generateSingleView prompt views_front None
                      default_retries))
                (announce views_front
                   (generateSingleView prompt views_front None
                      default_retries))
                (conj (task_loop _ _ _ _ _ _ _) I) I) as H0.
    revert Hb H0. unfold generateReferenceImages.
    destruct (steps prompt _ schedule) as [b ls]. cbn [fst].
    intros -> (view & r & l & _ & ->).
    cbn in Hrun. injection Hrun as <-. cbn in Herr. discriminate Herr.
Qed.

Lemma fallback_text_needs_an_empty_rejection_witness :
  let env := scripted (text_response "A box.") "unused" in
  let env' : Env := fun n req => if Nat.eqb n 1 then Rejected EmptyString
                                 else env n req in
  let schedule :=
    [ (0, image_response "F"); (0, text_response "timer");
      (2, image_response "R"); (0, image_response "B");
      (1, image_response "L") ] in
  exists images message,
    Ok (mkImages "F" "B" "L" "R") = Ok images /\
    model_outcome env' "a cat" images = Rejected message /\
    (message = EmptyString \/ message = "Pipeline failed.").
Proof.
  intros env env' schedule.
  eapply (fallback_text_needs_an_empty_rejection blank_text env'
            "a cat" schedule (Ok (mkImages "F" "B" "L" "R")) _
            (App.mkApp App.INITIAL_SCENE None App.INITIAL_STAGES
               (App.mkGeneration false None EmptyString))).
  - vm_compute. reflexivity.
  - vm_compute. reflexivity.
  - reflexivity.
Defined.

(** ** The image panel and the control panel *)

Lemma view_index_range (k : ImagePanel.ViewKey) :
  (0 <= ImagePanel.indexOf k ImagePanel.VIEW_ORDER < 4)%Z /\
  ImagePanel.at_index ImagePanel.VIEW_ORDER
    (ImagePanel.indexOf k ImagePanel.VIEW_ORDER) = Some k.
Proof. destruct k; cbn; split; try reflexivity; lia. Qed.

Lemma at_index_in_range (i : Z) :
  (0 <= i < 4)%Z ->
  exists k, ImagePanel.at_index ImagePanel.VIEW_ORDER i = Some k /\
            ImagePanel.indexOf k ImagePanel.VIEW_ORDER = i.
Proof.
  intros H.
  assert (E : i = 0%Z \/ i = 1%Z \/ i = 2%Z \/ i = 3%Z) by lia.
  destruct E as [-> | [-> | [-> | ->]]]; eexists; split; reflexivity.
Qed.

(** X20. Moving through the views wraps around: for a direction of at
    least -4, navigate selects the view whose place in the order
    front, left, right, back is the current place plus the direction,
    modulo 4, and so never closes the overlay. *)
Theorem navigate_wraps_around (direction : Z) (k : ImagePanel.ViewKey) :
  (-4 <= direction)%Z ->
  exists k',
    ImagePanel.navigate direction (Some k) = Some k' /\
    ImagePanel.indexOf k' ImagePanel.VIEW_ORDER
    = ((ImagePanel.indexOf k ImagePanel.VIEW_ORDER + direction) mod 4)%Z.
Proof.
  intros Hd. unfold ImagePanel.navigate.
  destruct (view_index_range k) as [Hi _].
  set (i := ImagePanel.indexOf k ImagePanel.VIEW_ORDER) in *.
  change (Z.of_nat (List.length ImagePanel.VIEW_ORDER)) with 4%Z.
  cbv zeta. rewrite Z.rem_mod_nonneg by lia.
  replace ((i + direction + 4) mod 4)%Z with ((i + direction) mod 4)%Z
    by (rewrite <- (Z_mod_plus_full (i + direction) 1 4); f_equal; lia).
  apply at_index_in_range. apply Z.mod_pos_bound. lia.
Qed.

Lemma navigate_wraps_around_witness :
  exists k',
    ImagePanel.navigate (-1) (Some ImagePanel.KFront) = Some k' /\
    ImagePanel.indexOf k' ImagePanel.VIEW_ORDER = 3%Z.
Proof.
  apply (navigate_wraps_around (-1) ImagePanel.KFront). lia.
Defined.

(** X21. The keys of the overlay: the right arrow and the left arrow
    undo each other, four presses of the same arrow come back to the view
    they started from, and Escape is the only key that closes the
    overlay. *)
Theorem arrow_keys_cycle_through_the_views (k : ImagePanel.ViewKey) :
  let press := ImagePanel.handleKeyDown in
  press "ArrowLeft" (press "ArrowRight" (Some k)) = Some k /\
  press "ArrowRight" (press "ArrowLeft" (Some k)) = Some k /\
  press "ArrowRight"
    (press "ArrowRight" (press "ArrowRight" (press "ArrowRight" (Some k))))
  = Some k /\
  press "ArrowLeft"
    (press "ArrowLeft" (press "ArrowLeft" (press "ArrowLeft" (Some k))))
  = Some k /\
  press "ArrowRight" (Some k) <> Some k /\
  (forall key, press key (Some k) = None <-> key = "Escape").
Proof.
  cbv zeta.
  split; [destruct k; reflexivity |]. split; [destruct k; reflexivity |].
  split; [destruct k; reflexivity |]. split; [destruct k; reflexivity |].
  split; [destruct k; discriminate |].
  intros key. unfold ImagePanel.handleKeyDown.
  destruct (String.eqb key "Escape") eqn:E1.
  - apply String.eqb_eq in E1. tauto.
  - apply String.eqb_neq in E1.
    destruct (String.eqb key "ArrowLeft");
      [| destruct (String.eqb key "ArrowRight")];
      (split; [destruct k; discriminate | contradiction]).
Qed.

Lemma trim_empty (s : string) :
  JsString.trim s = EmptyString <-> JsString.all_space s = true.
Proof.
  unfold JsString.trim. induction s as [| c r IH].
  - cbn. tauto.
  - cbn [JsString.skip_space JsString.all_space].
    destruct (JsString.is_space c) eqn:Hc.
    + rewrite IH. cbn. tauto.
    + cbn [JsString.trim_end JsString.all_space]. rewrite Hc.
      cbn. split; discriminate.
Qed.

(** X22. Submitting the form starts a generation exactly when the
    prompt has a character that is not white space, and then with the
    prompt as typed, blanks around it included. *)
Theorem blank_prompts_are_not_submitted (prompt : string) :
  ControlPanel.handleSubmit prompt
  = if JsString.all_space prompt then None else Some prompt.
Proof.
  unfold ControlPanel.handleSubmit.
  destruct (JsString.all_space prompt) eqn:Ha.
  - apply trim_empty in Ha. now rewrite Ha.
  - destruct (JsString.trim prompt) eqn:Ht; [| reflexivity].
    apply trim_empty in Ht. congruence.
Qed.
